(** * github_archive/archive.py: a shallow embedding and its properties

    The class [GithubArchive] of [src/github_archive/archive.py] is embedded
    as follows.

    - Python strings are [string] (byte strings; the names the forge hands
      out are ASCII, so [lower] and [strip] act on ASCII letters and blanks).
    - Every method that touches the outside world (filesystem, child
      processes, the forge, the logger, threads, the semaphore) is a program
      of type [prog A]: a finite tree of operations, with [Raise] for Python
      exceptions and [try_except] / [try_finally] for the handlers.
    - Two semantics run those programs: [exec], a sequential interpreter
      over a [world] (filesystem, semaphores, trace), and [step], the
      interleaving semantics of the threads started by
      [iterate_repos_to_archive] and [iterate_gists_to_archive]. *)

From Stdlib Require Import ZArith Ascii String List Lia Bool.
From stdpp Require Import base option list gmap strings pretty.
Import ListNotations.
Local Open Scope string_scope.

(** ** Strings *)

Module Str.

Definition is_upper (c : ascii) : bool :=
  ((65 <=? N_of_ascii c)%N && (N_of_ascii c <=? 90)%N)%bool.

Definition lower_ascii (c : ascii) : ascii :=
  if is_upper c then ascii_of_N (N_of_ascii c + 32) else c.

(** [str.lower()] *)
Fixpoint lower (s : string) : string :=
  match s with
  | EmptyString => EmptyString
  | String c s' => String (lower_ascii c) (lower s')
  end.

(** [str.split(sep)] for a one-character separator: never the empty list. *)
Fixpoint split (sep : ascii) (s : string) : list string :=
  match s with
  | EmptyString => [EmptyString]
  | String c s' =>
      if Ascii.eqb c sep then EmptyString :: split sep s'
      else match split sep s' with
           | [] => [String c EmptyString]
           | w :: ws => String c w :: ws
           end
  end.

(** The blanks [str.strip()] removes, within ASCII. *)
Definition is_space (c : ascii) : bool :=
  let n := N_of_ascii c in
  (((9 <=? n)%N && (n <=? 13)%N) || ((28 <=? n)%N && (n <=? 32)%N))%bool.

Fixpoint lstrip (s : string) : string :=
  match s with
  | EmptyString => EmptyString
  | String c s' => if is_space c then lstrip s' else s
  end.

Fixpoint rstrip (s : string) : string :=
  match s with
  | EmptyString => EmptyString
  | String c s' =>
      match rstrip s' with
      | EmptyString => if is_space c then EmptyString else String c EmptyString
      | r => String c r
      end
  end.

(** [str.strip()] *)
Definition strip (s : string) : string := rstrip (lstrip s).

Definition startswith (c : ascii) (s : string) : bool :=
  match s with
  | String d _ => Ascii.eqb d c
  | EmptyString => false
  end.

Fixpoint endswith (c : ascii) (s : string) : bool :=
  match s with
  | EmptyString => false
  | String d EmptyString => Ascii.eqb d c
  | String _ s' => endswith c s'
  end.

(** Truthiness of a Python string. *)
Definition nonempty (s : string) : bool :=
  match s with EmptyString => false | _ => true end.

End Str.

(** ** [os.path.join] (posixpath) *)

Module OsPath.

Definition sep : ascii := "/"%char.

(** One round of the loop of [posixpath.join]: a component that starts
    with the separator replaces what was joined so far. *)
Definition join2 (path b : string) : string :=
  if Str.startswith sep b then b
  else if (negb (Str.nonempty path) || Str.endswith sep path)%bool then path ++ b
  else path ++ "/" ++ b.

Definition join (a : string) (p : list string) : string :=
  fold_left join2 p a.

End OsPath.

(** ** Data model *)

(** What the code reads of a PyGithub [NamedUser], [Repository], [Gist]. *)
Record NamedUser := { login : string }.

Record Repository := {
  owner : NamedUser;
  name : string;
  ssh_url : string
}.

Record Gist := {
  gist_owner : NamedUser;
  gist_id : string;
  html_url : string
}.

Definition CLONE_OPERATION : string := "clone".
Definition ORG_CONTEXT : string := "orgs".
Definition PERSONAL_CONTEXT : string := "personal".
Definition PULL_OPERATION : string := "pull".
Definition USER_CONTEXT : string := "user".

(** The attributes of a [GithubArchive] instance.  [users], [orgs] and
    [gists] are a list after [__init__]; the empty string the constructor
    stores when an argument is missing is the empty list here: both are
    falsy and both iterate over nothing. *)
Record GithubArchive := {
  view : bool;
  clone : bool;
  pull : bool;
  users : list string;
  orgs : list string;
  gists : list string;
  timeout : Z;
  threads : Z;
  token : option string;
  location : string;
  authenticated_user : option NamedUser;
  authenticated_username : option string
}.

Definition set_users (self : GithubArchive) (us : list string) : GithubArchive :=
  {| view := view self; clone := clone self; pull := pull self;
     users := us; orgs := orgs self; gists := gists self;
     timeout := timeout self; threads := threads self; token := token self;
     location := location self;
     authenticated_user := authenticated_user self;
     authenticated_username := authenticated_username self |}.

(** Python exceptions the code raises, catches or lets through. *)
Inductive exn :=
| ValueError (msg : string)
| KeyError (key : string)
| AttributeError (msg : string)
| TimeoutExpired (cmd : string) (seconds : Z)
| CalledProcessError (returncode : Z) (cmd : string)
| FileExistsError (path : string)
| FileNotFoundError (path : string)
| NotADirectoryError (path : string)
| GithubException (msg : string).

Inductive level := DEBUG | INFO | ERROR | CRITICAL.

(** ** Programs *)

(** The operations on the outside world, indexed by what they give back.
    An operation that can raise gives back the exception as a value; the
    wrappers below re-raise it. *)
Inductive op : Type -> Type :=
| OsPathExists (path : string) : op bool
| OsMakedirs (path : string) : op (option exn)
| ShutilRmtree (path : string) : op (option exn)
| SubprocessRun (cmd : string) (seconds : Z) : op (option exn)
| NewBoundedSemaphore (value : Z) : op (exn + nat)
| SemAcquire (sem : nat) : op unit
| SemRelease (sem : nat) : op (option exn)
| ThreadJoin (thread : nat) : op unit
| Logging (lvl : level) (msg : string) : op unit
| SetupLogging (loc : string) : op unit
| DatetimeNow : op Z
| StrElapsed (start : Z) : op string
| ForgeLogin (tok : string) : op (exn + string)
| ForgePersonalRepos (tok : string) : op (exn + list Repository)
| ForgeUserRepos (tok : option string) (user : string) : op (exn + list Repository)
| ForgeOrgRepos (tok : option string) (org : string) : op (exn + list Repository)
| ForgeUserGists (tok : option string) (user : string) : op (exn + list Gist).

(** A program: returns, raises, performs an operation and goes on with its
    result, or starts a thread ([Thread(target=..., args=...)] followed by
    [.start()]) and goes on with the handle of the new thread. *)
Inductive prog (A : Type) : Type :=
| Ret (a : A)
| Raise (e : exn)
| Op {X : Type} (o : op X) (k : X -> prog A)
| ThreadStart (body : prog unit) (k : nat -> prog A).

Arguments Ret {A} a.
Arguments Raise {A} e.
Arguments Op {A X} o k.
Arguments ThreadStart {A} body k.

Fixpoint bind {A B : Type} (p : prog A) (f : A -> prog B) : prog B :=
  match p with
  | Ret a => f a
  | Raise e => Raise e
  | Op o k => Op o (fun x => bind (k x) f)
  | ThreadStart body k => ThreadStart body (fun t => bind (k t) f)
  end.

#[export] Instance prog_ret : MRet prog := fun A a => Ret a.
#[export] Instance prog_bind : MBind prog := fun A B f p => bind p f.

(** [try: p except <the exceptions h accepts>: h e] *)
Fixpoint try_except {A : Type} (p : prog A) (h : exn -> option (prog A)) : prog A :=
  match p with
  | Ret a => Ret a
  | Raise e => match h e with Some q => q | None => Raise e end
  | Op o k => Op o (fun x => try_except (k x) h)
  | ThreadStart body k => ThreadStart body (fun t => try_except (k t) h)
  end.

(** [try: p finally: f]: [f] runs on every way out of [p], and an
    exception of [f] replaces the one in flight. *)
Fixpoint try_finally {A : Type} (p : prog A) (f : prog unit) : prog A :=
  match p with
  | Ret a => f ;; Ret a
  | Raise e => f ;; Raise e
  | Op o k => Op o (fun x => try_finally (k x) f)
  | ThreadStart body k => ThreadStart body (fun t => try_finally (k t) f)
  end.

Definition perform {X : Type} (o : op X) : prog X := Op o Ret.

Definition reraise (r : option exn) : prog unit :=
  match r with Some e => Raise e | None => Ret tt end.

Definition unwrap {X : Type} (r : exn + X) : prog X :=
  match r with inl e => Raise e | inr x => Ret x end.

Definition os_path_exists (path : string) : prog bool := perform (OsPathExists path).
Definition os_makedirs (path : string) : prog unit := r ← perform (OsMakedirs path); reraise r.
Definition shutil_rmtree (path : string) : prog unit := r ← perform (ShutilRmtree path); reraise r.
Definition subprocess_run (cmd : string) (seconds : Z) : prog unit :=
  r ← perform (SubprocessRun cmd seconds); reraise r.
Definition BoundedSemaphore (value : Z) : prog nat :=
  r ← perform (NewBoundedSemaphore value); unwrap r.
Definition acquire (sem : nat) : prog unit := perform (SemAcquire sem).
Definition release (sem : nat) : prog unit := r ← perform (SemRelease sem); reraise r.
Definition join (thread : nat) : prog unit := perform (ThreadJoin thread).
Definition LOGGER (lvl : level) (msg : string) : prog unit := perform (Logging lvl msg).

Definition nl : string := String (ascii_of_nat 10) EmptyString.

(** [for x in l: body x] *)
Fixpoint for_each {X : Type} (l : list X) (body : X -> prog unit) : prog unit :=
  match l with
  | [] => Ret tt
  | x :: rest => body x ;; for_each rest body
  end.

(** [if c: p] *)
Definition when (c : bool) (p : prog unit) : prog unit := if c then p else Ret tt.

(** ** The methods of [GithubArchive] *)

(** Truthiness of [self.token]: neither [None] nor the empty string. *)
Definition token_truthy (tok : option string) : bool :=
  match tok with Some t => Str.nonempty t | None => false end.

(** Truthiness of a list. *)
Definition list_truthy {X : Type} (l : list X) : bool :=
  match l with [] => false | _ => true end.

(** A bound method used as a condition without being called: the method
    object is what is tested, and a method object is always truthy. *)
Definition bound_method_truthy {X : Type} (method : X) : bool := true.

(** [l.remove(x)]: drops the first occurrence, [ValueError] without one. *)
Fixpoint list_remove (x : option string) (l : list string) : exn + list string :=
  match l with
  | [] => inl (ValueError "list.remove(x): x not in list")
  | y :: rest =>
      if bool_decide (x = Some y) then inr rest
      else match list_remove x rest with
           | inl e => inl e
           | inr rest' => inr (y :: rest')
           end
  end.

(** [arg.lower().split(',') if arg else ''] *)
Definition split_argument (arg : option string) : list string :=
  match arg with
  | Some s => if Str.nonempty s then Str.split ","%char (Str.lower s) else []
  | None => []
  end.

Definition __init__ (view clone pull : bool) (users orgs gists : option string)
    (timeout threads : Z) (token : option string) (location : string)
  : prog GithubArchive :=
  authenticated_user ←
    match token with
    | Some t =>
        if Str.nonempty t
        then (l ← (r ← perform (ForgeLogin t); unwrap r); Ret (Some {| login := l |}))
        else Ret None
    | None => Ret None
    end;
  Ret {| view := view; clone := clone; pull := pull;
         users := split_argument users;
         orgs := split_argument orgs;
         gists := split_argument gists;
         timeout := timeout; threads := threads; token := token;
         location := location;
         authenticated_user := authenticated_user;
         authenticated_username :=
           if token_truthy token
           then option_map (fun u => Str.lower (login u)) authenticated_user
           else None |}.

Definition any_target (self : GithubArchive) : bool :=
  list_truthy (users self) || list_truthy (orgs self) || list_truthy (gists self).

Definition any_operation (self : GithubArchive) : bool :=
  view self || clone self || pull self.

Definition initialize_project (self : GithubArchive) : prog unit :=
  e ← os_path_exists (location self);
  when (negb e)
    (os_makedirs (OsPath.join (location self) ["repos"]);;
     os_makedirs (OsPath.join (location self) ["gists"]));;
  if any_target self && negb (any_operation self) then
    let message := "A git operation must be specified when a list of users or orgs is provided." in
    LOGGER CRITICAL message;;
    Raise (ValueError message)
  else if negb (any_target self) && any_operation self then
    let message := "A list must be provided when a git operation is specified." in
    LOGGER CRITICAL message;;
    Raise (ValueError message)
  else Ret tt.

Definition authenticated_user_in_users (self : GithubArchive) : prog bool :=
  match authenticated_user self with
  | Some u => Ret (bool_decide (Str.lower (login u) ∈ users self))
  | None => Raise (AttributeError "'NoneType' object has no attribute 'login'")
  end.

Definition get_personal_repos (self : GithubArchive) : prog (list Repository) :=
  repos ← (r ← perform (ForgePersonalRepos (default "" (token self))); unwrap r);
  LOGGER DEBUG "Personal repos retrieved!";;
  Ret repos.

(** [for name in names: ...; all.append(fetch(name.strip())); LOGGER.debug(...)]
    then the flattening comprehension. *)
Fixpoint fetch_each {X : Type} (fetch : string -> prog (list X)) (what : string)
    (names : list string) (all : list (list X)) : prog (list (list X)) :=
  match names with
  | [] => Ret all
  | user :: rest =>
      let formatted_name := Str.strip user in
      found ← fetch formatted_name;
      LOGGER DEBUG (formatted_name ++ what);;
      fetch_each fetch what rest (all ++ [found])
  end.

Definition get_all_user_repos (self : GithubArchive) : prog (list Repository) :=
  all_user_repos ←
    fetch_each (fun n => r ← perform (ForgeUserRepos (token self) n); unwrap r)
               " repos retrieved!" (users self) [];
  Ret (concat all_user_repos).

Definition get_all_org_repos (self : GithubArchive) : prog (list Repository) :=
  all_org_repos ←
    fetch_each (fun n => r ← perform (ForgeOrgRepos (token self) n); unwrap r)
               " repos retrieved!" (orgs self) [];
  Ret (concat all_org_repos).

Definition get_all_gists (self : GithubArchive) : prog (list Gist) :=
  all_user_gists ←
    fetch_each (fun n => r ← perform (ForgeUserGists (token self) n); unwrap r)
               " gists retrieved!" (gists self) [];
  Ret (concat all_user_gists).

Definition view_repos (repos : list Repository) : prog unit :=
  for_each repos (fun repo =>
    let repo_name := login (owner repo) ++ "/" ++ name repo in
    LOGGER INFO repo_name).

Definition view_gists (gists : list Gist) : prog unit :=
  for_each gists (fun gist =>
    let gist_id := login (gist_owner gist) ++ "/" ++ gist_id gist in
    LOGGER INFO gist_id).

(** [str(error)] of the two exceptions the handlers log. *)
Definition str_error (e : exn) : string :=
  match e with
  | CalledProcessError rc cmd =>
      "Command '" ++ cmd ++ "' returned non-zero exit status " ++ pretty rc ++ "."
  | TimeoutExpired cmd seconds =>
      "Command '" ++ cmd ++ "' timed out after " ++ pretty seconds ++ " seconds"
  | _ => ""
  end.

(** What both [except] clauses do after their log line. *)
Definition rollback (path : string) : prog unit :=
  e ← os_path_exists path;
  when e (shutil_rmtree path).

(** The dictionary [commands] of [archive_repo] and of [archive_gist]. *)
Definition repo_commands (repo : Repository) (repo_path : string) : gmap string string :=
  <[CLONE_OPERATION := "git clone " ++ ssh_url repo ++ " " ++ repo_path]>
    {[PULL_OPERATION := "cd " ++ repo_path ++ " && git pull --rebase"]}.

Definition gist_commands (gist : Gist) (gist_path : string) : gmap string string :=
  <[CLONE_OPERATION := "git clone " ++ html_url gist ++ " " ++ gist_path]>
    {[PULL_OPERATION := "cd " ++ gist_path ++ " && git pull --rebase"]}.

(** What [archive_repo] and [archive_gist] have in common: everything but
    the dictionary of commands and the text of the three log lines. *)
Definition archive (commands : gmap string string) (seconds : Z) (thread_limiter : nat)
    (path operation : string)
    (success timed_out : string) (failed : exn -> string) : prog unit :=
  e ← os_path_exists path;
  if e && String.eqb operation CLONE_OPERATION then Ret tt
  else
    match commands !! operation with
    | None => Raise (KeyError operation)
    | Some git_command =>
        try_finally
          (try_except
             (acquire thread_limiter;;
              subprocess_run git_command seconds;;
              LOGGER INFO success)
             (fun error =>
                match error with
                | TimeoutExpired _ _ => Some
                    (LOGGER ERROR timed_out;;
                     rollback path)
                | CalledProcessError _ _ => Some
                    (LOGGER ERROR (failed error);;
                     rollback path)
                | _ => None
                end))
          (release thread_limiter)
    end.

Definition archive_repo (self : GithubArchive) (thread_limiter : nat)
    (repo : Repository) (repo_path : string) (operation : string) : prog unit :=
  archive (repo_commands repo repo_path) (timeout self) thread_limiter repo_path operation
    ("Repo: " ++ name repo ++ " " ++ operation ++ " success!")
    ("Git operation timed out archiving " ++ name repo ++ ".")
    (fun error => "Failed to " ++ operation ++ " " ++ name repo ++ nl ++ str_error error).

Definition archive_gist (self : GithubArchive) (thread_limiter : nat)
    (gist : Gist) (gist_path : string) (operation : string) : prog unit :=
  archive (gist_commands gist gist_path) (timeout self) thread_limiter gist_path operation
    ("Gist: " ++ gist_id gist ++ " " ++ operation ++ " success!")
    ("Git operation timed out archiving " ++ gist_id gist ++ ".")
    (fun error => "Failed to " ++ operation ++ " " ++ gist_id gist ++ nl ++ str_error error).

(** [repo_path] and [gist_path] as the two loops compute them. *)
Definition repo_path (self : GithubArchive) (repo : Repository) : string :=
  let repo_owner_username := Str.lower (login (owner repo)) in
  OsPath.join (location self) ["repos"; repo_owner_username; name repo].

Definition gist_path (self : GithubArchive) (gist : Gist) : string :=
  OsPath.join (location self) ["gists"; gist_id gist].

(** The first loop of [iterate_repos_to_archive]: one thread per repo the
    owner check lets through, appended to [thread_list]. *)
Fixpoint start_repo_threads (self : GithubArchive) (thread_limiter : nat)
    (context operation : string) (repos : list Repository)
    (thread_list : list nat) : prog (list nat) :=
  match repos with
  | [] => Ret thread_list
  | repo :: rest =>
      let repo_owner_username := Str.lower (login (owner repo)) in
      if token_truthy (token self)
         && negb (bool_decide (Some repo_owner_username = authenticated_username self))
         && String.eqb context PERSONAL_CONTEXT
      then start_repo_threads self thread_limiter context operation rest thread_list
      else
        ThreadStart (archive_repo self thread_limiter repo (repo_path self repo) operation)
          (fun repo_thread =>
             start_repo_threads self thread_limiter context operation rest
                                (thread_list ++ [repo_thread]))
  end.

Definition iterate_repos_to_archive (self : GithubArchive)
    (repos : list Repository) (context operation : string) : prog unit :=
  thread_limiter ← BoundedSemaphore (threads self);
  thread_list ← start_repo_threads self thread_limiter context operation repos [];
  for_each thread_list join.

Fixpoint start_gist_threads (self : GithubArchive) (thread_limiter : nat)
    (operation : string) (gists : list Gist)
    (thread_list : list nat) : prog (list nat) :=
  match gists with
  | [] => Ret thread_list
  | gist :: rest =>
      ThreadStart (archive_gist self thread_limiter gist (gist_path self gist) operation)
        (fun gist_thread =>
           start_gist_threads self thread_limiter operation rest
                              (thread_list ++ [gist_thread]))
  end.

Definition iterate_gists_to_archive (self : GithubArchive)
    (gists : list Gist) (operation : string) : prog unit :=
  thread_limiter ← BoundedSemaphore (threads self);
  thread_list ← start_gist_threads self thread_limiter operation gists [];
  for_each thread_list join.

Definition run (self : GithubArchive) : prog unit :=
  initialize_project self;;
  perform (SetupLogging (location self));;
  LOGGER INFO ("# GitHub Archive started..." ++ nl);;
  start_time ← perform DatetimeNow;
  (* Personal (includes personal authenticated items) *)
  self ←
    (if token_truthy (token self)
        && bound_method_truthy authenticated_user_in_users
        && list_truthy (users self)
     then
       LOGGER INFO ("# Making API call to GitHub for personal repos..." ++ nl);;
       personal_repos ← get_personal_repos self;
       when (view self)
         (LOGGER INFO ("# Viewing user repos..." ++ nl);;
          view_repos personal_repos);;
       when (clone self)
         (LOGGER INFO ("# Cloning missing personal repos..." ++ nl);;
          iterate_repos_to_archive self personal_repos PERSONAL_CONTEXT CLONE_OPERATION);;
       when (pull self)
         (LOGGER INFO ("# Pulling changes to personal repos..." ++ nl);;
          iterate_repos_to_archive self personal_repos PERSONAL_CONTEXT PULL_OPERATION);;
       remaining ← unwrap (list_remove (authenticated_username self) (users self));
       Ret (set_users self remaining)
     else Ret self);
  (* Users (can include personal non-authenticated items) *)
  when (list_truthy (users self) && (0 <? length (users self))%nat)
    (LOGGER INFO ("# Making API calls to GitHub for user repos..." ++ nl);;
     user_repos ← get_all_user_repos self;
     when (view self)
       (LOGGER INFO ("# Viewing user repos..." ++ nl);;
        view_repos user_repos);;
     when (clone self)
       (LOGGER INFO ("# Cloning missing user repos..." ++ nl);;
        iterate_repos_to_archive self user_repos USER_CONTEXT CLONE_OPERATION);;
     when (pull self)
       (LOGGER INFO ("# Pulling changes to user repos..." ++ nl);;
        iterate_repos_to_archive self user_repos USER_CONTEXT PULL_OPERATION));;
  (* Orgs *)
  when (list_truthy (orgs self))
    (LOGGER INFO ("# Making API calls to GitHub for org repos..." ++ nl);;
     org_repos ← get_all_org_repos self;
     when (view self)
       (LOGGER INFO ("# Viewing org repos..." ++ nl);;
        view_repos org_repos);;
     when (clone self)
       (LOGGER INFO ("# Cloning missing org repos..." ++ nl);;
        iterate_repos_to_archive self org_repos ORG_CONTEXT CLONE_OPERATION);;
     when (pull self)
       (LOGGER INFO ("# Pulling changes to org repos..." ++ nl);;
        iterate_repos_to_archive self org_repos ORG_CONTEXT PULL_OPERATION));;
  (* Gists *)
  when (list_truthy (gists self))
    (LOGGER INFO ("# Making API call to GitHub for gists..." ++ nl);;
     gists ← get_all_gists self;
     when (view self)
       (LOGGER INFO ("# Viewing gists..." ++ nl);;
        view_gists gists);;
     when (clone self)
       (LOGGER INFO ("# Cloning missing gists..." ++ nl);;
        iterate_gists_to_archive self gists CLONE_OPERATION);;
     when (pull self)
       (LOGGER INFO ("# Pulling changes to gists..." ++ nl);;
        iterate_gists_to_archive self gists PULL_OPERATION));;
  elapsed ← perform (StrElapsed start_time);
  let execution_time := "Execution time: " ++ elapsed ++ "." in
  let finish_message := "GitHub Archive complete! " ++ execution_time ++ nl in
  LOGGER INFO finish_message.

(** ** The world the programs run in *)

(** The filesystem maps a resolved path (its components below the root) to
    what is there.  Symbolic links are not modelled. *)
Inductive node := File | Dir.

#[export] Instance node_eq_dec : EqDecision node.
Proof. solve_decision. Defined.

Abbreviation fsmap := (gmap (list string) node).

Inductive proc_outcome := Exited (returncode : Z) | TimedOut.

Inductive event :=
| EvLog (lvl : level) (msg : string)
| EvSubprocess (cmd : string) (seconds : Z)
| EvSetupLogging (loc : string)
| EvForgeLogin (tok : string)
| EvForgePersonalRepos (tok : string)
| EvForgeUserRepos (tok : option string) (user : string)
| EvForgeOrgRepos (tok : option string) (org : string)
| EvForgeUserGists (tok : option string) (user : string).

(** What all threads share: the filesystem, the working directory of the
    process, the semaphores created so far (current value, initial value)
    and the trace of what was logged, spawned and asked of the forge,
    oldest first. *)
Record world := {
  fs : fsmap;
  cwd : list string;
  sems : list (Z * Z);
  trace : list event
}.

Definition set_fs (w : world) (m : fsmap) : world :=
  {| fs := m; cwd := cwd w; sems := sems w; trace := trace w |}.

Definition set_sems (w : world) (l : list (Z * Z)) : world :=
  {| fs := fs w; cwd := cwd w; sems := l; trace := trace w |}.

Definition record (w : world) (ev : event) : world :=
  {| fs := fs w; cwd := cwd w; sems := sems w; trace := trace w ++ [ev] |}.

Module Fs.

Definition components (s : string) : list string := Str.split OsPath.sep s.

(** Lexical resolution of the components, innermost directory first in
    [stack]: empty and "." components vanish, ".." drops one level. *)
Fixpoint normalize (stack : list string) (cs : list string) : list string :=
  match cs with
  | [] => rev stack
  | c :: rest =>
      if (String.eqb c "" || String.eqb c ".")%bool then normalize stack rest
      else if String.eqb c ".." then normalize (tail stack) rest
      else normalize (c :: stack) rest
  end.

Definition resolve (cwd : list string) (s : string) : list string :=
  normalize (if Str.startswith OsPath.sep s then [] else rev cwd) (components s).

(** [os.path.exists]: false for the empty string. *)
Definition path_exists (w : world) (s : string) : bool :=
  Str.nonempty s && bool_decide (is_Some (fs w !! resolve (cwd w) s)).

(** [shutil.rmtree]: removes a directory and everything below it. *)
Definition rmtree (w : world) (s : string) : exn + fsmap :=
  if negb (Str.nonempty s) then inl (FileNotFoundError s)
  else
    let p := resolve (cwd w) s in
    match fs w !! p with
    | None => inl (FileNotFoundError s)
    | Some File => inl (NotADirectoryError s)
    | Some Dir => inr (filter (fun kv => ¬ p `prefix_of` kv.1) (fs w))
    end.

(** The path itself and the directories above it, outermost first. *)
Definition prefixes (p : list string) : list (list string) :=
  map (fun n => take n p) (seq 0 (S (length p))).

(** [os.makedirs] without [exist_ok]: the leaf must be new, nothing on
    the way may be a regular file, and every missing level is created. *)
Definition makedirs (w : world) (s : string) : exn + fsmap :=
  if negb (Str.nonempty s) then inl (FileNotFoundError s)
  else
    let p := resolve (cwd w) s in
    match fs w !! p with
    | Some _ => inl (FileExistsError s)
    | None =>
        if existsb (fun q => bool_decide (fs w !! q = Some File)) (prefixes p)
        then inl (NotADirectoryError s)
        else inr (foldr (fun q m => <[q := Dir]> m) (fs w) (prefixes p))
    end.

End Fs.

(** The parts of the outside world the code only asks questions of: the
    shell that runs a command line within a time limit on a filesystem, the
    forge, the clock; and what [Logger.setup_logging] of the module
    [github_archive.logger], which is not among the sources, leaves of the
    filesystem when it is given the resolved location (it makes the
    directory of the log and the log file there).  Files have no content
    here, so the lines logged later do not change the filesystem. *)
Record env := {
  sh : string -> Z -> fsmap -> fsmap * proc_outcome;
  setup_logging : list string -> fsmap -> fsmap;
  forge_login : string -> exn + string;
  forge_personal_repos : string -> exn + list Repository;
  forge_user_repos : option string -> string -> exn + list Repository;
  forge_org_repos : option string -> string -> exn + list Repository;
  forge_user_gists : option string -> string -> exn + list Gist;
  datetime_now : Z;
  str_elapsed : Z -> string
}.

(** What [subprocess.run(..., check=True, timeout=...)] raises. *)
Definition check_outcome (cmd : string) (seconds : Z) (out : proc_outcome) : option exn :=
  match out with
  | Exited rc => if (rc =? 0)%Z then None else Some (CalledProcessError rc cmd)
  | TimedOut => Some (TimeoutExpired cmd seconds)
  end.

(** One operation on the world; [None] when the caller has to wait
    ([acquire] on an exhausted semaphore, [join] on a running thread). *)
Definition exec_op (E : env) (finished : nat -> bool) {X : Type} (o : op X) (w : world)
  : option (world * X) :=
  match o in op X return option (world * X) with
  | OsPathExists p => Some (w, Fs.path_exists w p)
  | OsMakedirs p =>
      match Fs.makedirs w p with
      | inl e => Some (w, Some e)
      | inr m => Some (set_fs w m, None)
      end
  | ShutilRmtree p =>
      match Fs.rmtree w p with
      | inl e => Some (w, Some e)
      | inr m => Some (set_fs w m, None)
      end
  | SubprocessRun cmd seconds =>
      let '(m, out) := sh E cmd seconds (fs w) in
      Some (set_fs (record w (EvSubprocess cmd seconds)) m, check_outcome cmd seconds out)
  | NewBoundedSemaphore value =>
      if (value <? 0)%Z
      then Some (w, inl (ValueError "semaphore initial value must be >= 0"))
      else Some (set_sems w (sems w ++ [(value, value)]), inr (length (sems w)))
  | SemAcquire s =>
      match sems w !! s with
      | Some (v, b) =>
          if (0 <? v)%Z then Some (set_sems w (<[s := ((v - 1)%Z, b)]> (sems w)), tt)
          else None
      | None => None
      end
  | SemRelease s =>
      match sems w !! s with
      | Some (v, b) =>
          if (b <=? v)%Z then Some (w, Some (ValueError "Semaphore released too many times"))
          else Some (set_sems w (<[s := ((v + 1)%Z, b)]> (sems w)), None)
      | None => None
      end
  | ThreadJoin t => if finished t then Some (w, tt) else None
  | Logging lvl msg => Some (record w (EvLog lvl msg), tt)
  | SetupLogging loc =>
      Some (set_fs (record w (EvSetupLogging loc))
                   (setup_logging E (Fs.resolve (cwd w) loc) (fs w)), tt)
  | DatetimeNow => Some (w, datetime_now E)
  | StrElapsed start => Some (w, str_elapsed E start)
  | ForgeLogin tok => Some (record w (EvForgeLogin tok), forge_login E tok)
  | ForgePersonalRepos tok =>
      Some (record w (EvForgePersonalRepos tok), forge_personal_repos E tok)
  | ForgeUserRepos tok user =>
      Some (record w (EvForgeUserRepos tok user), forge_user_repos E tok user)
  | ForgeOrgRepos tok org =>
      Some (record w (EvForgeOrgRepos tok org), forge_org_repos E tok org)
  | ForgeUserGists tok user =>
      Some (record w (EvForgeUserGists tok user), forge_user_gists E tok user)
  end.

(** ** Sequential execution *)

Inductive outcome (A : Type) :=
| Returned (a : A)
| Raised (e : exn)
| Blocked.

Arguments Returned {A} a.
Arguments Raised {A} e.
Arguments Blocked {A}.

(** Runs a program to its end on the calling thread.  A started thread runs
    to its own end at once, before its starter goes on (the schedule without
    interleaving); [done] tells for each thread started so far whether it
    came to an end.  An exception in a thread ends that thread only. *)
Fixpoint exec (E : env) {A : Type} (p : prog A) (w : world) (done : list bool)
  : world * list bool * outcome A :=
  match p with
  | Ret a => (w, done, Returned a)
  | Raise e => (w, done, Raised e)
  | Op o k =>
      match exec_op E (fun t => default false (done !! t)) o w with
      | Some (w', x) => exec E (k x) w' done
      | None => (w, done, Blocked)
      end
  | ThreadStart body k =>
      let t := length done in
      let '(w', done', r) := exec E body w (done ++ [false]) in
      let ended := match r with Blocked => false | _ => true end in
      exec E (k t) w' (<[t := ended]> done')
  end.

(** ** Interleaved execution *)

(** A thread is running its program or waiting for the child process it
    spawned; it has ended once its program returned or raised. *)
Inductive thread :=
| Running (p : prog unit)
| InSubprocess (cmd : string) (seconds : Z) (k : option exn -> prog unit).

Definition finished (t : thread) : bool :=
  match t with
  | Running (Ret _) | Running (Raise _) => true
  | _ => false
  end.

Definition is_finished (pool : list thread) (t : nat) : bool :=
  default false (finished <$> pool !! t).

Definition is_subprocess {X : Type} (o : op X) : bool :=
  match o with SubprocessRun _ _ => true | _ => false end.

(** The thread performs its next operation, other than spawning a child
    process, in one atomic step. *)
Definition next_op (E : env) (pool : list thread) (w : world) (p : prog unit)
  : option (world * prog unit) :=
  match p with
  | Op o k =>
      if is_subprocess o then None
      else match exec_op E (is_finished pool) o w with
           | Some (w', x) => Some (w', k x)
           | None => None
           end
  | _ => None
  end.

Definition next_start (p : prog unit) (t : nat) : option (prog unit * prog unit) :=
  match p with
  | ThreadStart body k => Some (body, k t)
  | _ => None
  end.

Definition next_subprocess (p : prog unit) : option thread :=
  match p with
  | Op o k =>
      match o in op X return (X -> prog unit) -> option thread with
      | SubprocessRun cmd seconds => fun k => Some (InSubprocess cmd seconds k)
      | _ => fun _ => None
      end k
  | _ => None
  end.

Definition subprocess_event (t : thread) : list event :=
  match t with
  | InSubprocess cmd seconds _ => [EvSubprocess cmd seconds]
  | Running _ => []
  end.

(** One step of one thread.  The answers of the forge and of the clock, the
    outcome of a child process and what it writes while it runs are not
    determined. *)
Inductive step : world * list thread -> world * list thread -> Prop :=
| step_op E w pool i p w' p' :
    pool !! i = Some (Running p) ->
    next_op E pool w p = Some (w', p') ->
    step (w, pool) (w', <[i := Running p']> pool)
| step_start w pool i p body p' :
    pool !! i = Some (Running p) ->
    next_start p (length pool) = Some (body, p') ->
    step (w, pool) (w, (<[i := Running p']> pool ++ [Running body])%list)
| step_subprocess_begin w pool i p t :
    pool !! i = Some (Running p) ->
    next_subprocess p = Some t ->
    step (w, pool)
         ({| fs := fs w; cwd := cwd w; sems := sems w;
             trace := (trace w ++ subprocess_event t)%list |},
          <[i := t]> pool)
| step_subprocess_write w pool i cmd seconds k m :
    pool !! i = Some (InSubprocess cmd seconds k) ->
    step (w, pool) (set_fs w m, pool)
| step_subprocess_end w pool i cmd seconds k out :
    pool !! i = Some (InSubprocess cmd seconds k) ->
    step (w, pool) (w, <[i := Running (k (check_outcome cmd seconds out))]> pool).

Inductive steps : world * list thread -> world * list thread -> Prop :=
| steps_refl s : steps s s
| steps_step s1 s2 s3 : steps s1 s2 -> step s2 s3 -> steps s1 s3.

(** ** Notions the statements use *)

(** [starts bodies p thread_list]: the program [p] starts one thread per
    element of [bodies], in that order and doing nothing else, and returns
    [thread_list] with the handles of those threads appended. *)
Fixpoint starts (bodies : list (prog unit)) (p : prog (list nat))
    (thread_list : list nat) : Prop :=
  match bodies with
  | [] => p = Ret thread_list
  | body :: rest =>
      match p with
      | ThreadStart body' k =>
          body' = body /\ forall t, starts rest (k t) (thread_list ++ [t])%list
      | _ => False
      end
  end.

(** The check of the owner in [iterate_repos_to_archive], as a predicate on
    the repo: [true] when the repo gets a thread. *)
Definition archived (self : GithubArchive) (context : string) (repo : Repository) : bool :=
  negb (token_truthy (token self)
        && negb (bool_decide (Some (Str.lower (login (owner repo))) = authenticated_username self))
        && String.eqb context PERSONAL_CONTEXT).

(** [balanced s p held]: started with [held] permits of semaphore [s] in
    hand, the program [p] ends with none on every path, releases only what
    it holds, and neither creates a semaphore nor starts a thread.  What
    follows a refused release is not constrained. *)
Fixpoint balanced (s : nat) {A : Type} (p : prog A) : nat -> Prop :=
  match p with
  | Ret _ => fun held => held = 0
  | Raise _ => fun held => held = 0
  | ThreadStart _ _ => fun _ => False
  | Op o k =>
      match o in op X return (X -> nat -> Prop) -> nat -> Prop with
      | SemAcquire s' => fun K held => s' = s /\ K tt (S held)
      | SemRelease s' => fun K held =>
          s' = s /\ match held with S held' => K None held' | O => False end
      | NewBoundedSemaphore _ => fun _ _ => False
      | _ => fun K held => forall x, K x held
      end (fun x => balanced s (k x))
  end.

Definition thread_balanced (s : nat) (t : thread) (held : nat) : Prop :=
  match t with
  | Running p => balanced s p held
  | InSubprocess _ _ k => forall r, balanced s (k r) held
  end.

Definition is_value_error {A : Type} (r : outcome A) : bool :=
  match r with Raised (ValueError _) => true | _ => false end.

Definition is_os_error {A : Type} (r : outcome A) : bool :=
  match r with
  | Raised (FileExistsError _) | Raised (FileNotFoundError _)
  | Raised (NotADirectoryError _) => true
  | _ => false
  end.

(** What the first three lines of [initialize_project] do to the world:
    the world after them and the exception of [os.makedirs], if any. *)
Definition bootstrap (w : world) (loc : string) : world * option exn :=
  if Fs.path_exists w loc then (w, None)
  else match Fs.makedirs w (OsPath.join loc ["repos"]) with
       | inl e => (w, Some e)
       | inr m1 =>
           match Fs.makedirs (set_fs w m1) (OsPath.join loc ["gists"]) with
           | inl e => (set_fs w m1, Some e)
           | inr m2 => (set_fs w m2, None)
           end
       end.

(** The message of the [ValueError] the two checks of [initialize_project]
    end in, if any. *)
Definition validation_error (self : GithubArchive) : option string :=
  if any_target self && negb (any_operation self)
  then Some "A git operation must be specified when a list of users or orgs is provided."
  else if negb (any_target self) && any_operation self
  then Some "A list must be provided when a git operation is specified."
  else None.

(** A plain path component: not empty, no separator inside, neither "."
    nor "..". *)
Definition plain_name (b : string) : bool :=
  Str.nonempty b && bool_decide (Str.split OsPath.sep b = [b])
  && negb (String.eqb b ".") && negb (String.eqb b "..").

(** ** Concrete inputs for the examples *)

Module Fixture.

Definition alice_r1 : Repository :=
  {| owner := {| login := "alice" |}; name := "r1";
     ssh_url := "git@host:alice/r1.git" |}.

Definition orgx_r2 : Repository :=
  {| owner := {| login := "orgX" |}; name := "r2";
     ssh_url := "git@host:orgX/r2.git" |}.

Definition bob_repo1 : Repository :=
  {| owner := {| login := "Bob" |}; name := "repo1";
     ssh_url := "git@host:bob/repo1.git" |}.

Definition gist1 : Gist :=
  {| gist_owner := {| login := "bob" |}; gist_id := "abc123";
     html_url := "https://host/abc123" |}.

(** A logger that keeps its file [github-archive.log] in the directory
    [logs] under the location. *)
Definition log_file (root : list string) (m : fsmap) : fsmap :=
  <[(root ++ ["logs"; "github-archive.log"])%list := File]>
    (<[(root ++ ["logs"])%list := Dir]> m).

(** A shell whose every command leaves a directory at [path] behind and
    ends as [out] says. *)
Definition leaving (path : list string) (out : proc_outcome) : env :=
  {| sh := fun _ _ m => (<[path := Dir]> m, out);
     setup_logging := log_file;
     forge_login := fun _ => inr "Alice";
     forge_personal_repos := fun _ => inr [alice_r1; orgx_r2];
     forge_user_repos := fun _ _ => inr [bob_repo1];
     forge_org_repos := fun _ _ => inr [];
     forge_user_gists := fun _ _ => inr [gist1];
     datetime_now := 0;
     str_elapsed := fun _ => "0:00:00" |}.

(** A filesystem with the root directory only. *)
Definition bare : world :=
  {| fs := {[ [] := Dir ]}; cwd := []; sems := []; trace := [] |}.

(** [/archive] with [repos/bob/repo1] and [gists/abc123] in it, and one
    semaphore of two permits. *)
Definition archived_once : world :=
  {| fs := list_to_map
             [([], Dir); (["archive"], Dir);
              (["archive"; "repos"], Dir); (["archive"; "gists"], Dir);
              (["archive"; "repos"; "bob"], Dir);
              (["archive"; "repos"; "bob"; "repo1"], Dir);
              (["archive"; "gists"; "abc123"], Dir)];
     cwd := []; sems := [(2, 2)%Z]; trace := [] |}.

(** [/archive] with its two subdirectories and nothing archived yet. *)
Definition fresh : world :=
  {| fs := list_to_map
             [([], Dir); (["archive"], Dir);
              (["archive"; "repos"], Dir); (["archive"; "gists"], Dir)];
     cwd := []; sems := [(2, 2)%Z]; trace := [] |}.

Definition config (view clone pull : bool) (users : list string)
    (token : option string) : GithubArchive :=
  {| view := view; clone := clone; pull := pull;
     users := users; orgs := []; gists := [];
     timeout := 30; threads := 2; token := token;
     location := "/archive";
     authenticated_user :=
       if token_truthy token then Some {| login := "Alice" |} else None;
     authenticated_username :=
       if token_truthy token then Some "alice" else None |}.

End Fixture.

(** The world with more events on its trace. *)
Definition record_all (w : world) (evs : list event) : world :=
  {| fs := fs w; cwd := cwd w; sems := sems w; trace := (trace w ++ evs)%list |}.

(** ** The invariant of a batch of threads *)

(** The first loop of a batch is under way: the main thread still has the
    threads of [bodies] to start and joins all handles afterwards; the
    handles so far are those of [workers]. *)
Definition starting (s : nat) (total : nat) (main : prog unit) (workers : list thread)
  : Prop :=
  exists bodies q,
    starts bodies q (seq 1 (length workers)) /\
    Forall (fun body => balanced s body 0) bodies /\
    (length workers + length bodies)%nat = total /\
    main = q ≫= (fun thread_list => for_each thread_list join).

(** The second loop is under way: the first [d] workers were joined, the
    others are still to be joined, in order. *)
Definition joining (total : nat) (main : prog unit) (workers : list thread) : Prop :=
  exists d,
    (d <= length workers)%nat /\
    length workers = total /\
    main = for_each (seq (S d) (length workers - d)) join /\
    forall i t, (i < d)%nat -> workers !! i = Some t -> finished t = true.

(** The states a batch goes through once its semaphore exists (or could
    not be made): worker [i] holds [hs !! i] permits, and the permits in
    hand and in the semaphore add up to the bound. *)
Inductive batch_inv (sems0 : list (Z * Z)) (b : Z) (total : nat)
  : world * list thread -> Prop :=
| batch_failed w e :
    sems w = sems0 ->
    (b < 0)%Z ->
    batch_inv sems0 b total (w, [Running (Raise e)])
| batch_running w main workers v hs :
    sems w = (sems0 ++ [(v, b)])%list ->
    Forall2 (thread_balanced (length sems0)) workers hs ->
    (0 <= v)%Z ->
    (v + Z.of_nat (sum_list hs) = b)%Z ->
    starting (length sems0) total main workers \/ joining total main workers ->
    batch_inv sems0 b total (w, Running main :: workers).

(** The two batches of the source, by what their threads run. *)
Definition repo_bodies (self : GithubArchive) (thread_limiter : nat)
    (repos : list Repository) (context operation : string) : list (prog unit) :=
  map (fun repo => archive_repo self thread_limiter repo (repo_path self repo) operation)
      (List.filter (archived self context) repos).

Definition gist_bodies (self : GithubArchive) (thread_limiter : nat)
    (gists : list Gist) (operation : string) : list (prog unit) :=
  map (fun gist => archive_gist self thread_limiter gist (gist_path self gist) operation)
      gists.

(** The semaphore a thread is about to release, if that is its next
    operation. *)
Definition next_release (t : thread) : option nat :=
  match t with
  | Running (Op o _) => match o with SemRelease s => Some s | _ => None end
  | _ => None
  end.

(** ** Schedules *)

(** One choice of the scheduler and of the outside world: which thread
    moves, and for a child process what it writes and how it ends. *)
Inductive choice :=
| DoOp (E : env) (i : nat)
| DoStart (i : nat)
| DoSubprocessBegin (i : nat)
| DoSubprocessWrite (i : nat) (m : fsmap)
| DoSubprocessEnd (i : nat) (out : proc_outcome).

(** The step a choice selects, if the thread can make it. *)
Definition sched_step (c : choice) (st : world * list thread)
  : option (world * list thread) :=
  let '(w, pool) := st in
  match c with
  | DoOp E i =>
      match pool !! i with
      | Some (Running p) =>
          match next_op E pool w p with
          | Some (w', p') => Some (w', <[i := Running p']> pool)
          | None => None
          end
      | _ => None
      end
  | DoStart i =>
      match pool !! i with
      | Some (Running p) =>
          match next_start p (length pool) with
          | Some (body, p') => Some (w, (<[i := Running p']> pool ++ [Running body])%list)
          | None => None
          end
      | _ => None
      end
  | DoSubprocessBegin i =>
      match pool !! i with
      | Some (Running p) =>
          match next_subprocess p with
          | Some t =>
              Some ({| fs := fs w; cwd := cwd w; sems := sems w;
                       trace := (trace w ++ subprocess_event t)%list |},
                    <[i := t]> pool)
          | None => None
          end
      | _ => None
      end
  | DoSubprocessWrite i m =>
      match pool !! i with
      | Some (InSubprocess _ _ _) => Some (set_fs w m, pool)
      | _ => None
      end
  | DoSubprocessEnd i out =>
      match pool !! i with
      | Some (InSubprocess cmd seconds k) =>
          Some (w, <[i := Running (k (check_outcome cmd seconds out))]> pool)
      | _ => None
      end
  end.

Fixpoint sched_run (cs : list choice) (st : world * list thread)
  : option (world * list thread) :=
  match cs with
  | [] => Some st
  | c :: rest =>
      match sched_step c st with
      | Some st' => sched_run rest st'
      | None => None
      end
  end.

(** A run of [iterate_repos_to_archive] on two repos with two permits:
    both workers take a permit, the first clone succeeds, the second
    writes its directory and then times out and is rolled back. *)
Module Schedule.

Definition self : GithubArchive := Fixture.config false true false ["bob"; "alice"] None.

Definition main : prog unit :=
  iterate_repos_to_archive self [Fixture.bob_repo1; Fixture.alice_r1]
    USER_CONTEXT CLONE_OPERATION.

Definition init : world * list thread := (Fixture.fresh, [Running main]).

Definition two_repos : list choice :=
  let E := Fixture.leaving [] (Exited 0) in
  [DoOp E 0; DoStart 0; DoStart 0;
   DoOp E 1; DoOp E 2; DoOp E 1; DoOp E 2;
   DoSubprocessBegin 1; DoSubprocessBegin 2;
   DoSubprocessWrite 2 (<[["archive"; "repos"; "alice"] := Dir]> (fs Fixture.fresh));
   DoSubprocessWrite 2 (<[["archive"; "repos"; "alice"; "r1"] := Dir]>
                          (<[["archive"; "repos"; "alice"] := Dir]> (fs Fixture.fresh)));
   DoSubprocessEnd 1 (Exited 0);
   DoSubprocessEnd 2 TimedOut;
   DoOp E 1; DoOp E 2; DoOp E 2; DoOp E 2; DoOp E 1; DoOp E 2;
   DoOp E 0; DoOp E 0].

(** The state after the first [n] choices. *)
Definition after (n : nat) : world * list thread :=
  default init (sched_run (take n two_repos) init).

End Schedule.

(** ** Notions the further properties use *)

(** What one pass over the names of [get_all_user_repos], [get_all_org_repos]
    or [get_all_gists] leaves on the trace for a name whose request was
    answered: the request for the stripped name, then the DEBUG line. *)
Definition fetched (request : string -> event) (what : string) (names : list string)
  : list event :=
  flat_map (fun user => [request (Str.strip user); EvLog DEBUG (Str.strip user ++ what)]) names.

(** The answers the forge gave for the names, flattened in the order of the
    names (a refused request counts for nothing). *)
Definition answers {X : Type} (ask : string -> exn + list X) (names : list string)
  : list X :=
  flat_map (fun user => match ask (Str.strip user) with inr l => l | inl _ => [] end) names.

(** A forge that knows [bob] and [alice], has an organisation [orgx], and
    refuses every other name. *)
Module Sample.

Definition unknown : exn := GithubException "404 Not Found".

Definition forge : env :=
  {| sh := fun _ _ m => (m, Exited 0);
     setup_logging := Fixture.log_file;
     forge_login := fun _ => inr "Alice";
     forge_personal_repos := fun _ => inr [Fixture.alice_r1; Fixture.orgx_r2];
     forge_user_repos := fun _ user =>
       if String.eqb user "bob" then inr [Fixture.bob_repo1]
       else if String.eqb user "alice" then inr [Fixture.alice_r1]
       else inl unknown;
     forge_org_repos := fun _ org =>
       if String.eqb org "orgx" then inr [Fixture.orgx_r2] else inl unknown;
     forge_user_gists := fun _ user =>
       if String.eqb user "bob" then inr [Fixture.gist1] else inl unknown;
     datetime_now := 0;
     str_elapsed := fun _ => "0:00:01" |}.

End Sample.

Definition is_subprocess_event (ev : event) : bool :=
  match ev with EvSubprocess _ _ => true | _ => false end.

(** [observes E p Q]: from every world, the sequential run of [p] leaves the
    filesystem, the working directory, the semaphores and the threads as
    they were, spawns no child process, does not wait, and returns only
    values that satisfy [Q]. *)
Definition observes (E : env) {A : Type} (p : prog A) (Q : A -> Prop) : Prop :=
  forall w done,
    let '(w', done', r) := exec E p w done in
    fs w' = fs w /\ cwd w' = cwd w /\ sems w' = sems w /\ done' = done /\
    (exists evs, trace w' = (trace w ++ evs)%list /\
                 forallb (fun ev => negb (is_subprocess_event ev)) evs = true) /\
    match r with Returned a => Q a | Raised _ => True | Blocked => False end.

(** ** Child processes and permits *)

(** [guarded p held]: started with [held] permits in hand, the program
    spawns a child process or removes a tree only with a permit in hand,
    asks for a permit only with none in hand, makes no directory, does not
    set up the log, and neither starts nor joins a thread. *)
Fixpoint guarded {A : Type} (p : prog A) : nat -> Prop :=
  match p with
  | Ret _ => fun _ => True
  | Raise _ => fun _ => True
  | ThreadStart _ _ => fun _ => False
  | Op o k =>
      match o in op X return (X -> nat -> Prop) -> nat -> Prop with
      | SemAcquire _ => fun K held => held = 0%nat /\ K tt 1%nat
      | SemRelease _ => fun K held => K None (pred held)
      | SubprocessRun _ _ => fun K held => (0 < held)%nat /\ forall x, K x held
      | ShutilRmtree _ => fun K held => (0 < held)%nat /\ forall x, K x held
      | OsMakedirs _ => fun _ _ => False
      | SetupLogging _ => fun _ _ => False
      | ThreadJoin _ => fun _ _ => False
      | _ => fun K held => forall x, K x held
      end (fun x => guarded (k x))
  end.

Definition thread_guarded (s : nat) (t : thread) (held : nat) : Prop :=
  thread_balanced s t held /\
  match t with
  | Running p => guarded p held
  | InSubprocess _ _ k => (0 < held)%nat /\ forall r, guarded (k r) held
  end.

(** [spawns P p]: every thread [p] starts, on every path, runs a program
    that satisfies [P]. *)
Fixpoint spawns (P : prog unit -> Prop) {A : Type} (p : prog A) : Prop :=
  match p with
  | Ret _ => True
  | Raise _ => True
  | Op _ k => forall x, spawns P (k x)
  | ThreadStart body k => P body /\ forall t, spawns P (k t)
  end.

Definition in_subprocess (t : thread) : bool :=
  match t with InSubprocess _ _ _ => true | Running _ => false end.

(** The pool of a batch: a main thread that starts guarded threads only,
    and workers that are guarded with the permits they hold. *)
Definition pool_guarded (s : nat) (pool : list thread) : Prop :=
  exists main workers hs,
    pool = Running main :: workers /\
    spawns (fun body => guarded body 0) main /\
    Forall2 (thread_guarded s) workers hs.

(** The INFO lines of [view_repos] for a list of repos. *)
Definition viewed (repos : list Repository) : list event :=
  map (fun repo => EvLog INFO (login (owner repo) +:+ ("/" +:+ name repo))) repos.

(** The last line [run] logs, with the clock of [E]. *)
Definition finish_line (E : env) : event :=
  EvLog INFO ("GitHub Archive complete! "
              +:+ ("Execution time: " +:+ str_elapsed E (datetime_now E) +:+ ".") +:+ nl).

(** The configuration of the fixtures with another [location]. *)
Definition relocated (self : GithubArchive) (loc : string) : GithubArchive :=
  {| view := view self; clone := clone self; pull := pull self;
     users := users self; orgs := orgs self; gists := gists self;
     timeout := timeout self; threads := threads self; token := token self;
     location := loc;
     authenticated_user := authenticated_user self;
     authenticated_username := authenticated_username self |}.

(** ** Waiting for a permit *)

(** [waits there p]: with [there] telling which paths exist, the program
    asks for a permit before it does anything but look at paths. *)
Fixpoint waits (there : string -> bool) {A : Type} (p : prog A) : Prop :=
  match p with
  | Op o k =>
      match o in op X return (X -> Prop) -> Prop with
      | OsPathExists path => fun K => K (there path)
      | SemAcquire _ => fun _ => True
      | _ => fun _ => False
      end (fun x => waits there (k x))
  | _ => False
  end.

(** [spawns_nth P n p]: the thread [p] starts after [n] others runs a
    program that satisfies [P]. *)
Fixpoint spawns_nth (P : prog unit -> Prop) (n : nat) {A : Type} (p : prog A) : Prop :=
  match p with
  | Ret _ => True
  | Raise _ => True
  | Op _ k => forall x, spawns_nth P n (k x)
  | ThreadStart body k =>
      match n with
      | O => P body
      | S n' => forall t, spawns_nth P n' (k t)
      end
  end.

(** The pool of a batch without permits: nothing written yet, and the
    thread of index [target] among the workers, once started, waits. *)
Definition pool_waits (w0 : world) (target : nat) (st : world * list thread) : Prop :=
  fs st.1 = fs w0 /\ cwd st.1 = cwd w0 /\
  exists main workers,
    st.2 = Running main :: workers /\
    match workers !! target with
    | Some t => exists p, t = Running p /\ waits (Fs.path_exists w0) p
    | None => spawns_nth (waits (Fs.path_exists w0)) (target - length workers) main
    end.

(** A configuration with another number of permits. *)
Definition with_threads (self : GithubArchive) (n : Z) : GithubArchive :=
  {| view := view self; clone := clone self; pull := pull self;
     users := users self; orgs := orgs self; gists := gists self;
     timeout := timeout self; threads := n; token := token self;
     location := location self;
     authenticated_user := authenticated_user self;
     authenticated_username := authenticated_username self |}.

(** ** Which threads a batch starts *)

(** [descends body t]: the thread [t] is somewhere in the program [body]:
    it is what is left of [body] once some of its operations got their
    results. *)
Inductive descends (body : prog unit) : thread -> Prop :=
| descends_refl : descends body (Running body)
| descends_op {X : Type} (o : op X) k x :
    descends body (Running (Op o k)) -> descends body (Running (k x))
| descends_start child k t :
    descends body (Running (ThreadStart child k)) -> descends body (Running (k t))
| descends_begin cmd seconds k :
    descends body (Running (Op (SubprocessRun cmd seconds) k)) ->
    descends body (InSubprocess cmd seconds k)
| descends_end cmd seconds k r :
    descends body (InSubprocess cmd seconds k) -> descends body (Running (k r)).

(** [launches bodies p]: the threads [p] starts are those of [bodies], in
    that order, and [p] performs an operation or returns only once all of
    them are started. *)
Fixpoint launches (bodies : list (prog unit)) (p : prog unit) : Prop :=
  match p with
  | ThreadStart body k =>
      match bodies with
      | b :: rest => body = b /\ forall t, launches rest (k t)
      | [] => False
      end
  | Op o k => bodies = [] /\ forall x, launches [] (k x)
  | Ret _ => bodies = []
  | Raise _ => True
  end.

(** The threads of a batch so far: the workers are, in order, somewhere in
    the first bodies of [bodies], and the main thread has the others still
    to start. *)
Definition launch_inv (bodies : list (prog unit)) (st : world * list thread) : Prop :=
  exists main workers,
    st.2 = Running main :: workers /\
    Forall2 descends (take (length workers) bodies) workers /\
    launches (drop (length workers) bodies) main.

(** The personal pass of the example: the forge answered with a repo of
    [alice] and one of [orgX], and the token is that of [alice].  The run
    goes on until the call has returned. *)
Module Personal.

Definition self : GithubArchive :=
  Fixture.config false true false ["alice"; "bob"] (Some "t").

Definition main : prog unit :=
  iterate_repos_to_archive self [Fixture.alice_r1; Fixture.orgx_r2]
    PERSONAL_CONTEXT CLONE_OPERATION.

Definition init : world * list thread := (Fixture.fresh, [Running main]).

Definition schedule : list choice :=
  let E := Fixture.leaving [] (Exited 0) in
  [DoOp E 0; DoStart 0;
   DoOp E 1; DoOp E 1; DoSubprocessBegin 1;
   DoSubprocessWrite 1 (<[["archive"; "repos"; "alice"; "r1"] := Dir]>
                          (<[["archive"; "repos"; "alice"] := Dir]> (fs Fixture.fresh)));
   DoSubprocessEnd 1 (Exited 0);
   DoOp E 1; DoOp E 1; DoOp E 0].

Definition final : world * list thread := default init (sched_run schedule init).

End Personal.

(** ** The rollback among other threads *)





(** Two threads on one path: [bob] is listed twice, so his repo comes
    twice and both clones go to [/archive/repos/bob/repo1].  The first clone
    has made the directory when the second exits with 128; the second
    thread removes the directory, the first clone goes on writing, and the
    second thread returns. *)
Module Twins.

Definition self : GithubArchive := Fixture.config false true false ["bob"; "bob"] None.

Definition path : string := "/archive/repos/bob/repo1".

Definition main : prog unit :=
  iterate_repos_to_archive self [Fixture.bob_repo1; Fixture.bob_repo1]
    USER_CONTEXT CLONE_OPERATION.

Definition init : world * list thread := (Fixture.fresh, [Running main]).

Definition cloning : fsmap :=
  <[["archive"; "repos"; "bob"; "repo1"] := Dir]>
    (<[["archive"; "repos"; "bob"] := Dir]> (fs Fixture.fresh)).

(** Up to the end of the second clone. *)
Definition before : list choice :=
  let E := Fixture.leaving [] (Exited 0) in
  [DoOp E 0; DoStart 0; DoStart 0;
   DoOp E 1; DoOp E 2; DoOp E 1; DoOp E 2;
   DoSubprocessBegin 1; DoSubprocessBegin 2;
   DoSubprocessWrite 1 cloning;
   DoSubprocessEnd 2 (Exited 128)].

(** From there to the return of the second thread. *)
Definition rest : list choice :=
  let E := Fixture.leaving [] (Exited 0) in
  [DoOp E 2; DoOp E 2; DoOp E 2;
   DoSubprocessWrite 1 cloning;
   DoOp E 2].

Definition failed : world * list thread := default init (sched_run before init).

Definition final : world * list thread := default failed (sched_run rest failed).

End Twins.

(** * Properties *)

Local Open Scope list_scope.

(** ** Sequential execution *)

Lemma exec_bind E {A B} (p : prog A) (f : A -> prog B) w done :
  exec E (p ≫= f) w done =
  match exec E p w done with
  | (w', done', Returned a) => exec E (f a) w' done'
  | (w', done', Raised e) => (w', done', Raised e)
  | (w', done', Blocked) => (w', done', Blocked)
  end.
Proof.
  revert B f w done.
  induction p as [A a|A e|A X o k IH|A body _ k IH]; intros B f w done.
  - reflexivity.
  - reflexivity.
  - unfold mbind, prog_bind in *. simpl.
    destruct (exec_op _ _ o w) as [[w' x]|]; [apply IH|reflexivity].
  - unfold mbind, prog_bind in *. simpl.
    destruct (exec E body w (done ++ [false])) as [[w' done'] r]. apply IH.
Qed.

Lemma archive_present_clone E commands seconds lim path success timed_out failed w done :
  Fs.path_exists w path = true ->
  exec E (archive commands seconds lim path CLONE_OPERATION success timed_out failed) w done
  = (w, done, Returned tt).
Proof.
  intros Hex. unfold archive, os_path_exists, perform. cbn. rewrite Hex. reflexivity.
Qed.

Lemma path_exists_ext w1 w2 p :
  fs w1 = fs w2 -> cwd w1 = cwd w2 -> Fs.path_exists w1 p = Fs.path_exists w2 p.
Proof. unfold Fs.path_exists. intros -> ->. reflexivity. Qed.

Lemma rmtree_gone w p m :
  Fs.rmtree w p = inr m -> Fs.path_exists (set_fs w m) p = false.
Proof.
  unfold Fs.rmtree, Fs.path_exists. destruct (Str.nonempty p); cbn; [|done].
  destruct (fs w !! Fs.resolve (cwd w) p) as [[|]|] eqn:Hl; try done.
  intros [= <-]. apply bool_decide_eq_false. intros [x Hx].
  apply map_lookup_filter_Some in Hx as [_ Hx]. cbn in Hx. by apply Hx.
Qed.

Lemma rmtree_raises w p e :
  Fs.path_exists w p = true -> Fs.rmtree w p = inl e ->
  fs w !! Fs.resolve (cwd w) p = Some File /\ e = NotADirectoryError p.
Proof.
  unfold Fs.rmtree, Fs.path_exists. destruct (Str.nonempty p); cbn; [|done].
  intros Hex%bool_decide_eq_true. destruct Hex as [x Hx]. rewrite Hx.
  destruct x; [|done]. by intros [= <-].
Qed.

(** What the rollback of a failed command leaves, [w] being the world right
    after the log line of the handler. *)
Lemma exec_rollback_release E path lim w done v b :
  sems w !! lim = Some ((v - 1)%Z, b) -> (v <= b)%Z ->
  let '(w', done', r) :=
    exec E (try_finally (when (Fs.path_exists w path) (shutil_rmtree path))
                        (release lim)) w done in
  done' = done /\ r <> Blocked /\
  (r = Returned tt -> Fs.path_exists w' path = false) /\
  (fs w !! Fs.resolve (cwd w) path <> Some File -> r = Returned tt) /\
  sems w' = <[lim := (v, b)]> (sems w) /\ trace w' = trace w.
Proof.
  intros Hsem Hvb. unfold shutil_rmtree, release, perform.
  assert (Hrel : (b <=? v - 1)%Z = false) by (apply Z.leb_gt; lia).
  destruct (Fs.path_exists w path) eqn:Hex; cbn.
  - destruct (Fs.rmtree w path) as [e|m] eqn:Hrm; cbn.
    + rewrite Hsem, Hrel. cbn.
      destruct (rmtree_raises _ _ _ Hex Hrm) as [Hfile ->].
      replace (v - 1 + 1)%Z with v by lia.
      repeat split; try done.
    + rewrite Hsem, Hrel. cbn. replace (v - 1 + 1)%Z with v by lia.
      repeat split; try done.
      intros _. rewrite <- (rmtree_gone _ _ _ Hrm). by apply path_exists_ext.
  - rewrite Hsem, Hrel. cbn. replace (v - 1 + 1)%Z with v by lia.
    repeat split; try done.
Qed.

Lemma archive_rollback E commands seconds lim path operation success timed_out failed
    w done cmd v b m out :
  Fs.path_exists w path && String.eqb operation CLONE_OPERATION = false ->
  commands !! operation = Some cmd ->
  sems w !! lim = Some (v, b) ->
  (0 < v <= b)%Z ->
  sh E cmd seconds (fs w) = (m, out) ->
  out <> Exited 0 ->
  let '(w', done', r) :=
    exec E (archive commands seconds lim path operation success timed_out failed) w done in
  r <> Blocked /\
  (r = Returned tt -> Fs.path_exists w' path = false) /\
  (m !! Fs.resolve (cwd w) path <> Some File -> r = Returned tt) /\
  sems w' = sems w.
Proof.
  intros Hskip Hcmd Hsem [Hv Hvb] Hsh Hout.
  unfold archive, os_path_exists, perform. cbn. rewrite Hskip, Hcmd. cbn.
  rewrite Hsem. destruct (Z.ltb_spec 0 v); [|lia]. cbn. rewrite Hsh. cbn.
  assert (Hlim : lim < length (sems w)) by (eapply lookup_lt_Some; eauto).
  assert (Hfinal : <[lim := (v, b)]> (<[lim := ((v - 1)%Z, b)]> (sems w)) = sems w).
  { rewrite list_insert_insert_eq. by apply list_insert_id. }
  destruct out as [rc|]; cbn.
  - destruct (Z.eqb_spec rc 0); [congruence|]. cbn.
    match goal with |- context [exec E ?p ?w0 done] =>
      pose proof (exec_rollback_release E path lim w0 done v b) as Hr;
      change p with (try_finally (when (Fs.path_exists w0 path) (shutil_rmtree path))
                                 (release lim));
      destruct (exec E (try_finally (when (Fs.path_exists w0 path) (shutil_rmtree path))
                                    (release lim)) w0 done) as [[w' done'] r]
    end.
    cbn in Hr. rewrite list_lookup_insert_eq in Hr by done.
    destruct (Hr eq_refl Hvb) as (_ & Hb & Hgone & Hret & Hs & _).
    rewrite Hfinal in Hs. done.
  - match goal with |- context [exec E ?p ?w0 done] =>
      pose proof (exec_rollback_release E path lim w0 done v b) as Hr;
      change p with (try_finally (when (Fs.path_exists w0 path) (shutil_rmtree path))
                                 (release lim));
      destruct (exec E (try_finally (when (Fs.path_exists w0 path) (shutil_rmtree path))
                                    (release lim)) w0 done) as [[w' done'] r]
    end.
    cbn in Hr. rewrite list_lookup_insert_eq in Hr by done.
    destruct (Hr eq_refl Hvb) as (_ & Hb & Hgone & Hret & Hs & _).
    rewrite Hfinal in Hs. done.
Qed.

Lemma exec_initialize_project E self w done :
  exec E (initialize_project self) w done =
  match bootstrap w (location self) with
  | (w1, Some e) => (w1, done, Raised e)
  | (w1, None) =>
      match validation_error self with
      | Some message => (record w1 (EvLog CRITICAL message), done, Raised (ValueError message))
      | None => (w1, done, Returned tt)
      end
  end.
Proof.
  unfold initialize_project, bootstrap, validation_error, os_path_exists, os_makedirs, perform.
  cbn. destruct (Fs.path_exists w (location self)); cbn.
  - destruct (any_target self && negb (any_operation self)); [reflexivity|].
    destruct (negb (any_target self) && any_operation self); reflexivity.
  - destruct (Fs.makedirs w _) as [e|m1]; cbn; [reflexivity|].
    destruct (Fs.makedirs (set_fs w m1) _) as [e|m2]; cbn; [reflexivity|].
    destruct (any_target self && negb (any_operation self)); [reflexivity|].
    destruct (negb (any_target self) && any_operation self); reflexivity.
Qed.

Lemma makedirs_error w s e :
  Fs.makedirs w s = inl e ->
  e = FileNotFoundError s \/ e = FileExistsError s \/ e = NotADirectoryError s.
Proof.
  unfold Fs.makedirs. destruct (Str.nonempty s); simpl negb; cbv iota; [|inversion 1; auto].
  destruct (fs w !! _); [inversion 1; auto|].
  destruct (existsb _ _); [inversion 1; auto|done].
Qed.

Lemma bootstrap_error w loc w1 e :
  bootstrap w loc = (w1, Some e) -> is_os_error (@Raised unit e) = true.
Proof.
  unfold bootstrap. destruct (Fs.path_exists w loc); [done|].
  destruct (Fs.makedirs w _) as [e1|m1] eqn:H1.
  - intros [= <- <-]. apply makedirs_error in H1 as [->|[->| ->]]; done.
  - destruct (Fs.makedirs (set_fs w m1) _) as [e2|m2] eqn:H2; [|done].
    intros [= <- <-]. apply makedirs_error in H2 as [->|[->| ->]]; done.
Qed.

(** C5. [initialize_project] raises the configuration error ([ValueError])
    exactly when the target lists and the operation flags disagree, unless
    [os.makedirs] failed before the checks were reached: with a list and no
    flag it is the first message, with a flag and no list the second, and
    with both (or neither) it is never raised.  [os.makedirs] is not called,
    and so cannot fail, when the root directory exists. *)
Theorem initialize_project_validation E self w done :
  let r := (exec E (initialize_project self) w done).2 in
  (is_value_error r = true <->
     any_target self <> any_operation self /\ is_os_error r = false) /\
  (any_target self = true -> any_operation self = false -> is_os_error r = false ->
     r = Raised (ValueError
           "A git operation must be specified when a list of users or orgs is provided.")) /\
  (any_target self = false -> any_operation self = true -> is_os_error r = false ->
     r = Raised (ValueError "A list must be provided when a git operation is specified.")) /\
  (any_target self = true -> any_operation self = true -> is_value_error r = false) /\
  (any_target self = any_operation self -> is_os_error r = false -> r = Returned tt) /\
  (Fs.path_exists w (location self) = true -> is_os_error r = false).
Proof.
  cbn zeta. rewrite exec_initialize_project.
  destruct (bootstrap w (location self)) as [w1 [e|]] eqn:Hb; cbn.
  - assert (Hex : Fs.path_exists w (location self) <> true).
    { intros Hex. unfold bootstrap in Hb. by rewrite Hex in Hb. }
    pose proof (bootstrap_error _ _ _ _ Hb) as He. cbn in He.
    destruct e; try discriminate He; cbn;
      (repeat split; try congruence; try tauto; intros; destruct_and?; congruence).
  - unfold validation_error.
    destruct (any_target self), (any_operation self); cbn;
      (repeat split; try congruence; try tauto; intros; destruct_and?; congruence).
Qed.

Lemma lookup_mkdirs (m : fsmap) (ps : list (list string)) q :
  foldr (fun q m => <[q := Dir]> m) m ps !! q =
  if bool_decide (q ∈ ps) then Some Dir else m !! q.
Proof.
  induction ps as [|p ps IH]; cbn.
  - reflexivity.
  - rewrite lookup_insert. destruct (decide (p = q)) as [->|Hne].
    + rewrite bool_decide_eq_true_2 by apply list_elem_of_here. reflexivity.
    + rewrite IH. destruct (bool_decide (q ∈ ps)) eqn:Hq.
      * apply bool_decide_eq_true in Hq. rewrite bool_decide_eq_true_2; [done|].
        by apply list_elem_of_further.
      * apply bool_decide_eq_false in Hq. rewrite bool_decide_eq_false_2; [done|].
        intros [?|?]%elem_of_cons; congruence.
Qed.

Lemma elem_of_prefixes p q : q ∈ Fs.prefixes p <-> q `prefix_of` p.
Proof.
  unfold Fs.prefixes. rewrite list_elem_of_fmap. split.
  - intros (n & -> & _). apply prefix_take.
  - intros [k ->]. exists (length q). split.
    + by rewrite take_app_length.
    + apply elem_of_seq. rewrite length_app. lia.
Qed.

Lemma makedirs_lookup w s m q :
  Fs.makedirs w s = inr m ->
  m !! q = if bool_decide (q `prefix_of` Fs.resolve (cwd w) s) then Some Dir else fs w !! q.
Proof.
  unfold Fs.makedirs. destruct (Str.nonempty s); simpl negb; cbv iota; [|done].
  destruct (fs w !! _); [done|]. destruct (existsb _ _); [done|].
  intros H%(inj inr). rewrite <- H, lookup_mkdirs.
  by rewrite (bool_decide_ext _ _ (elem_of_prefixes _ q)).
Qed.

Lemma makedirs_leaf w s m :
  Fs.makedirs w s = inr m -> m !! Fs.resolve (cwd w) s = Some Dir /\ Str.nonempty s = true.
Proof.
  intros H. rewrite (makedirs_lookup _ _ _ _ H). rewrite bool_decide_eq_true_2 by done.
  split; [done|]. unfold Fs.makedirs in H. by destruct (Str.nonempty s).
Qed.

Lemma makedirs_keeps_dir w s m q :
  Fs.makedirs w s = inr m -> fs w !! q = Some Dir -> m !! q = Some Dir.
Proof.
  intros H Hq. rewrite (makedirs_lookup _ _ _ _ H). by destruct (bool_decide _).
Qed.

Lemma bootstrap_creates w loc w1 :
  Fs.path_exists w loc = false ->
  bootstrap w loc = (w1, None) ->
  fs w1 !! Fs.resolve (cwd w) (OsPath.join loc ["repos"]) = Some Dir /\
  fs w1 !! Fs.resolve (cwd w) (OsPath.join loc ["gists"]) = Some Dir /\
  cwd w1 = cwd w /\ sems w1 = sems w /\ trace w1 = trace w.
Proof.
  unfold bootstrap. intros ->.
  destruct (Fs.makedirs w _) as [e1|m1] eqn:H1; [done|].
  destruct (Fs.makedirs (set_fs w m1) _) as [e2|m2] eqn:H2; [done|].
  intros [= <-]. cbn. repeat split.
  - apply (makedirs_keeps_dir _ _ _ _ H2). cbn. by apply makedirs_leaf in H1 as [H1 _].
  - by apply makedirs_leaf in H2 as [H2 _].
Qed.

Lemma bootstrap_present w loc :
  Fs.path_exists w loc = true -> bootstrap w loc = (w, None).
Proof. unfold bootstrap. by intros ->. Qed.

Lemma bootstrap_frame w loc w1 err :
  bootstrap w loc = (w1, err) ->
  cwd w1 = cwd w /\ sems w1 = sems w /\ trace w1 = trace w.
Proof.
  unfold bootstrap. destruct (Fs.path_exists w loc); [by intros [= <- <-]|].
  destruct (Fs.makedirs w _) as [e1|m1]; [by intros [= <- <-]|].
  destruct (Fs.makedirs (set_fs w m1) _) as [e2|m2]; by intros [= <- <-].
Qed.

(** *** Strings *)

Lemma lower_ascii_idem c : Str.lower_ascii (Str.lower_ascii c) = Str.lower_ascii c.
Proof. destruct c as [[] [] [] [] [] [] [] []]; reflexivity. Qed.

Lemma lower_idem s : Str.lower (Str.lower s) = Str.lower s.
Proof. induction s as [|c s IH]; cbn; [done|]. by rewrite lower_ascii_idem, IH. Qed.

Lemma lower_ascii_comma c :
  Ascii.eqb (Str.lower_ascii c) ","%char = Ascii.eqb c ","%char.
Proof. destruct c as [[] [] [] [] [] [] [] []]; reflexivity. Qed.

Lemma split_nonempty sep s : Str.split sep s <> [].
Proof.
  destruct s as [|c s]; cbn; [done|].
  destruct (Ascii.eqb c sep); [done|]. by destruct (Str.split sep s).
Qed.

Lemma split_lower s :
  Str.split ","%char (Str.lower s) = map Str.lower (Str.split ","%char s).
Proof.
  induction s as [|c s IH]; cbn; [done|].
  rewrite lower_ascii_comma. destruct (Ascii.eqb c ","%char); cbn.
  - by rewrite IH.
  - rewrite IH. by destruct (Str.split ","%char s).
Qed.

Lemma append_nil_l s : "" +:+ s = s.
Proof. reflexivity. Qed.

Lemma append_cons c a b : String c a +:+ b = String c (a +:+ b).
Proof. reflexivity. Qed.

Lemma split_app_sep sep a b :
  Str.split sep (a +:+ String sep b) = (Str.split sep a ++ Str.split sep b)%list.
Proof.
  induction a as [|c a IH]; rewrite ?append_nil_l, ?append_cons; cbn [Str.split].
  - by rewrite Ascii.eqb_refl.
  - destruct (Ascii.eqb c sep); cbn [app]; [by rewrite IH|].
    rewrite IH. pose proof (split_nonempty sep a). by destruct (Str.split sep a).
Qed.

Lemma split_app_last sep a b :
  Str.split sep b = [b] ->
  Str.split sep (a +:+ b) =
  (removelast (Str.split sep a) ++ [String.append (List.last (Str.split sep a) "") b])%list.
Proof.
  intros Hb. induction a as [|c a IH]; rewrite ?append_nil_l, ?append_cons; cbn [Str.split].
  - by rewrite Hb.
  - pose proof (split_nonempty sep a) as Hne.
    destruct (Ascii.eqb c sep).
    + rewrite IH. destruct (Str.split sep a) as [|x l]; [done|]. reflexivity.
    + rewrite IH. destruct (Str.split sep a) as [|x [|y l]]; [done|reflexivity|reflexivity].
Qed.

Lemma split_cons sep c s :
  Str.split sep (String c s) =
  if Ascii.eqb c sep then "" :: Str.split sep s
  else match Str.split sep s with
       | [] => [String c ""]
       | w :: ws => String c w :: ws
       end.
Proof. reflexivity. Qed.

Lemma split_head_nonempty sep d s x :
  Str.split sep (String d s) = [x] -> x <> "".
Proof.
  rewrite split_cons. destruct (Ascii.eqb d sep).
  - intros [= <- H]. by apply split_nonempty in H.
  - destruct (Str.split sep s); by intros [= <-].
Qed.

Lemma split_last_endswith sep s :
  (negb (Str.nonempty s) || Str.endswith sep s)%bool = true ->
  List.last (Str.split sep s) "" = "".
Proof.
  induction s as [|c s IH]; [done|].
  cbn [Str.nonempty negb orb]. intros Hend.
  pose proof (split_nonempty sep s) as Hne.
  destruct s as [|d s].
  - cbn in Hend. cbn. by rewrite Hend.
  - assert (Hs : Str.endswith sep (String d s) = true) by exact Hend.
    specialize (IH Hs). rewrite split_cons.
    destruct (Str.split sep (String d s)) as [|x [|y l]] eqn:Hx; [done| |].
    + apply split_head_nonempty in Hx. cbn in IH. congruence.
    + destruct (Ascii.eqb c sep); exact IH.
Qed.

(** *** Paths *)

Lemma plain_name_spec b :
  plain_name b = true ->
  Str.split OsPath.sep b = [b] /\ Str.startswith OsPath.sep b = false /\
  (String.eqb b "" || String.eqb b ".")%bool = false /\ String.eqb b ".." = false.
Proof.
  unfold plain_name. intros H.
  apply andb_prop in H as [H Hdd]. apply andb_prop in H as [H Hd].
  apply andb_prop in H as [Hne Hs]. apply bool_decide_eq_true in Hs.
  apply negb_true_iff in Hd, Hdd.
  destruct b as [|c b]; [done|]. split; [done|]. split.
  - cbn. destruct (Ascii.eqb c OsPath.sep) eqn:Hc; [|done].
    rewrite split_cons, Hc in Hs. done.
  - split; [|done]. rewrite Hd. done.
Qed.

Lemma normalize_snoc_name st cs b :
  plain_name b = true -> Fs.normalize st (cs ++ [b]) = (Fs.normalize st cs ++ [b])%list.
Proof.
  intros (_ & _ & H1 & H2)%plain_name_spec. revert st.
  induction cs as [|c cs IH]; intros st; cbn [Fs.normalize app].
  - by rewrite H1, H2.
  - destruct (String.eqb c "" || String.eqb c ".")%bool; [apply IH|].
    destruct (String.eqb c ".."); apply IH.
Qed.

Lemma normalize_snoc_empty st cs : Fs.normalize st (cs ++ [""]) = Fs.normalize st cs.
Proof.
  revert st. induction cs as [|c cs IH]; intros st; cbn [Fs.normalize app].
  - reflexivity.
  - destruct (String.eqb c "" || String.eqb c ".")%bool; [apply IH|].
    destruct (String.eqb c ".."); apply IH.
Qed.

Lemma startswith_app c a b :
  Str.nonempty a = true -> Str.startswith c (a +:+ b) = Str.startswith c a.
Proof. by destruct a. Qed.

Lemma resolve_join2 cwd loc b :
  plain_name b = true ->
  Fs.resolve cwd (OsPath.join2 loc b) = (Fs.resolve cwd loc ++ [b])%list.
Proof.
  intros Hb. pose proof (plain_name_spec _ Hb) as (Hsplit & Hstart & _).
  unfold OsPath.join2, Fs.resolve, Fs.components. rewrite Hstart.
  destruct (negb (Str.nonempty loc) || Str.endswith OsPath.sep loc)%bool eqn:Hend.
  - rewrite (split_app_last _ _ _ Hsplit), (split_last_endswith _ _ Hend), append_nil_l.
    rewrite normalize_snoc_name by done.
    pose proof (app_removelast_last "" (split_nonempty OsPath.sep loc)) as Hloc.
    rewrite (split_last_endswith _ _ Hend) in Hloc.
    remember (removelast (Str.split OsPath.sep loc)) as init eqn:Hinit.
    rewrite Hloc, normalize_snoc_empty.
    destruct loc as [|c loc]; [by rewrite append_nil_l, Hstart|].
    by rewrite startswith_app.
  - apply orb_false_iff in Hend as [Hne%negb_false_iff _].
    change ("/" +:+ b) with (String OsPath.sep b).
    rewrite split_app_sep, Hsplit, normalize_snoc_name by done.
    by rewrite startswith_app.
Qed.

Lemma resolve_join1 cwd loc b :
  plain_name b = true ->
  Fs.resolve cwd (OsPath.join loc [b]) = (Fs.resolve cwd loc ++ [b])%list.
Proof. apply resolve_join2. Qed.

Lemma prefix_snoc_cases {X} (q l : list X) x :
  q `prefix_of` l ++ [x] -> q `prefix_of` l \/ q = l ++ [x].
Proof.
  intros [k Hk]. destruct (decide (k = [])) as [->|Hne].
  - right. by rewrite app_nil_r in Hk.
  - left. destruct (exists_last Hne) as (k' & y & ->).
    rewrite app_assoc in Hk. apply app_inj_tail in Hk as [-> _]. by exists k'.
Qed.

Lemma makedirs_succeeds w s :
  Str.nonempty s = true ->
  fs w !! Fs.resolve (cwd w) s = None ->
  (forall q, q `prefix_of` Fs.resolve (cwd w) s -> fs w !! q <> Some File) ->
  exists m, Fs.makedirs w s = inr m.
Proof.
  intros Hs Hleaf Hfiles. unfold Fs.makedirs. rewrite Hs, Hleaf. simpl negb. cbv iota.
  destruct (existsb _ _) eqn:Hex; [|eauto].
  apply existsb_exists in Hex as (q & Hq%list_elem_of_In%elem_of_prefixes & Hf).
  apply bool_decide_eq_true in Hf. by apply Hfiles in Hq.
Qed.

Lemma join2_nonempty loc b : Str.nonempty b = true -> Str.nonempty (OsPath.join2 loc b) = true.
Proof.
  intros Hb. unfold OsPath.join2. destruct (Str.startswith _ b); [done|].
  destruct (negb _ || _)%bool; destruct loc; try done.
Qed.

Lemma bootstrap_root w loc w1 :
  Fs.path_exists w loc = false ->
  bootstrap w loc = (w1, None) ->
  let root := Fs.resolve (cwd w) loc in
  fs w1 !! root = Some Dir /\
  fs w1 !! (root ++ ["repos"])%list = Some Dir /\
  fs w1 !! (root ++ ["gists"])%list = Some Dir.
Proof.
  intros Hex Hb. destruct (bootstrap_creates _ _ _ Hex Hb) as (Hr & Hg & _).
  rewrite resolve_join1 in Hr, Hg by done. cbn zeta. split; [|done].
  unfold bootstrap in Hb. rewrite Hex in Hb.
  destruct (Fs.makedirs w _) as [e1|m1] eqn:H1; [done|].
  destruct (Fs.makedirs (set_fs w m1) _) as [e2|m2] eqn:H2; [done|].
  injection Hb as <-. cbn.
  apply (makedirs_keeps_dir _ _ _ _ H2). cbn.
  rewrite (makedirs_lookup _ _ _ _ H1), resolve_join1 by done.
  rewrite bool_decide_eq_true_2; [done|]. by apply prefix_app_r.
Qed.

Lemma bootstrap_succeeds w loc :
  let root := Fs.resolve (cwd w) loc in
  fs w !! (root ++ ["repos"])%list = None ->
  fs w !! (root ++ ["gists"])%list = None ->
  (forall q, q `prefix_of` root -> fs w !! q <> Some File) ->
  exists w1, bootstrap w loc = (w1, None).
Proof.
  cbn zeta. intros Hr Hg Hfiles. unfold bootstrap.
  destruct (Fs.path_exists w loc); [eauto|].
  destruct (makedirs_succeeds w (OsPath.join loc ["repos"])) as [m1 H1].
  { by apply join2_nonempty. }
  { by rewrite resolve_join1. }
  { rewrite resolve_join1 by done. intros q [Hq| ->]%prefix_snoc_cases; [auto|congruence]. }
  rewrite H1.
  destruct (makedirs_succeeds (set_fs w m1) (OsPath.join loc ["gists"])) as [m2 H2].
  { by apply join2_nonempty. }
  { cbn [fs cwd set_fs]. rewrite resolve_join1 by done.
    rewrite (makedirs_lookup _ _ _ _ H1), resolve_join1 by done.
    rewrite bool_decide_eq_false_2; [done|].
    intros [Hq|Hq]%prefix_snoc_cases.
    - by apply prefix_snoc_not in Hq.
    - by apply app_inj_tail in Hq as [_ [=]]. }
  { cbn [fs cwd set_fs]. rewrite resolve_join1 by done. intros q Hq.
    rewrite (makedirs_lookup _ _ _ _ H1), resolve_join1 by done.
    destruct (bool_decide _) eqn:Hd; [done|].
    apply bool_decide_eq_false in Hd.
    apply prefix_snoc_cases in Hq as [Hq| ->]; [|congruence].
    exfalso. apply Hd. by apply prefix_app_r. }
  rewrite H2. eauto.
Qed.

(** ** [archive_repo] and [archive_gist] *)

Example split_users : Str.split ","%char (Str.lower "Alice,BOB") = ["alice"; "bob"].
Proof. reflexivity. Qed.

Example split_empty_fields : Str.split ","%char "a,,b," = ["a"; ""; "b"; ""].
Proof. reflexivity. Qed.

Example strip_blank : Str.strip "  bob " = "bob".
Proof. reflexivity. Qed.

Example join_layout :
  OsPath.join "/archive" ["repos"; "bob"; "repo1"] = "/archive/repos/bob/repo1".
Proof. reflexivity. Qed.

Example join_absolute_component :
  OsPath.join "/archive" ["repos"; "/etc"] = "/etc".
Proof. reflexivity. Qed.

(** C3. A clone of a target whose local path is already there is a no-op:
    [archive_repo] and [archive_gist] return at once, leaving the whole
    world (filesystem, semaphores, trace: no child process, no log line) as
    it was; as a thread, the call is over after its one look at the path. *)
Theorem archive_existing_clone_noop E self thread_limiter path w done :
  Fs.path_exists w path = true ->
  (forall repo,
     exec E (archive_repo self thread_limiter repo path CLONE_OPERATION) w done
       = (w, done, Returned tt) /\
     (forall pool,
        next_op E pool w (archive_repo self thread_limiter repo path CLONE_OPERATION)
          = Some (w, Ret tt)) /\
     next_subprocess (archive_repo self thread_limiter repo path CLONE_OPERATION) = None) /\
  (forall gist,
     exec E (archive_gist self thread_limiter gist path CLONE_OPERATION) w done
       = (w, done, Returned tt) /\
     (forall pool,
        next_op E pool w (archive_gist self thread_limiter gist path CLONE_OPERATION)
          = Some (w, Ret tt)) /\
     next_subprocess (archive_gist self thread_limiter gist path CLONE_OPERATION) = None).
Proof.
  intros Hex. split; intros target; (split; [by apply archive_present_clone|]);
    (split; [|reflexivity]); intros pool;
    unfold archive_repo, archive_gist, archive, os_path_exists, perform; cbn;
    by rewrite Hex.
Qed.

Lemma archive_existing_clone_noop_witness :
  exec (Fixture.leaving ["tmp"] (Exited 0))
       (archive_repo (Fixture.config false true false ["bob"] None) 0 Fixture.bob_repo1
          "/archive/repos/bob/repo1" CLONE_OPERATION)
       Fixture.archived_once []
  = (Fixture.archived_once, [], Returned tt).
Proof.
  exact (proj1 (proj1 (archive_existing_clone_noop
    (Fixture.leaving ["tmp"] (Exited 0)) (Fixture.config false true false ["bob"] None)
    0 "/archive/repos/bob/repo1" Fixture.archived_once [] eq_refl) Fixture.bob_repo1)).
Defined.

(** The call on its own, with no other thread and a permit to take: when
    the git command of a clone or pull times out or exits non-zero, the call
    does not hang; whenever it returns, the local path does not exist; and
    it does return unless the path is a regular file after the command,
    which [shutil.rmtree] refuses.  The permit taken is given back in every
    case. *)
Lemma archive_rolls_back_alone E self thread_limiter path operation w done v b :
  sems w !! thread_limiter = Some (v, b) ->
  (0 < v <= b)%Z ->
  Fs.path_exists w path && String.eqb operation CLONE_OPERATION = false ->
  (forall repo cmd,
     repo_commands repo path !! operation = Some cmd ->
     (sh E cmd (timeout self) (fs w)).2 <> Exited 0 ->
     let '(w', _, r) := exec E (archive_repo self thread_limiter repo path operation) w done in
     r <> Blocked /\
     (r = Returned tt -> Fs.path_exists w' path = false) /\
     ((sh E cmd (timeout self) (fs w)).1 !! Fs.resolve (cwd w) path <> Some File ->
      r = Returned tt) /\
     sems w' = sems w) /\
  (forall gist cmd,
     gist_commands gist path !! operation = Some cmd ->
     (sh E cmd (timeout self) (fs w)).2 <> Exited 0 ->
     let '(w', _, r) := exec E (archive_gist self thread_limiter gist path operation) w done in
     r <> Blocked /\
     (r = Returned tt -> Fs.path_exists w' path = false) /\
     ((sh E cmd (timeout self) (fs w)).1 !! Fs.resolve (cwd w) path <> Some File ->
      r = Returned tt) /\
     sems w' = sems w).
Proof.
  intros Hsem Hv Hskip. split; intros target cmd Hcmd Hout;
    destruct (sh E cmd (timeout self) (fs w)) as [m out] eqn:Hsh;
    unfold archive_repo, archive_gist;
    match goal with |- context [archive ?c ?s ?l ?p ?o ?a1 ?a2 ?a3] =>
      pose proof (archive_rollback E c s l p o a1 a2 a3 w done cmd v b m out
                    Hskip Hcmd Hsem Hv Hsh Hout) as H;
      destruct (exec E (archive c s l p o a1 a2 a3) w done) as [[w' done'] r]
    end; exact H.
Qed.

Example archive_rolls_back_alone_bob :
  let E := Fixture.leaving ["archive"; "repos"; "bob"; "repo1"] (Exited 128) in
  let self := Fixture.config false true false ["bob"] None in
  let path := "/archive/repos/bob/repo1" in
  let '(w', _, r) :=
    exec E (archive_repo self 0 Fixture.bob_repo1 path CLONE_OPERATION) Fixture.fresh [] in
  r <> Blocked /\
  (r = Returned tt -> Fs.path_exists w' path = false) /\
  ((<[["archive"; "repos"; "bob"; "repo1"] := Dir]> (fs Fixture.fresh))
     !! Fs.resolve [] path <> Some File -> r = Returned tt) /\
  sems w' = sems Fixture.fresh.
Proof.
  exact (proj1 (archive_rolls_back_alone
    (Fixture.leaving ["archive"; "repos"; "bob"; "repo1"] (Exited 128))
    (Fixture.config false true false ["bob"] None) 0 "/archive/repos/bob/repo1"
    CLONE_OPERATION Fixture.fresh [] 2 2 eq_refl
    (conj eq_refl (Z.le_refl 2)) ltac:(vm_compute; reflexivity))
    Fixture.bob_repo1 "git clone git@host:bob/repo1.git /archive/repos/bob/repo1"
    ltac:(vm_compute; reflexivity) ltac:(discriminate)).
Defined.

Lemma operation_of_commands repo gist path operation :
  (is_Some (repo_commands repo path !! operation) <->
   operation = CLONE_OPERATION \/ operation = PULL_OPERATION) /\
  (is_Some (gist_commands gist path !! operation) <->
   operation = CLONE_OPERATION \/ operation = PULL_OPERATION).
Proof.
  unfold repo_commands, gist_commands.
  rewrite !lookup_insert_is_Some, !lookup_singleton_is_Some.
  split; (split; [intros [?|[_ ?]]; auto|]);
    (intros [->| ->]; [by left|by right]).
Qed.

(** ** [initialize_project]: examples *)

Lemma makedirs_new w s m : Fs.makedirs w s = inr m -> fs w !! Fs.resolve (cwd w) s = None.
Proof.
  unfold Fs.makedirs. destruct (Str.nonempty s); simpl negb; cbv iota; [|done].
  by destruct (fs w !! _).
Qed.

Lemma bootstrap_new w loc w1 :
  Fs.path_exists w loc = false ->
  bootstrap w loc = (w1, None) ->
  let root := Fs.resolve (cwd w) loc in
  fs w !! (root ++ ["repos"]) = None /\ fs w !! (root ++ ["gists"]) = None.
Proof.
  intros Hex Hb. cbn zeta. unfold bootstrap in Hb. rewrite Hex in Hb.
  destruct (Fs.makedirs w _) as [e1|m1] eqn:H1; [done|].
  destruct (Fs.makedirs (set_fs w m1) _) as [e2|m2] eqn:H2; [done|].
  pose proof (makedirs_new _ _ _ H1) as Hr. pose proof (makedirs_new _ _ _ H2) as Hg.
  cbn [fs cwd set_fs] in Hg. rewrite (makedirs_lookup _ _ _ _ H1) in Hg.
  rewrite resolve_join1 in Hr, Hg by done. split; [done|].
  by destruct (bool_decide _).
Qed.

(** C6, amended.  With an inconsistent configuration (a list without an
    operation, or an operation without a list) [initialize_project] raises,
    and [run] ends there with the same exception and the same world.  When
    the root directory exists, the exception is the configuration error and
    no directory was created: the filesystem is as it was.  When the root
    directory is absent, [os.makedirs] comes first: the configuration error
    is raised only after the root, [repos] and [gists], which were not
    there, have been created.  [initialize_project] itself logs nothing but
    the CRITICAL line and leaves the semaphores alone. *)
Theorem initialize_project_inconsistent E self w done :
  any_target self <> any_operation self ->
  let '(w', done', r) := exec E (initialize_project self) w done in
  (exists e, r = Raised e) /\
  exec E (run self) w done = (w', done', r) /\
  (Fs.path_exists w (location self) = true ->
     is_value_error r = true /\ fs w' = fs w) /\
  (Fs.path_exists w (location self) = false -> is_value_error r = true ->
     let root := Fs.resolve (cwd w) (location self) in
     (Str.nonempty (location self) = true -> fs w !! root = None) /\
     fs w !! (root ++ ["repos"]) = None /\
     fs w !! (root ++ ["gists"]) = None /\
     fs w' !! root = Some Dir /\
     fs w' !! (root ++ ["repos"]) = Some Dir /\
     fs w' !! (root ++ ["gists"]) = Some Dir) /\
  (forall ev, ev ∈ trace w' -> ev ∈ trace w \/ exists msg, ev = EvLog CRITICAL msg) /\
  sems w' = sems w.
Proof.
  intros Hne. rewrite exec_initialize_project.
  destruct (bootstrap w (location self)) as [w1 [e|]] eqn:Hb.
  - destruct (bootstrap_frame _ _ _ _ Hb) as (Hc & Hs & Ht).
    split; [eauto|]. split.
    { unfold run. by rewrite exec_bind, exec_initialize_project, Hb. }
    split.
    { intros Hex. rewrite (bootstrap_present _ _ Hex) in Hb. congruence. }
    split.
    { intros _ Hv. apply bootstrap_error in Hb. by destruct e. }
    split; [rewrite Ht; auto|done].
  - assert (exists message, validation_error self = Some message) as [message Hval].
    { unfold validation_error. destruct (any_target self), (any_operation self); cbn; eauto; done. }
    rewrite Hval.
    destruct (bootstrap_frame _ _ _ _ Hb) as (Hc & Hs & Ht).
    split; [eauto|]. split.
    { unfold run. by rewrite exec_bind, exec_initialize_project, Hb, Hval. }
    split.
    { intros Hex. rewrite (bootstrap_present _ _ Hex) in Hb. by injection Hb as <-. }
    split.
    { intros Hex _. cbn zeta. cbn [fs record].
      destruct (bootstrap_root _ _ _ Hex Hb) as (H0 & H1 & H2).
      destruct (bootstrap_new _ _ _ Hex Hb) as (H3 & H4).
      repeat split; try done.
      intros Hne'. unfold Fs.path_exists in Hex. rewrite Hne' in Hex. cbn in Hex.
      apply bool_decide_eq_false in Hex.
      destruct (fs w !! _) eqn:Hl; [|done]. exfalso. apply Hex. eauto. }
    split; [|done].
    cbn. rewrite Ht. intros ev [?|Hev]%elem_of_app; [auto|].
    apply list_elem_of_singleton in Hev. eauto.
Qed.

Lemma initialize_project_inconsistent_witness :
  let self := Fixture.config false false false ["bob"] None in
  let '(w', done', r) :=
    exec (Fixture.leaving [] (Exited 0)) (initialize_project self) Fixture.bare [] in
  (exists e, r = Raised e) /\
  exec (Fixture.leaving [] (Exited 0)) (run self) Fixture.bare [] = (w', done', r) /\
  (Fs.path_exists Fixture.bare (location self) = true ->
     is_value_error r = true /\ fs w' = fs Fixture.bare) /\
  (Fs.path_exists Fixture.bare (location self) = false -> is_value_error r = true ->
     let root := Fs.resolve (cwd Fixture.bare) (location self) in
     (Str.nonempty (location self) = true -> fs Fixture.bare !! root = None) /\
     fs Fixture.bare !! (root ++ ["repos"]) = None /\
     fs Fixture.bare !! (root ++ ["gists"]) = None /\
     fs w' !! root = Some Dir /\
     fs w' !! (root ++ ["repos"]) = Some Dir /\
     fs w' !! (root ++ ["gists"]) = Some Dir) /\
  (forall ev, ev ∈ trace w' ->
     ev ∈ trace Fixture.bare \/ exists msg, ev = EvLog CRITICAL msg) /\
  sems w' = sems Fixture.bare.
Proof.
  exact (initialize_project_inconsistent (Fixture.leaving [] (Exited 0))
           (Fixture.config false false false ["bob"] None) Fixture.bare []
           ltac:(discriminate)).
Defined.

(** C6, as stated, fails: with a list of users, no operation and no root
    directory yet, [initialize_project] raises the configuration error
    after it has created [/archive/repos] and [/archive/gists]. *)
Lemma initialize_project_creates_before_raising :
  let self := Fixture.config false false false ["bob"] None in
  let '(w', _, r) :=
    exec (Fixture.leaving [] (Exited 0)) (initialize_project self) Fixture.bare [] in
  any_target self <> any_operation self /\
  r = Raised (ValueError
        "A git operation must be specified when a list of users or orgs is provided.") /\
  fs Fixture.bare !! ["archive"; "repos"] = None /\
  fs w' !! ["archive"; "repos"] = Some Dir /\
  fs w' !! ["archive"; "gists"] = Some Dir.
Proof. vm_compute. repeat split; discriminate. Qed.

(** ** The owner check and the local paths *)

Lemma start_repo_threads_archived self thread_limiter context operation repos thread_list :
  starts
    (map (fun repo => archive_repo self thread_limiter repo (repo_path self repo) operation)
         (List.filter (archived self context) repos))
    (start_repo_threads self thread_limiter context operation repos thread_list)
    thread_list.
Proof.
  revert thread_list. induction repos as [|repo rest IH]; intros thread_list.
  - reflexivity.
  - cbn [start_repo_threads List.filter]. unfold archived at 1.
    destruct (token_truthy (token self)
              && negb (bool_decide (Some (Str.lower (login (owner repo)))
                                    = authenticated_username self))
              && String.eqb context PERSONAL_CONTEXT); cbn [negb map starts].
    + apply IH.
    + split; [reflexivity|]. intros t. apply IH.
Qed.

Lemma start_gist_threads_all self thread_limiter operation gists thread_list :
  starts
    (map (fun gist => archive_gist self thread_limiter gist (gist_path self gist) operation)
         gists)
    (start_gist_threads self thread_limiter operation gists thread_list)
    thread_list.
Proof.
  revert thread_list. induction gists as [|gist rest IH]; intros thread_list.
  - reflexivity.
  - cbn [start_gist_threads map starts]. split; [reflexivity|]. intros t. apply IH.
Qed.

Lemma filter_all {X} (f : X -> bool) l : (forall x, f x = true) -> List.filter f l = l.
Proof.
  intros Hf. induction l as [|x l IH]; cbn; [done|]. by rewrite Hf, IH.
Qed.

(** Run on its own, the personal pass of the example spawns one child
    process, the clone of [alice/r1]. *)
Example personal_pass_clones_alice_only :
  let self := Fixture.config false true false ["alice"; "bob"] (Some "t") in
  trace (exec (Fixture.leaving ["tmp"] (Exited 0))
           (iterate_repos_to_archive self [Fixture.alice_r1; Fixture.orgx_r2]
              PERSONAL_CONTEXT CLONE_OPERATION)
           Fixture.fresh []).1.1
  = [EvSubprocess "git clone git@host:alice/r1.git /archive/repos/alice/r1" 30;
     EvLog INFO "Repo: r1 clone success!"].
Proof. vm_compute. reflexivity. Qed.

(** ** Lower case at the boundary *)

Lemma split_argument_lower arg x : x ∈ split_argument arg -> Str.lower x = x.
Proof.
  destruct arg as [s|]; cbn; [|by intros ?%elem_of_nil].
  destruct (Str.nonempty s); [|by intros ?%elem_of_nil].
  rewrite split_lower. intros (y & -> & _)%list_elem_of_fmap. apply lower_idem.
Qed.

Lemma exec_init E view clone pull names orgs gists timeout threads tok location w done l :
  Str.nonempty tok = true ->
  forge_login E tok = inr l ->
  exec E (__init__ view clone pull names orgs gists timeout threads (Some tok) location)
       w done
  = (record w (EvForgeLogin tok), done,
     Returned {| view := view; clone := clone; pull := pull;
                 users := split_argument names;
                 orgs := split_argument orgs;
                 gists := split_argument gists;
                 timeout := timeout; threads := threads; token := Some tok;
                 location := location;
                 authenticated_user := Some {| login := l |};
                 authenticated_username := Some (Str.lower l) |}).
Proof.
  intros Htok Hl. unfold __init__, perform. rewrite Htok. cbn. rewrite Hl. cbn.
  by rewrite Htok.
Qed.

(** C10. Names are compared in lower case: the three configured lists hold
    the lowercased fields of their argument, [__init__] stores the
    lowercased login, the owner check of the personal context compares the
    lowercased owner login with it, and the local path of a repo is built
    from the lowercased owner login.  So a configured name and a login that
    differ in case only are the same user. *)
Theorem names_compared_in_lower_case :
  (forall arg x, x ∈ split_argument arg -> Str.lower x = x) /\
  (forall s, Str.nonempty s = true ->
     split_argument (Some s) = map Str.lower (Str.split ","%char s)) /\
  (forall E view clone pull names orgs gists timeout threads tok location w done l,
     Str.nonempty tok = true ->
     Str.nonempty names = true ->
     forge_login E tok = inr l ->
     exists w' self,
       exec E (__init__ view clone pull (Some names) orgs gists timeout threads (Some tok)
                 location) w done = (w', done, Returned self) /\
       authenticated_username self = Some (Str.lower l) /\
       users self = map Str.lower (Str.split ","%char names) /\
       (forall x, x ∈ Str.split ","%char names -> Str.lower x = Str.lower l ->
          Str.lower l ∈ users self) /\
       (forall repo,
          archived self PERSONAL_CONTEXT repo = true <->
          Str.lower (login (owner repo)) = Str.lower l)) /\
  (forall self repo repo',
     Str.lower (login (owner repo)) = Str.lower (login (owner repo')) ->
     name repo = name repo' ->
     repo_path self repo = repo_path self repo').
Proof.
  split; [exact split_argument_lower|]. split.
  { intros s Hs. cbn. rewrite Hs. apply split_lower. }
  split.
  { intros E view clone pull names orgs gists timeout threads tok location w done l
      Htok Hnames Hl.
    eexists _, _. split; [by apply exec_init|]. cbn. rewrite Hnames, split_lower.
    repeat split; try reflexivity.
    - intros x Hx Hxl. apply list_elem_of_fmap. exists x. by split.
    - unfold archived. cbn. rewrite Htok. cbn. rewrite andb_true_r, negb_involutive.
      intros H%bool_decide_eq_true. congruence.
    - unfold archived. cbn. rewrite Htok. cbn. rewrite andb_true_r, negb_involutive.
      intros ->. by apply bool_decide_eq_true. }
  intros self repo repo' Ho Hn. unfold repo_path. cbn zeta. by rewrite Ho, Hn.
Qed.

Lemma names_compared_in_lower_case_witness :
  (forall x, x ∈ split_argument (Some "Alice,BOB") -> Str.lower x = x) /\
  split_argument (Some "Alice,BOB") = map Str.lower (Str.split ","%char "Alice,BOB") /\
  (exists w' self,
     exec (Fixture.leaving ["tmp"] (Exited 0))
          (__init__ false true false (Some "ALICE,Bob") None None 30 2 (Some "t") "/archive")
          Fixture.bare [] = (w', [], Returned self) /\
     authenticated_username self = Some (Str.lower "Alice") /\
     users self = map Str.lower (Str.split ","%char "ALICE,Bob") /\
     (forall x, x ∈ Str.split ","%char "ALICE,Bob" -> Str.lower x = Str.lower "Alice" ->
        Str.lower "Alice" ∈ users self) /\
     (forall repo,
        archived self PERSONAL_CONTEXT repo = true <->
        Str.lower (login (owner repo)) = Str.lower "Alice")) /\
  repo_path (Fixture.config false true false ["bob"] None) Fixture.bob_repo1
  = repo_path (Fixture.config false true false ["bob"] None)
      {| owner := {| login := "BOB" |}; name := "repo1"; ssh_url := "" |}.
Proof.
  split; [|split; [|split]].
  - exact (proj1 names_compared_in_lower_case (Some "Alice,BOB")).
  - exact (proj1 (proj2 names_compared_in_lower_case) "Alice,BOB" eq_refl).
  - exact (proj1 (proj2 (proj2 names_compared_in_lower_case))
             (Fixture.leaving ["tmp"] (Exited 0)) false true false "ALICE,Bob" None None
             30%Z 2%Z "t" "/archive" Fixture.bare [] "Alice" eq_refl eq_refl eq_refl).
  - exact (proj2 (proj2 (proj2 names_compared_in_lower_case))
             (Fixture.config false true false ["bob"] None) Fixture.bob_repo1
             {| owner := {| login := "BOB" |}; name := "repo1"; ssh_url := "" |}
             eq_refl eq_refl).
Defined.

Example mixed_case_login_matches :
  let E := Fixture.leaving ["tmp"] (Exited 0) in
  match (exec E (__init__ false true false (Some "ALICE,Bob") None None 30 2 (Some "t")
                   "/archive") Fixture.bare []).2 with
  | Returned self =>
      users self = ["alice"; "bob"] /\
      authenticated_username self = Some "alice" /\
      archived self PERSONAL_CONTEXT
        {| owner := {| login := "aLiCe" |}; name := "r"; ssh_url := "" |} = true /\
      repo_path self {| owner := {| login := "aLiCe" |}; name := "r"; ssh_url := "" |}
      = "/archive/repos/alice/r"
  | _ => False
  end.
Proof. vm_compute. repeat split. Qed.

(** ** The layout on disk *)

Lemma resolve_join cwd loc names :
  forallb plain_name names = true ->
  Fs.resolve cwd (OsPath.join loc names) = Fs.resolve cwd loc ++ names.
Proof.
  revert loc. induction names as [|b rest IH]; intros loc Hall.
  - cbn. by rewrite app_nil_r.
  - cbn in Hall. apply andb_prop in Hall as [Hb Hrest].
    change (OsPath.join loc (b :: rest)) with (OsPath.join (OsPath.join2 loc b) rest).
    rewrite IH, resolve_join2 by done. by rewrite <- app_assoc.
Qed.

(** C9, as stated, fails for an owner whose login has a capital letter:
    the thread of [Bob/repo1] is given [/archive/repos/bob/repo1], which is
    not the root joined with 'repos', the owner's login and the repo name. *)
Lemma repo_path_lowers_the_owner :
  let self := Fixture.config false true false ["bob"] None in
  let repo := Fixture.bob_repo1 in
  starts [archive_repo self 0 repo "/archive/repos/bob/repo1" CLONE_OPERATION]
         (start_repo_threads self 0 USER_CONTEXT CLONE_OPERATION [repo] []) [] /\
  OsPath.join (location self) ["repos"; login (owner repo); name repo]
    = "/archive/repos/Bob/repo1" /\
  repo_path self repo
    <> OsPath.join (location self) ["repos"; login (owner repo); name repo].
Proof.
  cbn zeta. split; [|split].
  - apply (start_repo_threads_archived (Fixture.config false true false ["bob"] None) 0
             USER_CONTEXT CLONE_OPERATION [Fixture.bob_repo1] []).
  - reflexivity.
  - vm_compute. discriminate.
Qed.

(** C9, amended.  The thread of a repo is given the root joined with
    'repos', the lowercased owner login and the repo name, the thread of
    a gist the root joined with 'gists' and the gist id; for plain names
    these resolve to [repos/<owner>/<name>] and [gists/<id>] below the
    root.  When [os.path.exists] does not find the root at startup and
    [os.makedirs] does not fail, the root, [repos] and [gists] are
    directories afterwards; [os.makedirs] does not fail when nothing is in
    the way. *)
Theorem archive_layout self :
  (forall thread_limiter context operation repos thread_list,
     starts
       (map (fun repo =>
               archive_repo self thread_limiter repo
                 (OsPath.join (location self)
                    ["repos"; Str.lower (login (owner repo)); name repo])
                 operation)
            (List.filter (archived self context) repos))
       (start_repo_threads self thread_limiter context operation repos thread_list)
       thread_list) /\
  (forall thread_limiter operation gists thread_list,
     starts
       (map (fun gist =>
               archive_gist self thread_limiter gist
                 (OsPath.join (location self) ["gists"; gist_id gist]) operation)
            gists)
       (start_gist_threads self thread_limiter operation gists thread_list)
       thread_list) /\
  (forall cwd repo,
     plain_name (Str.lower (login (owner repo))) = true ->
     plain_name (name repo) = true ->
     Fs.resolve cwd (repo_path self repo)
     = Fs.resolve cwd (location self) ++ ["repos"; Str.lower (login (owner repo)); name repo]) /\
  (forall cwd gist,
     plain_name (gist_id gist) = true ->
     Fs.resolve cwd (gist_path self gist)
     = Fs.resolve cwd (location self) ++ ["gists"; gist_id gist]) /\
  (forall E w done,
     Fs.path_exists w (location self) = false ->
     let root := Fs.resolve (cwd w) (location self) in
     let '(w', _, r) := exec E (initialize_project self) w done in
     (is_os_error r = false ->
        fs w' !! root = Some Dir /\
        fs w' !! (root ++ ["repos"]) = Some Dir /\
        fs w' !! (root ++ ["gists"]) = Some Dir) /\
     (fs w !! (root ++ ["repos"]) = None ->
      fs w !! (root ++ ["gists"]) = None ->
      (forall q, q `prefix_of` root -> fs w !! q <> Some File) ->
      is_os_error r = false)).
Proof.
  split; [|split; [|split; [|split]]].
  - intros. apply start_repo_threads_archived.
  - intros. apply start_gist_threads_all.
  - intros cwd repo Ho Hn. unfold repo_path. cbn zeta. apply resolve_join.
    cbn. by rewrite Ho, Hn.
  - intros cwd gist Hid. unfold gist_path. apply resolve_join. cbn. by rewrite Hid.
  - intros E w done Hex. cbn zeta. rewrite exec_initialize_project.
    destruct (bootstrap w (location self)) as [w1 [e|]] eqn:Hb.
    + split.
      * intros Hos. apply bootstrap_error in Hb. cbn in Hb, Hos. congruence.
      * intros Hr Hg Hfiles.
        destruct (bootstrap_succeeds w (location self) Hr Hg Hfiles) as [w2 Hw2].
        congruence.
    + pose proof (bootstrap_root _ _ _ Hex Hb) as Hroot. cbn zeta in Hroot.
      destruct (validation_error self); cbn; (split; [intros _; exact Hroot|done]).
Qed.

Lemma archive_layout_witness :
  let self := Fixture.config false true false ["bob"] None in
  Fs.resolve [] (repo_path self Fixture.bob_repo1) = ["archive"; "repos"; "bob"; "repo1"] /\
  Fs.resolve [] (gist_path self Fixture.gist1) = ["archive"; "gists"; "abc123"] /\
  (let '(w', _, r) :=
     exec (Fixture.leaving ["tmp"] (Exited 0)) (initialize_project self) Fixture.bare [] in
   (is_os_error r = false ->
      fs w' !! ["archive"] = Some Dir /\
      fs w' !! ["archive"; "repos"] = Some Dir /\
      fs w' !! ["archive"; "gists"] = Some Dir) /\
   (fs Fixture.bare !! ["archive"; "repos"] = None ->
    fs Fixture.bare !! ["archive"; "gists"] = None ->
    (forall q, q `prefix_of` ["archive"] -> fs Fixture.bare !! q <> Some File) ->
    is_os_error r = false)).
Proof.
  cbn zeta. split; [|split].
  - exact (proj1 (proj2 (proj2 (archive_layout (Fixture.config false true false ["bob"] None))))
             [] Fixture.bob_repo1 eq_refl eq_refl).
  - exact (proj1 (proj2 (proj2 (proj2 (archive_layout
             (Fixture.config false true false ["bob"] None)))))
             [] Fixture.gist1 eq_refl).
  - exact (proj2 (proj2 (proj2 (proj2 (archive_layout
             (Fixture.config false true false ["bob"] None)))))
             (Fixture.leaving ["tmp"] (Exited 0)) Fixture.bare [] eq_refl).
Defined.

(** ** [run]: the personal pass *)

Lemma record_all_nil w : record_all w [] = w.
Proof. destruct w. unfold record_all. cbn. by rewrite app_nil_r. Qed.

Lemma record_record_all w ev evs : record_all (record w ev) evs = record_all w (ev :: evs).
Proof. unfold record_all, record. cbn. by rewrite <- app_assoc. Qed.

Lemma exec_view_repos E repos w done :
  exec E (view_repos repos) w done
  = (record_all w (map (fun repo => EvLog INFO (login (owner repo) +:+ ("/" +:+ name repo)))
                       repos),
     done, Returned tt).
Proof.
  unfold view_repos. revert w. induction repos as [|repo rest IH]; intros w.
  - cbn. by rewrite record_all_nil.
  - cbn [for_each]. rewrite exec_bind. cbn. rewrite IH. by rewrite record_record_all.
Qed.

Lemma list_remove_missing u l :
  u ∉ l -> list_remove (Some u) l = inl (ValueError "list.remove(x): x not in list").
Proof.
  induction l as [|y l IH]; intros Hu; cbn; [done|].
  apply not_elem_of_cons in Hu as [Hne Hu].
  rewrite bool_decide_eq_false_2 by congruence. by rewrite IH.
Qed.

Lemma list_remove_present u l :
  u ∈ l ->
  exists l1 l2, l = l1 ++ u :: l2 /\ (u ∉ l1) /\ list_remove (Some u) l = inr (l1 ++ l2).
Proof.
  induction l as [|y l IH]; [by intros ?%elem_of_nil|].
  intros Hu. cbn. destruct (decide (u = y)) as [->|Hne].
  - exists [], l. rewrite bool_decide_eq_true_2 by done. repeat split. apply not_elem_of_nil.
  - apply elem_of_cons in Hu as [?|Hu]; [done|].
    destruct (IH Hu) as (l1 & l2 & -> & Hl1 & ->).
    exists (y :: l1), l2. rewrite bool_decide_eq_false_2 by congruence.
    repeat split. by apply not_elem_of_cons.
Qed.

Lemma exec_bind_raw E {A B} (p : prog A) (f : A -> prog B) w done :
  exec E (bind p f) w done
  = match exec E p w done with
    | (w', done', Returned a) => exec E (f a) w' done'
    | (w', done', Raised e) => (w', done', Raised e)
    | (w', done', Blocked) => (w', done', Blocked)
    end.
Proof. exact (exec_bind E p f w done). Qed.

(** C1, as the code has it.  Line 59 tests the bound method
    [authenticated_user_in_users] without calling it, so membership of the
    authenticated login in the users list is never consulted.  With a token,
    a list of users that does not hold the authenticated username, and only
    [view] asked for, [run] calls the self endpoint and views the personal
    repos all the same, then raises the [ValueError] of [list.remove]
    (line 75) before any user is asked of the forge: the personal pass is
    not skipped and the plain user-repos pass is never reached. *)
Theorem personal_pass_runs_without_membership E self w done repos u :
  view self = true -> clone self = false -> pull self = false ->
  token_truthy (token self) = true ->
  list_truthy (users self) = true ->
  authenticated_username self = Some u ->
  u ∉ users self ->
  Fs.path_exists w (location self) = true ->
  forge_personal_repos E (default "" (token self)) = inr repos ->
  let '(w', _, r) := exec E (run self) w done in
  r = Raised (ValueError "list.remove(x): x not in list") /\
  exists evs,
    trace w' = trace w ++ evs /\
    EvForgePersonalRepos (default "" (token self)) ∈ evs /\
    (forall repo, repo ∈ repos ->
       EvLog INFO (login (owner repo) +:+ ("/" +:+ name repo)) ∈ evs) /\
    (forall tok user, EvForgeUserRepos tok user ∉ evs).
Proof.
  intros Hview Hclone Hpull Htok Husers Hname Hu Hex Hforge.
  unfold run. rewrite exec_bind, exec_initialize_project, (bootstrap_present _ _ Hex).
  assert (Hval : validation_error self = None).
  { unfold validation_error, any_target, any_operation. by rewrite Husers, Hview. }
  rewrite Hval, Htok, Husers. unfold get_personal_repos, perform.
  cbn [bound_method_truthy andb]. cbn. rewrite Hforge. cbn.
  rewrite Hview. cbn.
  rewrite !exec_bind_raw. rewrite exec_view_repos.
  rewrite Hclone, Hpull. cbn.
  rewrite Hname, (list_remove_missing _ _ Hu). cbn.
  split; [reflexivity|].
  eexists. split; [rewrite <- !app_assoc; reflexivity|]. cbn.
  split; [|split].
  - set_solver.
  - intros repo Hrepo. do 6 apply list_elem_of_further.
    apply list_elem_of_fmap. by exists repo.
  - intros tok user Hin. repeat (apply elem_of_cons in Hin as [?|Hin]; [done|]).
    apply list_elem_of_fmap in Hin as (? & ? & _). done.
Qed.

Lemma personal_pass_runs_without_membership_witness :
  let E := Fixture.leaving [] (Exited 0) in
  let self := Fixture.config true false false ["bob"] (Some "t") in
  let '(w', _, r) := exec E (run self) Fixture.fresh [] in
  r = Raised (ValueError "list.remove(x): x not in list") /\
  exists evs,
    trace w' = trace Fixture.fresh ++ evs /\
    EvForgePersonalRepos (default "" (token self)) ∈ evs /\
    (forall repo, repo ∈ [Fixture.alice_r1; Fixture.orgx_r2] ->
       EvLog INFO (login (owner repo) +:+ ("/" +:+ name repo)) ∈ evs) /\
    (forall tok user, EvForgeUserRepos tok user ∉ evs).
Proof.
  exact (personal_pass_runs_without_membership
    (Fixture.leaving [] (Exited 0)) (Fixture.config true false false ["bob"] (Some "t"))
    Fixture.fresh [] [Fixture.alice_r1; Fixture.orgx_r2] "alice"
    eq_refl eq_refl eq_refl eq_refl eq_refl eq_refl
    ltac:(intros Hin%list_elem_of_singleton; discriminate Hin)
    ltac:(vm_compute; reflexivity) eq_refl).
Defined.

(** The same configuration, evaluated: the method, had it been called,
    answers [false]; the run stops with the error of [list.remove]. *)
Example personal_pass_with_stranger :
  let E := Fixture.leaving [] (Exited 0) in
  let self := Fixture.config true false false ["bob"] (Some "t") in
  exec E (authenticated_user_in_users self) Fixture.fresh []
    = (Fixture.fresh, [], Returned false) /\
  (exec E (run self) Fixture.fresh []).2
    = Raised (ValueError "list.remove(x): x not in list") /\
  trace (exec E (run self) Fixture.fresh []).1.1
    = [EvSetupLogging "/archive";
       EvLog INFO ("# GitHub Archive started..." +:+ nl);
       EvLog INFO ("# Making API call to GitHub for personal repos..." +:+ nl);
       EvForgePersonalRepos "t";
       EvLog DEBUG "Personal repos retrieved!";
       EvLog INFO ("# Viewing user repos..." +:+ nl);
       EvLog INFO "alice/r1";
       EvLog INFO "orgX/r2"].
Proof. vm_compute. repeat split. Qed.

(** ** Permits and joins under every interleaving *)

Lemma balanced_finally_rollback s lvl msg path :
  balanced s (try_finally (LOGGER lvl msg;; rollback path) (release s)) 1.
Proof.
  cbn. intros _ [|]; cbn; [|done].
  intros [e|]; cbn; done.
Qed.

Lemma balanced_archive commands seconds s path operation success timed_out failed :
  balanced s (archive commands seconds s path operation success timed_out failed) 0.
Proof.
  unfold archive. cbn. intros e.
  destruct (e && String.eqb operation CLONE_OPERATION); [reflexivity|].
  destruct (commands !! operation) as [git_command|]; [|reflexivity].
  cbn. split; [reflexivity|]. intros [err|]; cbn; [|done].
  destruct err; try (cbn; done); apply balanced_finally_rollback.
Qed.

Lemma balanced_repo_bodies self s repos context operation :
  Forall (fun body => balanced s body 0) (repo_bodies self s repos context operation).
Proof.
  unfold repo_bodies. apply Forall_map, Forall_forall. intros repo _. apply balanced_archive.
Qed.

Lemma balanced_gist_bodies self s gists operation :
  Forall (fun body => balanced s body 0) (gist_bodies self s gists operation).
Proof.
  unfold gist_bodies. apply Forall_map, Forall_forall. intros gist _. apply balanced_archive.
Qed.

Lemma sum_list_insert (hs : list nat) i h h' :
  hs !! i = Some h -> (sum_list (<[i := h']> hs) + h = sum_list hs + h')%nat.
Proof.
  revert i. induction hs as [|x hs IH]; intros [|i]; simpl; try done.
  - intros [= ->]. lia.
  - intros Hi. specialize (IH _ Hi). lia.
Qed.

Lemma sum_list_lookup_le (hs : list nat) i h : hs !! i = Some h -> (h <= sum_list hs)%nat.
Proof.
  revert i. induction hs as [|x hs IH]; intros [|i]; simpl; try done.
  - intros [= ->]. lia.
  - intros Hi. specialize (IH _ Hi). lia.
Qed.

(** A step of a worker that holds [h] permits: the semaphore and the
    permits in hand change together. *)
Lemma balanced_next_op E pool w p w' p' pre v b h :
  balanced (length pre) p h ->
  next_op E pool w p = Some (w', p') ->
  sems w = pre ++ [(v, b)] ->
  (0 <= v)%Z -> (v + Z.of_nat h <= b)%Z ->
  exists v' h',
    sems w' = pre ++ [(v', b)] /\
    balanced (length pre) p' h' /\
    (0 <= v')%Z /\ (v' + Z.of_nat h' = v + Z.of_nat h)%Z.
Proof.
  intros Hbal Hnext Hsems Hv Hle.
  destruct p as [a|e|X o k|body k]; try discriminate Hnext.
  cbn in Hnext. destruct o; cbn in Hnext, Hbal; try discriminate Hnext.
  all: try (injection Hnext as <- <-; exists v, h; repeat split; auto; fail).
  - destruct (Fs.makedirs w path); injection Hnext as <- <-; exists v, h; repeat split; auto.
  - destruct (Fs.rmtree w path); injection Hnext as <- <-; exists v, h; repeat split; auto.
  - done.
  - destruct Hbal as [-> Hbal]. rewrite Hsems, lookup_app_r, Nat.sub_diag in Hnext by lia.
    cbn in Hnext. destruct (0 <? v)%Z eqn:Hpos; [|discriminate Hnext].
    injection Hnext as <- <-. apply Z.ltb_lt in Hpos.
    exists (v - 1)%Z, (S h). unfold set_sems. cbn [sems].
    rewrite insert_app_r_alt, Nat.sub_diag by lia. repeat split; auto; lia.
  - destruct Hbal as [-> Hbal]. rewrite Hsems, lookup_app_r, Nat.sub_diag in Hnext by lia.
    cbn in Hnext. destruct h as [|h]; [done|].
    rewrite (proj2 (Z.leb_gt b v)) in Hnext by lia.
    injection Hnext as <- <-.
    exists (v + 1)%Z, h. unfold set_sems. cbn [sems].
    rewrite insert_app_r_alt, Nat.sub_diag by lia. repeat split; auto; lia.
  - destruct (is_finished pool _); [|discriminate Hnext].
    injection Hnext as <- <-; exists v, h; repeat split; auto.
Qed.

(** Finished threads do not move. *)
Lemma finished_next_op E pool w p : finished (Running p) = true -> next_op E pool w p = None.
Proof. by destruct p. Qed.

Lemma finished_next_start p t : finished (Running p) = true -> next_start p t = None.
Proof. by destruct p. Qed.

Lemma finished_next_subprocess p : finished (Running p) = true -> next_subprocess p = None.
Proof. by destruct p. Qed.

Lemma balanced_next_start s p t h : balanced s p h -> next_start p t = None.
Proof. destruct p; try done. Qed.

Lemma balanced_next_subprocess s p t h :
  balanced s p h -> next_subprocess p = Some t -> thread_balanced s t h.
Proof.
  destruct p as [a|e|X o k|body k]; try done.
  destruct o; try done. cbn. intros Hbal [= <-]. exact Hbal.
Qed.

Lemma balanced_finished s t h : thread_balanced s t h -> finished t = true -> h = 0.
Proof. destruct t as [[]|]; done. Qed.


Lemma sum_list_snoc (hs : list nat) h : sum_list (hs ++ [h]) = (sum_list hs + h)%nat.
Proof. induction hs as [|x hs IH]; simpl; lia. Qed.

(** *** The steps of the main thread *)

Lemma starting_nil total q workers :
  starts [] q (seq 1 (length workers)) ->
  length workers = total ->
  joining total (q ≫= (fun thread_list => for_each thread_list join)) workers.
Proof.
  cbn. intros -> Hlen. exists 0. rewrite Nat.sub_0_r.
  repeat split; [lia|done|]. intros i t Hi. lia.
Qed.

Lemma joining_next_op E total main workers w w' main' :
  joining total main workers ->
  next_op E (Running main :: workers) w main = Some (w', main') ->
  w' = w /\ joining total main' workers.
Proof.
  intros (d & Hd & Hlen & -> & Hfin) Hnext.
  destruct (length workers - d) as [|m] eqn:Hm; [discriminate Hnext|].
  cbn in Hnext. unfold is_finished in Hnext. cbn in Hnext.
  destruct (workers !! d) as [t|] eqn:Ht; cbn in Hnext; [|discriminate Hnext].
  destruct (finished t) eqn:Hft; [|discriminate Hnext].
  injection Hnext as <- <-. split; [done|].
  exists (S d). replace (length workers - S d) with m by lia.
  repeat split; [lia|done|]. intros i t' Hi Hlook.
  destruct (decide (i = d)) as [->|Hne]; [|apply (Hfin i); [lia|done]].
  by injection (eq_trans (eq_sym Ht) Hlook) as <-.
Qed.

Lemma main_next_op E s total main workers w w' main' :
  starting s total main workers \/ joining total main workers ->
  next_op E (Running main :: workers) w main = Some (w', main') ->
  w' = w /\ joining total main' workers.
Proof.
  intros [(bodies & q & Hq & Hbal & Hlen & ->)|Hjoin] Hnext.
  - destruct bodies as [|body rest].
    + eapply joining_next_op; [|exact Hnext].
      apply starting_nil; [done|]. cbn in Hlen. lia.
    + cbn in Hq. destruct q; try done.
  - by eapply joining_next_op.
Qed.

Lemma main_next_subprocess s total main workers :
  starting s total main workers \/ joining total main workers ->
  next_subprocess main = None.
Proof.
  intros [(bodies & q & Hq & Hbal & Hlen & ->)|(d & Hd & Hlen & -> & Hfin)].
  - destruct bodies as [|body rest]; cbn in Hq.
    + subst q. cbn. by destruct (length workers).
    + destruct q; done.
  - by destruct (length workers - d).
Qed.

Lemma main_next_start s total main workers body main' :
  starting s total main workers \/ joining total main workers ->
  next_start main (S (length workers)) = Some (body, main') ->
  balanced s body 0 /\ starting s total main' (workers ++ [Running body]).
Proof.
  intros [(bodies & q & Hq & Hbal & Hlen & ->)|(d & Hd & Hlen & -> & Hfin)] Hnext.
  - destruct bodies as [|body' rest]; cbn in Hq.
    + subst q. cbn in Hnext. by destruct (length workers).
    + destruct q as [| | |body'' k]; try done. destruct Hq as [-> Hq].
      cbn in Hnext. injection Hnext as <- <-.
      apply Forall_cons in Hbal as [Hbody Hrest]. split; [done|].
      exists rest, (k (S (length workers))). rewrite length_app. cbn [length].
      rewrite Nat.add_1_r, seq_S. repeat split; [apply Hq|done|].
      cbn in Hlen. lia.
  - by destruct (length workers - d).
Qed.

(** *** The steps of a worker, seen from the main thread *)

Lemma main_worker_step s total main workers j t t' :
  starting s total main workers \/ joining total main workers ->
  workers !! j = Some t -> finished t = false ->
  starting s total main (<[j := t']> workers) \/ joining total main (<[j := t']> workers).
Proof.
  intros [(bodies & q & Hq & Hbal & Hlen & ->)|(d & Hd & Hlen & -> & Hfin)] Hj Hft.
  - left. exists bodies, q. by rewrite length_insert.
  - right. exists d. rewrite length_insert. repeat split; [done..|].
    intros i ti Hi Hlook. destruct (decide (j = i)) as [->|Hne].
    + specialize (Hfin i t Hi Hj). congruence.
    + rewrite list_lookup_insert_ne in Hlook by done. by apply (Hfin i).
Qed.

Lemma next_op_not_finished E pool w p r : next_op E pool w p = Some r -> finished (Running p) = false.
Proof. by destruct p. Qed.

Lemma next_subprocess_not_finished p t : next_subprocess p = Some t -> finished (Running p) = false.
Proof. by destruct p. Qed.

(** *** The invariant is kept by every step *)

Lemma batch_inv_step sems0 b total st st' :
  batch_inv sems0 b total st -> step st st' -> batch_inv sems0 b total st'.
Proof.
  intros Hinv Hstep. destruct Hinv as [w e Hsems Hb|w main workers v hs Hsems Hws Hv Hsum Hmain].
  - inversion Hstep as [E w1 pool i p w' p' Hi Hnext|w1 pool i p body p' Hi Hnext
                       |w1 pool i p t Hi Hnext|w1 pool i cmd seconds k m Hi
                       |w1 pool i cmd seconds k out Hi]; subst;
      destruct i as [|i]; try discriminate Hi; injection Hi as <-; discriminate Hnext.
  - inversion Hstep as [E w1 pool i p w' p' Hi Hnext|w1 pool i p body p' Hi Hnext
                       |w1 pool i p t Hi Hnext|w1 pool i cmd seconds k m Hi
                       |w1 pool i cmd seconds k out Hi]; subst.
    + destruct i as [|j]; cbn in Hi.
      * injection Hi as <-.
        destruct (main_next_op _ _ _ _ _ _ _ _ Hmain Hnext) as [-> Hjoin].
        by eapply batch_running; eauto.
      * destruct (Forall2_lookup_l _ _ _ _ _ Hws Hi) as (h & Hh & Hbal).
        pose proof (sum_list_lookup_le _ _ _ Hh) as Hle.
        destruct (balanced_next_op _ _ _ _ _ _ _ _ _ _ Hbal Hnext Hsems Hv)
          as (v' & h' & Hsems' & Hbal' & Hv' & Heq); [lia|].
        pose proof (sum_list_insert hs j h h' Hh) as Hins.
        apply (batch_running _ _ _ _ _ _ v' (<[j := h']> hs)); auto.
        -- by apply Forall2_insert.
        -- lia.
        -- eapply main_worker_step; eauto. by eapply next_op_not_finished.
    + destruct i as [|j]; cbn in Hi.
      * injection Hi as <-. cbn in Hnext.
        destruct (main_next_start _ _ _ _ _ _ Hmain Hnext) as [Hbody Hstart].
        apply (batch_running _ _ _ _ _ _ v (hs ++ [0])); auto.
        -- apply Forall2_app; [done|]. by constructor.
        -- rewrite sum_list_snoc. lia.
      * destruct (Forall2_lookup_l _ _ _ _ _ Hws Hi) as (h & Hh & Hbal).
        rewrite (balanced_next_start _ _ _ _ Hbal) in Hnext. discriminate Hnext.
    + destruct i as [|j]; cbn in Hi.
      * injection Hi as <-. rewrite (main_next_subprocess _ _ _ _ Hmain) in Hnext.
        discriminate Hnext.
      * destruct (Forall2_lookup_l _ _ _ _ _ Hws Hi) as (h & Hh & Hbal).
        apply (batch_running _ _ _ _ _ _ v (<[j := h]> hs)); auto.
        -- apply Forall2_insert; [done|]. by eapply balanced_next_subprocess.
        -- by rewrite list_insert_id.
        -- eapply main_worker_step; eauto. by eapply next_subprocess_not_finished.
    + by eapply batch_running; eauto.
    + destruct i as [|j]; cbn in Hi; [discriminate Hi|].
      destruct (Forall2_lookup_l _ _ _ _ _ Hws Hi) as (h & Hh & Hbal).
      apply (batch_running _ _ _ _ _ _ v (<[j := h]> hs)); auto.
      -- apply Forall2_insert; [done|]. apply Hbal.
      -- by rewrite list_insert_id.
      -- eapply main_worker_step; eauto.
Qed.

(** *** From the call to the invariant *)

Lemma batch_reach n (start : nat -> prog (list nat)) (bodies : nat -> list (prog unit))
    total w0 st :
  (forall s, starts (bodies s) (start s) []) ->
  (forall s, Forall (fun body => balanced s body 0) (bodies s)) ->
  (forall s, length (bodies s) = total) ->
  steps (w0, [Running (thread_limiter ← BoundedSemaphore n;
                       thread_list ← start thread_limiter;
                       for_each thread_list join)]) st ->
  st = (w0, [Running (thread_limiter ← BoundedSemaphore n;
                      thread_list ← start thread_limiter;
                      for_each thread_list join)])
  \/ batch_inv (sems w0) n total st.
Proof.
  intros Hstarts Hbal Hlen Hsteps.
  remember (w0, [Running (thread_limiter ← BoundedSemaphore n;
                          thread_list ← start thread_limiter;
                          for_each thread_list join)]) as st0 eqn:Hst0.
  induction Hsteps as [st|st0 st1 st2 Hsteps IH Hstep]; [by left|].
  right. destruct (IH Hst0) as [->|Hinv]; [|by eapply batch_inv_step].
  subst st0. clear IH Hsteps.
  inversion Hstep as [E w1 pool i p w' p' Hi Hnext|w1 pool i p body p' Hi Hnext
                     |w1 pool i p t Hi Hnext|w1 pool i cmd seconds k m Hi
                     |w1 pool i cmd seconds k out Hi]; subst;
    destruct i as [|i]; try discriminate Hi; injection Hi as <-; try discriminate Hnext.
  cbn in Hnext. destruct (n <? 0)%Z eqn:Hn; injection Hnext as <- <-.
  - apply batch_failed; [done|]. by apply Z.ltb_lt.
  - apply Z.ltb_ge in Hn. apply (batch_running _ _ _ _ _ [] n []); auto.
    + cbn. lia.
    + left. exists (bodies (length (sems w0))), (start (length (sems w0))).
      repeat split; auto. cbn. apply Hlen.
Qed.

Lemma iterate_repos_reach self repos context operation w0 st :
  steps (w0, [Running (iterate_repos_to_archive self repos context operation)]) st ->
  st = (w0, [Running (iterate_repos_to_archive self repos context operation)])
  \/ batch_inv (sems w0) (threads self) (length (List.filter (archived self context) repos)) st.
Proof.
  apply (batch_reach _ _ (fun s => repo_bodies self s repos context operation)).
  - intros s. apply start_repo_threads_archived.
  - intros s. apply balanced_repo_bodies.
  - intros s. unfold repo_bodies. by rewrite length_map.
Qed.

Lemma iterate_gists_reach self gists operation w0 st :
  steps (w0, [Running (iterate_gists_to_archive self gists operation)]) st ->
  st = (w0, [Running (iterate_gists_to_archive self gists operation)])
  \/ batch_inv (sems w0) (threads self) (length gists) st.
Proof.
  apply (batch_reach _ _ (fun s => gist_bodies self s gists operation)).
  - intros s. apply start_gist_threads_all.
  - intros s. apply balanced_gist_bodies.
  - intros s. unfold gist_bodies. by rewrite length_map.
Qed.

(** *** What the invariant gives *)

Lemma main_next_release s total main workers :
  starting s total main workers \/ joining total main workers ->
  next_release (Running main) = None.
Proof.
  intros [(bodies & q & Hq & Hbal & Hlen & ->)|(d & Hd & Hlen & -> & Hfin)].
  - destruct bodies as [|body rest]; cbn in Hq.
    + subst q. cbn. by destruct (length workers).
    + destruct q; done.
  - by destruct (length workers - d).
Qed.

Lemma balanced_next_release s t h s' :
  thread_balanced s t h -> next_release t = Some s' -> s' = s /\ (0 < h)%nat.
Proof.
  destruct t as [[a|e|X o k|body k]|]; try done.
  destruct o; try done. cbn. intros [-> Hk] [= <-]. split; [done|].
  destruct h; [done|lia].
Qed.

Lemma balanced_all_finished s workers hs :
  Forall2 (thread_balanced s) workers hs ->
  (forall t, t ∈ workers -> finished t = true) ->
  sum_list hs = 0%nat.
Proof.
  induction 1 as [|t h workers hs Ht _ IH]; intros Hfin; [done|].
  simpl. rewrite IH by (intros t' Ht'; apply Hfin; by right).
  rewrite (balanced_finished s t h Ht); [done|]. apply Hfin. by left.
Qed.

Lemma batch_inv_permits sems0 b total w pool :
  batch_inv sems0 b total (w, pool) ->
  take (length sems0) (sems w) = sems0 /\
  (forall s v b', (length sems0 <= s)%nat -> sems w !! s = Some (v, b') ->
     s = length sems0 /\ b' = b /\ (0 <= v <= b)%Z /\
     ((forall t, t ∈ pool -> finished t = true) -> v = b)) /\
  (forall i t s, pool !! i = Some t -> next_release t = Some s ->
     exists v, sems w !! s = Some (v, b) /\ (v < b)%Z).
Proof.
  intros Hinv.
  inversion Hinv as [w1 e Hsems Hb|w1 main workers v hs Hsems Hws Hv Hsum Hmain];
    subst w1 pool.
  - rewrite Hsems. split; [by rewrite take_ge|]. split.
    + intros s v b' Hs Hlook. apply lookup_lt_Some in Hlook. lia.
    + intros [|i] t s Hi; [|done]. injection Hi as <-. done.
  - rewrite Hsems. split; [by rewrite take_app_length|]. split.
    + intros s v' b' Hs Hlook. rewrite lookup_app_r in Hlook by done.
      destruct (s - length sems0) as [|m] eqn:Hm; [|done].
      injection Hlook as <- <-. repeat split; [lia..|].
      intros Hfin. 
      rewrite (balanced_all_finished _ _ _ Hws) in Hsum; [lia|].
      intros t Ht. apply Hfin. by right.
    + intros [|j] t s Hi Hrel; cbn in Hi.
      * injection Hi as <-. by rewrite (main_next_release _ _ _ _ Hmain) in Hrel.
      * destruct (Forall2_lookup_l _ _ _ _ _ Hws Hi) as (h & Hh & Hbal).
        destruct (balanced_next_release _ _ _ _ Hbal Hrel) as [-> Hpos].
        pose proof (sum_list_lookup_le _ _ _ Hh) as Hle.
        exists v. rewrite lookup_app_r, Nat.sub_diag by done. split; [done|lia].
Qed.

Lemma batch_inv_joined sems0 b total w pool :
  batch_inv sems0 b total (w, pool) ->
  exists main, pool !! 0%nat = Some (Running main) /\
    (finished (Running main) = true -> forall t, t ∈ pool -> finished t = true) /\
    (main = Ret tt -> length pool = S total).
Proof.
  intros Hinv.
  inversion Hinv as [w1 e Hsems Hb|w1 main workers v hs Hsems Hws Hv Hsum Hmain];
    subst w1 pool.
  - exists (Raise e). split; [done|]. split; [|done].
    by intros _ t ->%list_elem_of_singleton.
  - exists main. split; [done|].
    assert (Hjoin : finished (Running main) = true -> joining total main workers).
    { destruct Hmain as [(bodies & q & Hq & Hbal & Hlen & ->)|Hjoin]; [|done].
      destruct bodies as [|body rest]; cbn in Hq.
      - intros _. apply starting_nil; [done|]. cbn in Hlen. lia.
      - destruct q; done. }
    assert (Hall : finished (Running main) = true ->
                   length workers = total /\ forall t, t ∈ workers -> finished t = true).
    { intros Hfin. destruct (Hjoin Hfin) as (d & Hd & Hlen & Hmain' & Hdone).
      split; [done|]. subst main.
      destruct (length workers - d) as [|m] eqn:Hm; [|done].
      intros t (i & Hi)%list_elem_of_lookup_1. apply (Hdone i); [|done].
      apply lookup_lt_Some in Hi. lia. }
    split.
    + intros Hfin t [->|Ht]%elem_of_cons; [done|]. by apply Hall.
    + intros ->. cbn. f_equal. by apply Hall.
Qed.

(** ** The claims about permits and joins *)

(** C4. Every path of [archive_repo] and of [archive_gist] that takes a
    permit gives exactly that permit back, whatever the child process and
    the rollback do ([balanced]).  So under every interleaving of a batch
    the semaphore of the batch has the configured bound, holds between zero
    and that many permits, holds all of them again once every thread has
    ended, and never refuses a release; the semaphores made before the
    batch are left as they were. *)
Theorem permits_never_leak self main w0 w pool :
  (exists repos context operation,
     main = iterate_repos_to_archive self repos context operation) \/
  (exists gists operation, main = iterate_gists_to_archive self gists operation) ->
  steps (w0, [Running main]) (w, pool) ->
  (forall s repo path operation, balanced s (archive_repo self s repo path operation) 0) /\
  (forall s gist path operation, balanced s (archive_gist self s gist path operation) 0) /\
  take (length (sems w0)) (sems w) = sems w0 /\
  (forall s v b, (length (sems w0) <= s)%nat -> sems w !! s = Some (v, b) ->
     s = length (sems w0) /\ b = threads self /\ (0 <= v <= b)%Z /\
     ((forall t, t ∈ pool -> finished t = true) -> v = b)) /\
  (forall i t s, pool !! i = Some t -> next_release t = Some s ->
     exists v, sems w !! s = Some (v, threads self) /\ (v < threads self)%Z).
Proof.
  intros Hmain Hsteps.
  split; [intros; apply balanced_archive|]. split; [intros; apply balanced_archive|].
  assert (Hreach : (w, pool) = (w0, [Running main]) /\ next_release (Running main) = None
                   \/ exists total, batch_inv (sems w0) (threads self) total (w, pool)).
  { destruct Hmain as [(repos & context & operation & ->)|(gists & operation & ->)].
    - destruct (iterate_repos_reach _ _ _ _ _ _ Hsteps) as [Heq|Hinv]; [by left|].
      right. by eexists.
    - destruct (iterate_gists_reach _ _ _ _ _ Hsteps) as [Heq|Hinv]; [by left|].
      right. by eexists. }
  destruct Hreach as [[[= -> ->] Hrel]|[total Hinv]].
  - split; [by rewrite take_ge|]. split.
    + intros s v b Hs Hlook. apply lookup_lt_Some in Hlook. lia.
    + intros [|i] t s Hi; [|done]. injection Hi as <-. by rewrite Hrel.
  - destruct (batch_inv_permits _ _ _ _ _ Hinv) as (Htake & Hsem & Hrel).
    split; [done|]. split; [|done].
    intros s v b Hs Hlook. destruct (Hsem s v b Hs Hlook) as (-> & -> & Hv & Hfin). done.
Qed.

(** C8. Under every interleaving, once [iterate_repos_to_archive] or
    [iterate_gists_to_archive] has returned or raised, every thread of the
    pool has ended; and when it has returned, the pool holds one thread per
    repo the owner check lets through (per gist), all started by the call. *)
Theorem iterate_returns_after_every_thread self main total w0 w pool :
  (exists repos context operation,
     main = iterate_repos_to_archive self repos context operation /\
     total = length (List.filter (archived self context) repos)) \/
  (exists gists operation,
     main = iterate_gists_to_archive self gists operation /\ total = length gists) ->
  steps (w0, [Running main]) (w, pool) ->
  exists main',
    pool !! 0%nat = Some (Running main') /\
    (finished (Running main') = true -> forall t, t ∈ pool -> finished t = true) /\
    (main' = Ret tt -> length pool = S total).
Proof.
  intros Hmain Hsteps.
  assert (Hreach : (w, pool) = (w0, [Running main]) /\ finished (Running main) = false
                   \/ batch_inv (sems w0) (threads self) total (w, pool)).
  { destruct Hmain as [(repos & context & operation & -> & ->)|(gists & operation & -> & ->)].
    - destruct (iterate_repos_reach _ _ _ _ _ _ Hsteps) as [Heq|Hinv]; [by left|by right].
    - destruct (iterate_gists_reach _ _ _ _ _ Hsteps) as [Heq|Hinv]; [by left|by right]. }
  destruct Hreach as [[[= -> ->] Hfin]|Hinv].
  - exists main. split; [done|]. split; [by rewrite Hfin|].
    intros ->. discriminate Hfin.
  - exact (batch_inv_joined _ _ _ _ _ Hinv).
Qed.

Lemma steps_cons s1 s2 s3 : step s1 s2 -> steps s2 s3 -> steps s1 s3.
Proof.
  intros Hstep Hsteps. induction Hsteps as [s|s2 s3 s4 _ IH Hstep'].
  - eapply steps_step; [apply steps_refl|done].
  - eapply steps_step; [by apply IH|done].
Qed.

Lemma steps_trans s1 s2 s3 : steps s1 s2 -> steps s2 s3 -> steps s1 s3.
Proof.
  intros H12 H23. induction H23 as [s|s2 s3 s4 _ IH Hstep]; [done|].
  eapply steps_step; [by apply IH|done].
Qed.


Lemma sched_step_sound c st st' : sched_step c st = Some st' -> step st st'.
Proof.
  destruct st as [w pool]. destruct c as [E i|i|i|i m|i out]; cbn.
  - destruct (pool !! i) as [[p|]|] eqn:Hi; try done.
    destruct (next_op E pool w p) as [[w' p']|] eqn:Hnext; [|done].
    intros [= <-]. by eapply step_op.
  - destruct (pool !! i) as [[p|]|] eqn:Hi; try done.
    destruct (next_start p (length pool)) as [[body p']|] eqn:Hnext; [|done].
    intros [= <-]. by eapply step_start.
  - destruct (pool !! i) as [[p|]|] eqn:Hi; try done.
    destruct (next_subprocess p) as [t|] eqn:Hnext; [|done].
    intros [= <-]. by eapply step_subprocess_begin.
  - destruct (pool !! i) as [[p|cmd seconds k]|] eqn:Hi; try done.
    intros [= <-]. by eapply step_subprocess_write.
  - destruct (pool !! i) as [[p|cmd seconds k]|] eqn:Hi; try done.
    intros [= <-]. by eapply step_subprocess_end.
Qed.

Lemma sched_run_sound cs st st' : sched_run cs st = Some st' -> steps st st'.
Proof.
  revert st. induction cs as [|c cs IH]; intros st; cbn.
  - intros [= <-]. apply steps_refl.
  - destruct (sched_step c st) as [st1|] eqn:Hstep; [|done].
    intros Hrun. eapply steps_cons; [eapply sched_step_sound; exact Hstep|by apply IH].
Qed.

Lemma schedule_after n :
  is_Some (sched_run (take n Schedule.two_repos) Schedule.init) ->
  steps (Fixture.fresh, [Running Schedule.main]) ((Schedule.after n).1, (Schedule.after n).2).
Proof.
  intros [st Hst]. apply (sched_run_sound (take n Schedule.two_repos)).
  unfold Schedule.after. fold Schedule.init. rewrite Hst. by destruct st.
Qed.

Example schedule_runs :
  option_map (fun st => (sems st.1, finished <$> st.2, trace st.1))
             (sched_run Schedule.two_repos Schedule.init)
  = Some ([(2, 2); (2, 2)]%Z, [true; true; true],
          [EvSubprocess "git clone git@host:bob/repo1.git /archive/repos/bob/repo1" 30;
           EvSubprocess "git clone git@host:alice/r1.git /archive/repos/alice/r1" 30;
           EvLog INFO "Repo: repo1 clone success!";
           EvLog ERROR "Git operation timed out archiving r1."]).
Proof. vm_compute. reflexivity. Qed.

Example schedule_permits :
  map (fun n => sems (Schedule.after n).1 !! 1%nat) [0; 1; 6; 7; 18; 19]%nat
  = [None; Some (2, 2); Some (1, 2); Some (0, 2); Some (1, 2); Some (2, 2)]%Z.
Proof. vm_compute. reflexivity. Qed.

Lemma permits_never_leak_witness :
  (forall s repo path operation,
     balanced s (archive_repo Schedule.self s repo path operation) 0) /\
  (forall s gist path operation,
     balanced s (archive_gist Schedule.self s gist path operation) 0) /\
  take (length (sems Fixture.fresh)) (sems (Schedule.after 7).1) = sems Fixture.fresh /\
  (forall s v b, (length (sems Fixture.fresh) <= s)%nat ->
     sems (Schedule.after 7).1 !! s = Some (v, b) ->
     s = length (sems Fixture.fresh) /\ b = threads Schedule.self /\ (0 <= v <= b)%Z /\
     ((forall t, t ∈ (Schedule.after 7).2 -> finished t = true) -> v = b)) /\
  (forall i t s, (Schedule.after 7).2 !! i = Some t -> next_release t = Some s ->
     exists v, sems (Schedule.after 7).1 !! s = Some (v, threads Schedule.self) /\
               (v < threads Schedule.self)%Z).
Proof.
  apply (permits_never_leak Schedule.self Schedule.main Fixture.fresh
           (Schedule.after 7).1 (Schedule.after 7).2).
  - left. exists [Fixture.bob_repo1; Fixture.alice_r1], USER_CONTEXT, CLONE_OPERATION.
    reflexivity.
  - apply (schedule_after 7). vm_compute. eexists. reflexivity.
Defined.

Lemma iterate_returns_after_every_thread_witness :
  exists main',
    (Schedule.after 21).2 !! 0%nat = Some (Running main') /\
    (finished (Running main') = true ->
     forall t, t ∈ (Schedule.after 21).2 -> finished t = true) /\
    (main' = Ret tt -> length (Schedule.after 21).2 = 3%nat).
Proof.
  apply (iterate_returns_after_every_thread Schedule.self Schedule.main 2 Fixture.fresh
           (Schedule.after 21).1 (Schedule.after 21).2).
  - left. exists [Fixture.bob_repo1; Fixture.alice_r1], USER_CONTEXT, CLONE_OPERATION.
    split; reflexivity.
  - apply (schedule_after 21). vm_compute. eexists. reflexivity.
Defined.

(** ** The threads [iterate_repos_to_archive] starts *)

Lemma next_op_inv E pool w p w' p' :
  next_op E pool w p = Some (w', p') ->
  exists X (o : op X) k x, p = Op o k /\ p' = k x.
Proof.
  destruct p as [a|e|X o k|body k]; try done. cbn.
  destruct (is_subprocess o); [done|].
  destruct (exec_op E _ o w) as [[w1 x]|]; [|done].
  intros [= <- <-]. by exists X, o, k, x.
Qed.

Lemma next_subprocess_inv p t :
  next_subprocess p = Some t ->
  exists cmd seconds k, p = Op (SubprocessRun cmd seconds) k /\ t = InSubprocess cmd seconds k.
Proof.
  destruct p as [a|e|X o k|body k]; try done. cbn.
  destruct o; try done. intros [= <-]. by eexists _, _, _.
Qed.

Lemma launches_joins thread_list : launches [] (for_each thread_list join).
Proof.
  induction thread_list as [|t rest IH]; [done|]. cbn. split; [done|]. intros []. exact IH.
Qed.

Lemma starts_launches bodies q thread_list :
  starts bodies q thread_list ->
  launches bodies (q ≫= fun thread_list => for_each thread_list join).
Proof.
  revert q thread_list. induction bodies as [|body rest IH]; intros q thread_list; cbn.
  - intros ->. apply launches_joins.
  - destruct q as [| | |body' k]; try done. intros [-> Hk]. cbn. split; [done|].
    intros t. by eapply IH.
Qed.

Lemma launch_inv_step sems0 b total bodies st st' :
  batch_inv sems0 b total st -> launch_inv bodies st -> step st st' -> launch_inv bodies st'.
Proof.
  intros Hinv (main' & workers' & Hpool & Hdesc & Hlaunch) Hstep.
  destruct Hinv as [w e Hsems Hb|w main workers v hs Hsems Hws Hv Hsum Hmain].
  - inversion Hstep as [E w1 pool i p w' p' Hi Hnext|w1 pool i p body p' Hi Hnext
                       |w1 pool i p t Hi Hnext|w1 pool i cmd seconds k m Hi
                       |w1 pool i cmd seconds k out Hi]; subst;
      destruct i as [|i]; try discriminate Hi; injection Hi as <-; discriminate Hnext.
  - cbn in Hpool. injection Hpool as <- <-.
    inversion Hstep as [E w1 pool i p w' p' Hi Hnext|w1 pool i p body p' Hi Hnext
                       |w1 pool i p t Hi Hnext|w1 pool i cmd seconds k m Hi
                       |w1 pool i cmd seconds k out Hi]; subst.
    + destruct (next_op_inv _ _ _ _ _ _ Hnext) as (X & o & k & x & -> & ->).
      destruct i as [|j]; cbn in Hi.
      * injection Hi as ->. cbn in Hlaunch. destruct Hlaunch as [Hnil Hk].
        exists (k x), workers. cbn. rewrite Hnil. by repeat split.
      * exists main, (<[j := Running (k x)]> workers). cbn. rewrite length_insert.
        split; [done|]. split; [|done].
        destruct (Forall2_lookup_r _ _ _ _ _ Hdesc Hi) as (body & Hbody & Hd).
        rewrite <- (list_insert_id _ _ _ Hbody). apply Forall2_insert; [done|].
        exact (descends_op _ _ _ _ Hd).
    + destruct i as [|j]; cbn in Hi.
      * injection Hi as <-. destruct main as [| | |body' k]; try done.
        cbn in Hnext. injection Hnext as <- <-. cbn in Hlaunch.
        destruct (drop (length workers) bodies) as [|b0 rest] eqn:Hdrop; [done|].
        destruct Hlaunch as [-> Hk].
        assert (Hn : bodies !! length workers = Some b0).
        { rewrite <- (Nat.add_0_r (length workers)), <- lookup_drop, Hdrop. done. }
        exists (k (S (length workers))), (workers ++ [Running b0]). cbn.
        rewrite length_app. cbn [length]. rewrite Nat.add_1_r.
        split; [done|]. split.
        -- rewrite (take_S_r _ _ _ Hn). apply Forall2_app; [done|].
           constructor; [apply descends_refl|constructor].
        -- erewrite drop_S in Hdrop by exact Hn. injection Hdrop as <-. apply Hk.
      * destruct (Forall2_lookup_l _ _ _ _ _ Hws Hi) as (h & Hh & Hbal).
        rewrite (balanced_next_start _ _ _ _ Hbal) in Hnext. discriminate Hnext.
    + destruct i as [|j]; cbn in Hi.
      * injection Hi as <-. rewrite (main_next_subprocess _ _ _ _ Hmain) in Hnext.
        discriminate Hnext.
      * destruct (next_subprocess_inv _ _ Hnext) as (cmd & seconds & k & -> & ->).
        exists main, (<[j := InSubprocess cmd seconds k]> workers). cbn.
        rewrite length_insert. split; [done|]. split; [|done].
        destruct (Forall2_lookup_r _ _ _ _ _ Hdesc Hi) as (body & Hbody & Hd).
        rewrite <- (list_insert_id _ _ _ Hbody). apply Forall2_insert; [done|].
        exact (descends_begin _ _ _ _ Hd).
    + by exists main, workers.
    + destruct i as [|j]; cbn in Hi; [discriminate Hi|].
      exists main, (<[j := Running (k (check_outcome cmd seconds out))]> workers). cbn.
      rewrite length_insert. split; [done|]. split; [|done].
      destruct (Forall2_lookup_r _ _ _ _ _ Hdesc Hi) as (body & Hbody & Hd).
      rewrite <- (list_insert_id _ _ _ Hbody). apply Forall2_insert; [done|].
      exact (descends_end _ _ _ _ _ Hd).
Qed.

Lemma launch_reach n (start : nat -> prog (list nat)) (bodies : nat -> list (prog unit))
    w0 st :
  (forall s, starts (bodies s) (start s) []) ->
  (forall s, Forall (fun body => balanced s body 0) (bodies s)) ->
  steps (w0, [Running (thread_limiter ← BoundedSemaphore n;
                       thread_list ← start thread_limiter;
                       for_each thread_list join)]) st ->
  st = (w0, [Running (thread_limiter ← BoundedSemaphore n;
                      thread_list ← start thread_limiter;
                      for_each thread_list join)])
  \/ batch_inv (sems w0) n (length (bodies (length (sems w0)))) st /\
     launch_inv (bodies (length (sems w0))) st.
Proof.
  intros Hstarts Hbal Hsteps.
  remember (w0, [Running (thread_limiter ← BoundedSemaphore n;
                          thread_list ← start thread_limiter;
                          for_each thread_list join)]) as st0 eqn:Hst0.
  induction Hsteps as [st|st0 st1 st2 Hsteps IH Hstep]; [by left|].
  right. destruct (IH Hst0) as [->|[Hinv Hlaunch]];
    [|split; [by eapply batch_inv_step|by eapply launch_inv_step]].
  subst st0. clear IH Hsteps.
  inversion Hstep as [E w1 pool i p w' p' Hi Hnext|w1 pool i p body p' Hi Hnext
                     |w1 pool i p t Hi Hnext|w1 pool i cmd seconds k m Hi
                     |w1 pool i cmd seconds k out Hi]; subst;
    destruct i as [|i]; try discriminate Hi; injection Hi as <-; try discriminate Hnext.
  cbn in Hnext. destruct (n <? 0)%Z eqn:Hn; injection Hnext as <- <-.
  - split; [apply batch_failed; [done|]; by apply Z.ltb_lt|].
    by exists (Raise (ValueError "semaphore initial value must be >= 0")), [].
  - apply Z.ltb_ge in Hn. split.
    + apply (batch_running _ _ _ _ _ [] n []); auto.
      * cbn. lia.
      * left. exists (bodies (length (sems w0))), (start (length (sems w0))).
        repeat split; auto.
    + eexists _, []. split; [reflexivity|]. split; [constructor|].
      cbn [length drop]. eapply starts_launches. apply Hstarts.
Qed.

Lemma passed_archived self context repos :
  (if token_truthy (token self) && String.eqb context PERSONAL_CONTEXT
   then List.filter
          (fun repo => bool_decide (Some (Str.lower (login (owner repo)))
                                    = authenticated_username self)) repos
   else repos)
  = List.filter (archived self context) repos.
Proof.
  unfold archived.
  destruct (token_truthy (token self)), (String.eqb context PERSONAL_CONTEXT); cbn.
  - apply filter_ext. intros repo. by rewrite andb_true_r, negb_involutive.
  - symmetry. apply filter_all. intros repo. by rewrite andb_false_r.
  - symmetry. by apply filter_all.
  - symmetry. by apply filter_all.
Qed.

(** C7. Under every interleaving of a call of [iterate_repos_to_archive],
    the threads of the pool besides the caller are, in the order of the
    list, threads of [archive_repo] for the first so many of the repos that
    pass the owner check, each on its path under [repos/<owner>/<name>],
    and once the call has returned there is one for every repo that passes
    and none for any other.  With a token and in the personal context the
    repos that pass are those whose lowercased owner login is the
    authenticated username; in the user and org contexts (and without a
    token) every repo passes. *)
Theorem owner_filter_personal_only self repos context operation w0 w pool :
  steps (w0, [Running (iterate_repos_to_archive self repos context operation)]) (w, pool) ->
  let passed :=
    if token_truthy (token self) && String.eqb context PERSONAL_CONTEXT
    then List.filter
           (fun repo => bool_decide (Some (Str.lower (login (owner repo)))
                                     = authenticated_username self)) repos
    else repos in
  exists main workers started,
    pool = Running main :: workers /\
    started `prefix_of` passed /\
    Forall2 (fun repo t =>
               descends (archive_repo self (length (sems w0)) repo (repo_path self repo)
                                      operation) t)
            started workers /\
    (main = Ret tt -> started = passed).
Proof.
  intros Hsteps. cbn zeta. rewrite passed_archived.
  destruct (launch_reach _ _ (fun s => repo_bodies self s repos context operation) _ _
              (fun s => start_repo_threads_archived self s context operation repos [])
              (fun s => balanced_repo_bodies self s repos context operation) Hsteps)
    as [[= -> ->]|[_ (main & workers & Hpool & Hdesc & Hlaunch)]].
  - eexists _, [], []. split; [reflexivity|]. split; [apply prefix_nil|].
    split; [constructor|]. intros [=].
  - cbn in Hpool. subst pool. unfold repo_bodies in Hdesc, Hlaunch.
    exists main, workers, (take (length workers) (List.filter (archived self context) repos)).
    split; [done|]. split; [apply prefix_take|]. split.
    + rewrite <- fmap_take in Hdesc. exact (proj1 (Forall2_fmap_l _ descends _ _) Hdesc).
    + intros ->. cbn in Hlaunch. rewrite <- fmap_drop in Hlaunch.
      apply fmap_nil_inv in Hlaunch. apply take_ge.
      apply drop_nil_inv in Hlaunch. exact Hlaunch.
Qed.

Lemma owner_filter_personal_only_witness :
  exists main workers started,
    Personal.final.2 = Running main :: workers /\
    started `prefix_of` [Fixture.alice_r1] /\
    Forall2 (fun repo t =>
               descends (archive_repo Personal.self 1 repo (repo_path Personal.self repo)
                                      CLONE_OPERATION) t)
            started workers /\
    (main = Ret tt -> started = [Fixture.alice_r1]).
Proof.
  apply (owner_filter_personal_only Personal.self [Fixture.alice_r1; Fixture.orgx_r2]
           PERSONAL_CONTEXT CLONE_OPERATION Fixture.fresh Personal.final.1 Personal.final.2).
  apply (sched_run_sound Personal.schedule). vm_compute. reflexivity.
Defined.

(** The run of the example ends with the caller returned and one worker,
    which was the clone of [alice/r1]. *)
Example personal_pass_pool :
  map finished Personal.final.2 = [true; true] /\
  Personal.final.2 !! 0%nat = Some (Running (Ret tt)) /\
  trace Personal.final.1
  = [EvSubprocess "git clone git@host:alice/r1.git /archive/repos/alice/r1" 30;
     EvLog INFO "Repo: r1 clone success!"].
Proof. vm_compute. repeat split; reflexivity. Qed.

(** ** The rollback among other threads *)

(** Every step is the step of some choice. *)
Lemma step_sched_step st st' : step st st' -> exists c, sched_step c st = Some st'.
Proof.
  intros Hstep.
  inversion Hstep as [E w1 pool i p w' p' Hi Hnext|w1 pool i p body p' Hi Hnext
                     |w1 pool i p t Hi Hnext|w1 pool i cmd seconds k m Hi
                     |w1 pool i cmd seconds k out Hi]; subst.
  - exists (DoOp E i). cbn. by rewrite Hi, Hnext.
  - exists (DoStart i). cbn. by rewrite Hi, Hnext.
  - exists (DoSubprocessBegin i). cbn. by rewrite Hi, Hnext.
  - exists (DoSubprocessWrite i m). cbn. by rewrite Hi.
  - exists (DoSubprocessEnd i out). cbn. by rewrite Hi.
Qed.














(** ** The configured lists *)

Lemma concat_cons sep x y l :
  String.concat sep (x :: y :: l) = x +:+ sep +:+ String.concat sep (y :: l).
Proof. reflexivity. Qed.

Lemma concat_split sep s :
  String.concat (String sep EmptyString) (Str.split sep s) = s.
Proof.
  induction s as [|c s IH]; [reflexivity|].
  rewrite split_cons.
  destruct (Str.split sep s) as [|w ws] eqn:Hs; [by apply split_nonempty in Hs|].
  destruct (Ascii.eqb c sep) eqn:Hc.
  - apply Ascii.eqb_eq in Hc as ->. by rewrite concat_cons, IH.
  - destruct ws as [|w' ws].
    + cbn in IH |- *. by rewrite IH.
    + rewrite concat_cons in IH |- *. by rewrite append_cons, IH.
Qed.

Lemma split_no_sep sep s x c :
  x ∈ Str.split sep s -> In c (list_ascii_of_string x) -> c <> sep.
Proof.
  revert x. induction s as [|d s IH]; intros x.
  - cbn. by intros ->%list_elem_of_singleton.
  - rewrite split_cons.
    destruct (Str.split sep s) as [|w ws] eqn:Hs; [by apply split_nonempty in Hs|].
    destruct (Ascii.eqb d sep) eqn:Hd.
    + intros [->|Hx]%elem_of_cons; [done|]. by apply IH.
    + intros [->|Hx]%elem_of_cons.
      * cbn. intros [<-|Hc]; [by apply Ascii.eqb_neq in Hd|].
        apply (IH w); [by left|done].
      * apply IH. by right.
Qed.

(** X1: nothing of a configured list is lost at the boundary.  Joined with
    commas again, the entries of [users], [orgs] or [gists] are the argument
    in lower case; no entry holds a comma; blanks around an entry are kept
    (they go only when the forge is asked); the list is truthy exactly when
    the argument is, and [None] and the empty string give the empty value. *)
Theorem split_argument_round_trip s :
  String.concat "," (split_argument (Some s)) = Str.lower s /\
  list_truthy (split_argument (Some s)) = Str.nonempty s /\
  (forall x c, x ∈ split_argument (Some s) ->
     In c (list_ascii_of_string x) -> c <> ","%char) /\
  split_argument None = [] /\ split_argument (Some "") = [].
Proof.
  unfold split_argument. destruct s as [|c s]; [by repeat split; intros ? ? ?%elem_of_nil|].
  cbn [Str.nonempty]. split; [apply concat_split|]. split.
  - pose proof (split_nonempty ","%char (Str.lower (String c s))) as Hne.
    by destruct (Str.split _ _).
  - split; [|done]. intros x d. apply split_no_sep.
Qed.

Example split_argument_keeps_blanks :
  split_argument (Some "Alice, Bob ,,carol") = ["alice"; " bob "; ""; "carol"].
Proof. reflexivity. Qed.
(** ** The requests to the forge *)

(** One pass of [fetch_each] over names that are all answered. *)
Lemma exec_fetch_each E {X} (fetch : string -> prog (list X)) request ask what names :
  (forall n w done,
     exec E (fetch n) w done
     = (record w (request n), done,
        match ask n with inr l => Returned l | inl e => Raised e end)) ->
  (forall user, user ∈ names -> exists l, ask (Str.strip user) = inr l) ->
  forall all w done,
    exec E (fetch_each fetch what names all) w done
    = (record_all w (fetched request what names), done,
       Returned (all ++ map (fun user =>
                   match ask (Str.strip user) with inr l => l | inl _ => [] end) names)).
Proof.
  intros Hfetch. induction names as [|user rest IH]; intros Hok all w done.
  - cbn. by rewrite record_all_nil, app_nil_r.
  - cbn [fetch_each]. rewrite exec_bind, Hfetch.
    destruct (Hok user) as [l Hl]; [by left|]. rewrite Hl.
    rewrite exec_bind. cbn [LOGGER perform exec exec_op].
    rewrite IH by (intros u Hu; apply Hok; by right).
    unfold fetched. cbn [flat_map map]. rewrite Hl.
    rewrite <- app_assoc. cbn [app].
    by rewrite !record_record_all.
Qed.

(** The pass stops at the first name the forge refuses. *)
Lemma exec_fetch_each_refused E {X} (fetch : string -> prog (list X)) request ask what
    before user after e :
  (forall n w done,
     exec E (fetch n) w done
     = (record w (request n), done,
        match ask n with inr l => Returned l | inl e => Raised e end)) ->
  (forall u, u ∈ before -> exists l, ask (Str.strip u) = inr l) ->
  ask (Str.strip user) = inl e ->
  forall all w done,
    exec E (fetch_each fetch what (before ++ user :: after) all) w done
    = (record_all w (fetched request what before ++ [request (Str.strip user)]), done,
       Raised e).
Proof.
  intros Hfetch Hok He. induction before as [|u rest IH]; intros all w done.
  - cbn [app fetch_each]. rewrite exec_bind, Hfetch, He. unfold fetched. cbn.
    by rewrite <- record_record_all, record_all_nil.
  - cbn [app fetch_each]. rewrite exec_bind, Hfetch.
    destruct (Hok u) as [l Hl]; [by left|]. rewrite Hl.
    rewrite exec_bind. cbn [LOGGER perform exec exec_op].
    rewrite IH by (intros u' Hu; apply Hok; by right).
    unfold fetched. cbn [flat_map app]. by rewrite !record_record_all.
Qed.

Lemma exec_get_all E {X} (op_of : string -> op (exn + list X)) request ask what names w done :
  (forall fin n w, exec_op E fin (op_of n) w = Some (record w (request n), ask n)) ->
  (forall user, user ∈ names -> exists l, ask (Str.strip user) = inr l) ->
  exec E (all ← fetch_each (fun n => r ← perform (op_of n); unwrap r) what names [];
          Ret (concat all)) w done
  = (record_all w (fetched request what names), done, Returned (answers ask names)).
Proof.
  intros Hop Hok. rewrite exec_bind.
  rewrite (exec_fetch_each E _ request ask); [|
    intros n w1 done1; cbn; rewrite Hop; by destruct (ask n)|done].
  cbn. unfold answers. by rewrite flat_map_concat_map.
Qed.

(** X2: each of [get_all_user_repos], [get_all_org_repos] and
    [get_all_gists] asks the forge once per configured name, in the order of
    the list and for the name without the blanks around it, logs a DEBUG
    line after each answer, and returns the answers flattened in that order;
    it does nothing else.  With an empty list it asks nothing and returns
    the empty list. *)
Theorem get_all_flattens_in_order E self w done :
  ((forall user, user ∈ users self ->
      exists l, forge_user_repos E (token self) (Str.strip user) = inr l) ->
   exec E (get_all_user_repos self) w done
   = (record_all w (fetched (EvForgeUserRepos (token self)) " repos retrieved!" (users self)),
      done, Returned (answers (forge_user_repos E (token self)) (users self)))) /\
  ((forall org, org ∈ orgs self ->
      exists l, forge_org_repos E (token self) (Str.strip org) = inr l) ->
   exec E (get_all_org_repos self) w done
   = (record_all w (fetched (EvForgeOrgRepos (token self)) " repos retrieved!" (orgs self)),
      done, Returned (answers (forge_org_repos E (token self)) (orgs self)))) /\
  ((forall user, user ∈ gists self ->
      exists l, forge_user_gists E (token self) (Str.strip user) = inr l) ->
   exec E (get_all_gists self) w done
   = (record_all w (fetched (EvForgeUserGists (token self)) " gists retrieved!" (gists self)),
      done, Returned (answers (forge_user_gists E (token self)) (gists self)))).
Proof.
  repeat split; intros Hok.
  - by apply (exec_get_all E (ForgeUserRepos (token self))).
  - by apply (exec_get_all E (ForgeOrgRepos (token self))).
  - by apply (exec_get_all E (ForgeUserGists (token self))).
Qed.

Lemma exec_get_all_refused E {X} (op_of : string -> op (exn + list X)) request ask what
    before user after e w done :
  (forall fin n w, exec_op E fin (op_of n) w = Some (record w (request n), ask n)) ->
  (forall u, u ∈ before -> exists l, ask (Str.strip u) = inr l) ->
  ask (Str.strip user) = inl e ->
  exec E (all ← fetch_each (fun n => r ← perform (op_of n); unwrap r) what
                   (before ++ user :: after) [];
          Ret (concat all)) w done
  = (record_all w (fetched request what before ++ [request (Str.strip user)]), done, Raised e).
Proof.
  intros Hop Hok He. rewrite exec_bind.
  rewrite (exec_fetch_each_refused E _ request ask what before user after e); [done| |done..].
  intros n w1 done1. cbn. rewrite Hop. by destruct (ask n).
Qed.

Example get_all_strips_names :
  exec Sample.forge (get_all_user_repos (Fixture.config true false false [" bob "; "alice"] None))
       Fixture.fresh []
  = (record_all Fixture.fresh
       [EvForgeUserRepos None "bob"; EvLog DEBUG "bob repos retrieved!";
        EvForgeUserRepos None "alice"; EvLog DEBUG "alice repos retrieved!"],
     [], Returned [Fixture.bob_repo1; Fixture.alice_r1]).
Proof. reflexivity. Qed.

(** X3: when the forge refuses a name, the exception leaves
    [get_all_user_repos] ([get_all_org_repos], [get_all_gists]) as it is:
    the names before it were asked and logged, the names after it are never
    asked, and what was fetched so far is dropped. *)
Theorem get_all_stops_at_refusal E self w done before name after e :
  ((forall u, u ∈ before ->
      exists l, forge_user_repos E (token self) (Str.strip u) = inr l) ->
   forge_user_repos E (token self) (Str.strip name) = inl e ->
   users self = before ++ name :: after ->
   exec E (get_all_user_repos self) w done
   = (record_all w (fetched (EvForgeUserRepos (token self)) " repos retrieved!" before
                    ++ [EvForgeUserRepos (token self) (Str.strip name)]),
      done, Raised e)) /\
  ((forall u, u ∈ before ->
      exists l, forge_org_repos E (token self) (Str.strip u) = inr l) ->
   forge_org_repos E (token self) (Str.strip name) = inl e ->
   orgs self = before ++ name :: after ->
   exec E (get_all_org_repos self) w done
   = (record_all w (fetched (EvForgeOrgRepos (token self)) " repos retrieved!" before
                    ++ [EvForgeOrgRepos (token self) (Str.strip name)]),
      done, Raised e)) /\
  ((forall u, u ∈ before ->
      exists l, forge_user_gists E (token self) (Str.strip u) = inr l) ->
   forge_user_gists E (token self) (Str.strip name) = inl e ->
   gists self = before ++ name :: after ->
   exec E (get_all_gists self) w done
   = (record_all w (fetched (EvForgeUserGists (token self)) " gists retrieved!" before
                    ++ [EvForgeUserGists (token self) (Str.strip name)]),
      done, Raised e)).
Proof.
  repeat split; intros Hok He Hnames;
    unfold get_all_user_repos, get_all_org_repos, get_all_gists; rewrite Hnames.
  - by apply (exec_get_all_refused E (ForgeUserRepos (token self))
                (EvForgeUserRepos (token self)) (forge_user_repos E (token self))).
  - by apply (exec_get_all_refused E (ForgeOrgRepos (token self))
                (EvForgeOrgRepos (token self)) (forge_org_repos E (token self))).
  - by apply (exec_get_all_refused E (ForgeUserGists (token self))
                (EvForgeUserGists (token self)) (forge_user_gists E (token self))).
Qed.

Example get_all_refused_in_the_middle :
  exec Sample.forge
       (get_all_user_repos (Fixture.config true false false ["bob"; "ghost"; "alice"] None))
       Fixture.fresh []
  = (record_all Fixture.fresh
       [EvForgeUserRepos None "bob"; EvLog DEBUG "bob repos retrieved!";
        EvForgeUserRepos None "ghost"],
     [], Raised Sample.unknown).
Proof. reflexivity. Qed.
(** ** Viewing *)

Lemma observes_ret E {A} (a : A) (Q : A -> Prop) : Q a -> observes E (Ret a) Q.
Proof.
  intros Ha w done. cbn. repeat split; auto. exists []. by rewrite app_nil_r.
Qed.

Lemma observes_raise E {A} e (Q : A -> Prop) : observes E (Raise e) Q.
Proof.
  intros w done. cbn. repeat split; auto. exists []. by rewrite app_nil_r.
Qed.

Lemma observes_bind E {A B} (p : prog A) (f : A -> prog B) Q R :
  observes E p Q -> (forall a, Q a -> observes E (f a) R) -> observes E (p ≫= f) R.
Proof.
  intros Hp Hf w done. rewrite exec_bind. specialize (Hp w done).
  destruct (exec E p w done) as [[w1 done1] [a|e|]].
  - destruct Hp as (Hfs & Hcwd & Hsems & -> & (evs & Htr & Hq) & Ha).
    specialize (Hf a Ha w1 done).
    destruct (exec E (f a) w1 done) as [[w2 done2] r].
    destruct Hf as (Hfs2 & Hcwd2 & Hsems2 & -> & (evs2 & Htr2 & Hq2) & Hr).
    split; [congruence|]. split; [congruence|]. split; [congruence|].
    split; [done|]. split; [|done].
    exists (evs ++ evs2). rewrite Htr2, Htr, app_assoc. split; [done|].
    by rewrite forallb_app, Hq, Hq2.
  - exact Hp.
  - exact Hp.
Qed.

Lemma observes_weaken E {A} (p : prog A) (Q R : A -> Prop) :
  observes E p Q -> (forall a, Q a -> R a) -> observes E p R.
Proof.
  intros Hp HQR w done. specialize (Hp w done).
  destruct (exec E p w done) as [[w1 done1] [a|e|]]; [|done..].
  destruct Hp as (? & ? & ? & ? & ? & ?). repeat split; auto.
Qed.

Lemma observes_log E lvl msg : observes E (LOGGER lvl msg) (fun _ => True).
Proof.
  intros w done. cbn. repeat split; auto. by exists [EvLog lvl msg].
Qed.

Lemma observes_when E c p :
  (c = true -> observes E p (fun _ => True)) -> observes E (when c p) (fun _ => True).
Proof. destruct c; cbn; [auto|]. intros _. by apply observes_ret. Qed.

Lemma observes_for_each E {X} (l : list X) body :
  (forall x, observes E (body x) (fun _ => True)) ->
  observes E (for_each l body) (fun _ => True).
Proof.
  intros Hbody. induction l as [|x l IH]; cbn [for_each].
  - by apply observes_ret.
  - eapply observes_bind; [apply Hbody|]. intros _ _. apply IH.
Qed.

Lemma observes_view_repos E repos : observes E (view_repos repos) (fun _ => True).
Proof. apply observes_for_each. intros repo. apply observes_log. Qed.

Lemma observes_view_gists E gists : observes E (view_gists gists) (fun _ => True).
Proof. apply observes_for_each. intros gist. apply observes_log. Qed.

Lemma observes_fetch_each E {X} (fetch : string -> prog (list X)) what names all :
  (forall n, observes E (fetch n) (fun _ => True)) ->
  observes E (fetch_each fetch what names all) (fun _ => True).
Proof.
  intros Hfetch. revert all. induction names as [|user rest IH]; intros all; cbn [fetch_each].
  - by apply observes_ret.
  - eapply observes_bind; [apply Hfetch|]. intros found _.
    eapply observes_bind; [apply observes_log|]. intros _ _. apply IH.
Qed.

Lemma observes_unwrap E {X} (r : exn + X) : observes E (unwrap r) (fun _ => True).
Proof. destruct r; [apply observes_raise|by apply observes_ret]. Qed.

Lemma observes_ask E {X} (o : op (exn + X)) ev ans :
  (forall fin w, exec_op E fin o w = Some (record w ev, ans)) ->
  is_subprocess_event ev = false ->
  observes E (r ← perform o; unwrap r) (fun _ => True).
Proof.
  intros Hop Hev w done. cbn. rewrite Hop. 
  assert (Hevs : exists evs, trace (record w ev) = trace w ++ evs /\
            forallb (fun ev => negb (is_subprocess_event ev)) evs = true).
  { exists [ev]. cbn. by rewrite Hev. }
  destruct ans; cbn; repeat split; auto.
Qed.

Lemma observes_get_all E self :
  observes E (get_personal_repos self) (fun _ => True) /\
  observes E (get_all_user_repos self) (fun _ => True) /\
  observes E (get_all_org_repos self) (fun _ => True) /\
  observes E (get_all_gists self) (fun _ => True).
Proof.
  repeat split.
  - eapply observes_bind; [eapply observes_ask; [reflexivity|done]|]. intros repos _.
    eapply observes_bind; [apply observes_log|]. intros _ _. by apply observes_ret.
  - eapply observes_bind; [|intros; by apply observes_ret].
    apply observes_fetch_each. intros n. eapply observes_ask; [reflexivity|done].
  - eapply observes_bind; [|intros; by apply observes_ret].
    apply observes_fetch_each. intros n. eapply observes_ask; [reflexivity|done].
  - eapply observes_bind; [|intros; by apply observes_ret].
    apply observes_fetch_each. intros n. eapply observes_ask; [reflexivity|done].
Qed.

Lemma observes_datetime_now E : observes E (perform DatetimeNow) (fun _ => True).
Proof. intros w done. cbn. repeat split; auto. exists []. by rewrite app_nil_r. Qed.

Lemma observes_str_elapsed E start : observes E (perform (StrElapsed start)) (fun _ => True).
Proof. intros w done. cbn. repeat split; auto. exists []. by rewrite app_nil_r. Qed.

Lemma exec_setup_logging_bind E {B} loc (f : unit -> prog B) w done :
  exec E (perform (SetupLogging loc) ≫= f) w done
  = exec E (f tt)
         (set_fs (record w (EvSetupLogging loc))
                 (setup_logging E (Fs.resolve (cwd w) loc) (fs w))) done.
Proof. reflexivity. Qed.

(** Everything [run] does after [initialize_project] and the set-up of the
    log, when neither [clone] nor [pull] is asked for. *)
Lemma observes_view_only E self :
  clone self = false -> pull self = false ->
  exists rest,
    run self = (initialize_project self ≫= fun _ =>
                perform (SetupLogging (location self)) ≫= fun _ => rest) /\
    observes E rest (fun _ => True).
Proof.
  intros Hclone Hpull. eexists. split; [reflexivity|].
  destruct (observes_get_all E self) as (Hpersonal & _).
  eapply observes_bind; [apply observes_log|]. intros _ _.
  eapply observes_bind; [apply observes_datetime_now|]. intros start_time _.
  eapply (observes_bind _ _ _ (fun self0 => clone self0 = false /\ pull self0 = false)).
  { destruct (_ && _ && _); [|apply observes_ret; by split].
    eapply observes_bind; [apply observes_log|]. intros _ _.
    eapply observes_bind; [apply Hpersonal|]. intros repos _.
    rewrite Hclone, Hpull.
    eapply observes_bind.
    { apply observes_when. intros _.
      eapply observes_bind; [apply observes_log|]. intros _ _. apply observes_view_repos. }
    intros _ _. eapply observes_bind; [apply observes_when; intros [=]|]. intros _ _.
    eapply observes_bind; [apply observes_when; intros [=]|]. intros _ _.
    eapply observes_bind; [apply observes_unwrap|]. intros remaining _.
    apply observes_ret. by split. }
  intros self0 [Hclone0 Hpull0]. rewrite Hclone0, Hpull0.
  destruct (observes_get_all E self0) as (_ & Husers & Horgs & Hgists).
  eapply observes_bind.
  { apply observes_when. intros _.
    eapply observes_bind; [apply observes_log|]. intros _ _.
    eapply observes_bind; [apply Husers|]. intros repos _.
    eapply observes_bind.
    { apply observes_when. intros _.
      eapply observes_bind; [apply observes_log|]. intros _ _. apply observes_view_repos. }
    intros _ _. eapply observes_bind; [apply observes_when; intros [=]|]. intros _ _.
    apply observes_when. intros [=]. }
  intros _ _. eapply observes_bind.
  { apply observes_when. intros _.
    eapply observes_bind; [apply observes_log|]. intros _ _.
    eapply observes_bind; [apply Horgs|]. intros repos _.
    eapply observes_bind.
    { apply observes_when. intros _.
      eapply observes_bind; [apply observes_log|]. intros _ _. apply observes_view_repos. }
    intros _ _. eapply observes_bind; [apply observes_when; intros [=]|]. intros _ _.
    apply observes_when. intros [=]. }
  intros _ _. eapply observes_bind.
  { apply observes_when. intros _.
    eapply observes_bind; [apply observes_log|]. intros _ _.
    eapply observes_bind; [apply Hgists|]. intros gists _.
    eapply observes_bind.
    { apply observes_when. intros _.
      eapply observes_bind; [apply observes_log|]. intros _ _. apply observes_view_gists. }
    intros _ _. eapply observes_bind; [apply observes_when; intros [=]|]. intros _ _.
    apply observes_when. intros [=]. }
  intros _ _. eapply observes_bind; [apply observes_str_elapsed|]. intros elapsed _.
  apply observes_log.
Qed.

Lemma exec_view_gists E gists w done :
  exec E (view_gists gists) w done
  = (record_all w (map (fun gist =>
                     EvLog INFO (login (gist_owner gist) +:+ ("/" +:+ gist_id gist))) gists),
     done, Returned tt).
Proof.
  unfold view_gists. revert w. induction gists as [|gist rest IH]; intros w.
  - cbn. by rewrite record_all_nil.
  - cbn [for_each]. rewrite exec_bind. cbn. rewrite IH. by rewrite record_record_all.
Qed.

(** X4: [view_repos] and [view_gists] log one INFO line per element, in the
    order of the list, made of the owner's login as the forge spells it (not
    lowered, unlike the local path), a slash and the repo name or gist id;
    they always return and change nothing else. *)
Theorem view_logs_one_line_each E w done :
  (forall repos,
     exec E (view_repos repos) w done
     = (record_all w (map (fun repo =>
                        EvLog INFO (login (owner repo) +:+ ("/" +:+ name repo))) repos),
        done, Returned tt)) /\
  (forall gists,
     exec E (view_gists gists) w done
     = (record_all w (map (fun gist =>
                        EvLog INFO (login (gist_owner gist) +:+ ("/" +:+ gist_id gist))) gists),
        done, Returned tt)).
Proof. split; intros l; [apply exec_view_repos|apply exec_view_gists]. Qed.

(** X5: a run that is asked neither to clone nor to pull only looks.  It
    spawns no child process, makes no semaphore, starts no thread and never
    waits, whatever the forge answers.  The only changes to the filesystem
    are the directory bootstrap of [initialize_project] and, once
    [initialize_project] has returned, what the set-up of the log at line 54
    makes under the location; a run that finds the root directory in place
    leaves every path but those of the log as it was. *)
Theorem view_only_run_only_looks E self w done :
  clone self = false -> pull self = false ->
  let '(w', done', r) := exec E (run self) w done in
  let w1 := (bootstrap w (location self)).1 in
  fs w' = match (bootstrap w (location self)).2, validation_error self with
          | None, None =>
              setup_logging E (Fs.resolve (cwd w) (location self)) (fs w1)
          | _, _ => fs w1
          end /\
  (Fs.path_exists w (location self) = true -> fs w1 = fs w) /\
  cwd w' = cwd w /\ sems w' = sems w /\ done' = done /\ r <> Blocked /\
  exists evs, trace w' = trace w ++ evs /\
              forallb (fun ev => negb (is_subprocess_event ev)) evs = true.
Proof.
  intros Hclone Hpull.
  destruct (observes_view_only E self Hclone Hpull) as (rest & -> & Hrest).
  rewrite exec_bind, exec_initialize_project.
  destruct (bootstrap w (location self)) as [w1 err] eqn:Hb.
  destruct (bootstrap_frame _ _ _ _ Hb) as (Hc & Hs & Ht).
  assert (Hex : Fs.path_exists w (location self) = true -> fs w1 = fs w).
  { intros Hex. rewrite (bootstrap_present _ _ Hex) in Hb. by injection Hb as <- _. }
  cbn [fst snd]. destruct err as [e|].
  - split; [done|]. split; [done|]. split; [done|]. split; [done|]. split; [done|].
    split; [done|]. exists []. by rewrite app_nil_r, Ht.
  - destruct (validation_error self) as [message|].
    + split; [done|]. split; [done|]. split; [done|]. split; [done|]. split; [done|].
      split; [done|]. exists [EvLog CRITICAL message]. cbn. by rewrite Ht.
    + rewrite exec_setup_logging_bind.
      match goal with |- context [exec E rest ?w2 done] =>
        specialize (Hrest w2 done); destruct (exec E rest w2 done) as [[w' done'] r]
      end.
      destruct Hrest as (Hfs & Hcwd & Hsems & -> & (evs & Htr & Hq) & Hr).
      cbn [fs cwd sems trace set_fs record] in Hfs, Hcwd, Hsems, Htr.
      split; [by rewrite Hfs, Hc|]. split; [done|].
      split; [congruence|]. split; [congruence|]. split; [done|].
      split; [by destruct r|].
      exists (EvSetupLogging (location self) :: evs).
      rewrite Htr, Ht, <- app_assoc. split; [done|]. cbn. exact Hq.
Qed.

Lemma view_only_run_only_looks_witness :
  let '(w', done', r) :=
    exec Sample.forge (run (Fixture.config true false false ["bob"; "alice"] None))
         Fixture.fresh [] in
  fs w' = Fixture.log_file ["archive"] (fs Fixture.fresh) /\
  cwd w' = cwd Fixture.fresh /\ sems w' = sems Fixture.fresh /\ done' = [] /\ r <> Blocked /\
  exists evs, trace w' = trace Fixture.fresh ++ evs /\
              forallb (fun ev => negb (is_subprocess_event ev)) evs = true.
Proof.
  pose proof (view_only_run_only_looks Sample.forge
                (Fixture.config true false false ["bob"; "alice"] None) Fixture.fresh []
                eq_refl eq_refl) as H.
  destruct (exec Sample.forge _ Fixture.fresh []) as [[w' done'] r].
  destruct H as (Hfs & _ & H). split; [exact Hfs|exact H].
Defined.

(** ** The other ways through [archive_repo] and [archive_gist] *)

Lemma archive_key_error E commands seconds lim path operation success timed_out failed w done :
  String.eqb operation CLONE_OPERATION = false ->
  commands !! operation = None ->
  exec E (archive commands seconds lim path operation success timed_out failed) w done
  = (w, done, Raised (KeyError operation)).
Proof.
  intros Hop Hcmd. unfold archive, os_path_exists, perform. cbn.
  by rewrite Hop, andb_false_r, Hcmd.
Qed.

(** X6: an operation that is neither [clone] nor [pull] is a [KeyError]
    of the dictionary of commands: [archive_repo] and [archive_gist] raise
    it before the permit is asked for, so nothing is spawned, logged,
    written or taken. *)
Theorem archive_unknown_operation E self thread_limiter path operation w done :
  operation <> CLONE_OPERATION -> operation <> PULL_OPERATION ->
  (forall repo,
     exec E (archive_repo self thread_limiter repo path operation) w done
     = (w, done, Raised (KeyError operation))) /\
  (forall gist,
     exec E (archive_gist self thread_limiter gist path operation) w done
     = (w, done, Raised (KeyError operation))).
Proof.
  intros Hclone Hpull.
  assert (Heqb : String.eqb operation CLONE_OPERATION = false) by by apply String.eqb_neq.
  split; intros target; apply archive_key_error; try done.
  - destruct (repo_commands target path !! operation) eqn:Hcmd; [|done].
    destruct (proj1 (proj1 (operation_of_commands target Fixture.gist1 path operation)))
      as [?|?]; [by eexists|done..].
  - destruct (gist_commands target path !! operation) eqn:Hcmd; [|done].
    destruct (proj1 (proj2 (operation_of_commands Fixture.bob_repo1 target path operation)))
      as [?|?]; [by eexists|done..].
Qed.

Lemma archive_unknown_operation_witness :
  exec Sample.forge
       (archive_repo (Fixture.config false true false ["bob"] None) 0 Fixture.bob_repo1
          "/archive/repos/bob/repo1" "fetch")
       Fixture.fresh []
  = (Fixture.fresh, [], Raised (KeyError "fetch")).
Proof.
  exact (proj1 (archive_unknown_operation Sample.forge
                  (Fixture.config false true false ["bob"] None) 0
                  "/archive/repos/bob/repo1" "fetch" Fixture.fresh []
                  ltac:(discriminate) ltac:(discriminate)) Fixture.bob_repo1).
Defined.

Lemma archive_succeeds E commands seconds lim path operation success timed_out failed
    w done cmd v b :
  Fs.path_exists w path && String.eqb operation CLONE_OPERATION = false ->
  commands !! operation = Some cmd ->
  sems w !! lim = Some (v, b) ->
  (0 < v <= b)%Z ->
  (sh E cmd seconds (fs w)).2 = Exited 0 ->
  exec E (archive commands seconds lim path operation success timed_out failed) w done
  = ({| fs := (sh E cmd seconds (fs w)).1; cwd := cwd w; sems := sems w;
        trace := trace w ++ [EvSubprocess cmd seconds; EvLog INFO success] |},
     done, Returned tt).
Proof.
  intros Hskip Hcmd Hsem [Hv Hvb] Hout.
  unfold archive, os_path_exists, perform. cbn. rewrite Hskip, Hcmd. cbn.
  rewrite Hsem. destruct (Z.ltb_spec 0 v); [|lia]. cbn.
  destruct (sh E cmd seconds (fs w)) as [m out]. cbn in Hout. subst out. cbn.
  assert (Hlim : lim < length (sems w)) by (eapply lookup_lt_Some; eauto).
  rewrite list_lookup_insert_eq by done.
  rewrite (proj2 (Z.leb_gt b (v - 1))) by lia. cbn.
  unfold set_sems, set_fs, record. cbn.
  rewrite list_insert_insert_eq. replace (v - 1 + 1)%Z with v by lia.
  rewrite list_insert_id by done. by rewrite <- app_assoc.
Qed.

(** X7: when the git command exits with status zero, [archive_repo] and
    [archive_gist] return with the filesystem as the command left it (no
    rollback), the permit back in the semaphore, and exactly two events on
    the trace: the command with the configured timeout, then the INFO line
    of success. *)
Theorem archive_success_keeps_the_clone E self thread_limiter path operation w done v b :
  sems w !! thread_limiter = Some (v, b) ->
  (0 < v <= b)%Z ->
  Fs.path_exists w path && String.eqb operation CLONE_OPERATION = false ->
  (forall repo cmd,
     repo_commands repo path !! operation = Some cmd ->
     (sh E cmd (timeout self) (fs w)).2 = Exited 0 ->
     exec E (archive_repo self thread_limiter repo path operation) w done
     = ({| fs := (sh E cmd (timeout self) (fs w)).1; cwd := cwd w; sems := sems w;
           trace := trace w ++
             [EvSubprocess cmd (timeout self);
              EvLog INFO ("Repo: " +:+ name repo +:+ " " +:+ operation +:+ " success!")] |},
        done, Returned tt)) /\
  (forall gist cmd,
     gist_commands gist path !! operation = Some cmd ->
     (sh E cmd (timeout self) (fs w)).2 = Exited 0 ->
     exec E (archive_gist self thread_limiter gist path operation) w done
     = ({| fs := (sh E cmd (timeout self) (fs w)).1; cwd := cwd w; sems := sems w;
           trace := trace w ++
             [EvSubprocess cmd (timeout self);
              EvLog INFO ("Gist: " +:+ gist_id gist +:+ " " +:+ operation +:+ " success!")] |},
        done, Returned tt)).
Proof.
  intros Hsem Hv Hskip. split; intros target cmd Hcmd Hout.
  - by apply (archive_succeeds E _ _ _ _ _ _ _ _ w done cmd v b).
  - by apply (archive_succeeds E _ _ _ _ _ _ _ _ w done cmd v b).
Qed.

Lemma archive_success_keeps_the_clone_witness :
  exec (Fixture.leaving ["archive"; "repos"; "bob"; "repo1"] (Exited 0))
       (archive_repo (Fixture.config false true false ["bob"] None) 0 Fixture.bob_repo1
          "/archive/repos/bob/repo1" CLONE_OPERATION)
       Fixture.fresh []
  = ({| fs := <[["archive"; "repos"; "bob"; "repo1"] := Dir]> (fs Fixture.fresh);
        cwd := []; sems := [(2, 2)%Z];
        trace := [EvSubprocess "git clone git@host:bob/repo1.git /archive/repos/bob/repo1" 30;
                  EvLog INFO "Repo: repo1 clone success!"] |},
     [], Returned tt).
Proof.
  exact (proj1 (archive_success_keeps_the_clone
                  (Fixture.leaving ["archive"; "repos"; "bob"; "repo1"] (Exited 0))
                  (Fixture.config false true false ["bob"] None) 0
                  "/archive/repos/bob/repo1" CLONE_OPERATION Fixture.fresh [] 2 2
                  eq_refl (conj eq_refl (Z.le_refl 2)) ltac:(vm_compute; reflexivity))
               Fixture.bob_repo1 "git clone git@host:bob/repo1.git /archive/repos/bob/repo1"
               ltac:(vm_compute; reflexivity) eq_refl).
Defined.

Lemma get_all_flattens_in_order_witness :
  exec Sample.forge
       (get_all_user_repos (Fixture.config true false false [" bob "; "alice"] None))
       Fixture.fresh []
  = (record_all Fixture.fresh
       (fetched (EvForgeUserRepos None) " repos retrieved!" [" bob "; "alice"]),
     [], Returned [Fixture.bob_repo1; Fixture.alice_r1]).
Proof.
  apply (proj1 (get_all_flattens_in_order Sample.forge
                  (Fixture.config true false false [" bob "; "alice"] None)
                  Fixture.fresh [])).
  intros user [->|[->|[]%elem_of_nil]%elem_of_cons]%elem_of_cons; by eexists.
Defined.

Lemma get_all_stops_at_refusal_witness :
  exec Sample.forge
       (get_all_user_repos (Fixture.config true false false ["bob"; "ghost"; "alice"] None))
       Fixture.fresh []
  = (record_all Fixture.fresh
       [EvForgeUserRepos None "bob"; EvLog DEBUG "bob repos retrieved!";
        EvForgeUserRepos None "ghost"],
     [], Raised Sample.unknown).
Proof.
  apply (proj1 (get_all_stops_at_refusal Sample.forge
                  (Fixture.config true false false ["bob"; "ghost"; "alice"] None)
                  Fixture.fresh [] ["bob"] "ghost" ["alice"] Sample.unknown)).
  - intros u ->%list_elem_of_singleton. by eexists.
  - reflexivity.
  - reflexivity.
Defined.

(** ** No child process without a permit *)

Lemma guarded_finally_rollback s lvl msg path :
  guarded (try_finally (LOGGER lvl msg;; rollback path) (release s)) 1.
Proof.
  cbn. intros _ [|]; cbn; [|done].
  split; [lia|]. intros [e|]; cbn; done.
Qed.

Lemma guarded_archive commands seconds s path operation success timed_out failed :
  guarded (archive commands seconds s path operation success timed_out failed) 0.
Proof.
  unfold archive. cbn. intros e.
  destruct (e && String.eqb operation CLONE_OPERATION); [done|].
  destruct (commands !! operation) as [git_command|]; [|done].
  cbn. split; [done|]. split; [lia|]. intros [err|]; cbn; [|done].
  destruct err; try (cbn; done); apply guarded_finally_rollback.
Qed.

Lemma spawns_bind P {A B} (p : prog A) (f : A -> prog B) :
  spawns P p -> (forall a, spawns P (f a)) -> spawns P (p ≫= f).
Proof.
  unfold mbind, prog_bind. revert B f.
  induction p as [A a|A e|A X o k IH|A body _ k IH]; intros B f Hp Hf; cbn in *; auto.
  split; [apply Hp|]. intros t. apply IH; [apply Hp|done].
Qed.

Lemma spawns_for_each_join P l : spawns P (for_each l join).
Proof. induction l as [|t l IH]; cbn; [done|]. intros _. apply IH. Qed.

Lemma spawns_start_repo_threads self s context operation repos thread_list :
  spawns (fun body => guarded body 0)
         (start_repo_threads self s context operation repos thread_list).
Proof.
  revert thread_list. induction repos as [|repo rest IH]; intros thread_list; [done|].
  cbn [start_repo_threads]. destruct (_ && _ && _); [apply IH|].
  split; [apply guarded_archive|]. intros t. apply IH.
Qed.

Lemma spawns_start_gist_threads self s operation gists thread_list :
  spawns (fun body => guarded body 0)
         (start_gist_threads self s operation gists thread_list).
Proof.
  revert thread_list. induction gists as [|gist rest IH]; intros thread_list; [done|].
  cbn [start_gist_threads]. split; [apply guarded_archive|]. intros t. apply IH.
Qed.

Lemma spawns_iterate self :
  (forall repos context operation,
     spawns (fun body => guarded body 0)
            (iterate_repos_to_archive self repos context operation)) /\
  (forall gists operation,
     spawns (fun body => guarded body 0) (iterate_gists_to_archive self gists operation)).
Proof.
  split; intros.
  - unfold iterate_repos_to_archive. apply spawns_bind; [by intros [|]|]. intros s.
    apply spawns_bind; [apply spawns_start_repo_threads|]. intros l.
    apply spawns_for_each_join.
  - unfold iterate_gists_to_archive. apply spawns_bind; [by intros [|]|]. intros s.
    apply spawns_bind; [apply spawns_start_gist_threads|]. intros l.
    apply spawns_for_each_join.
Qed.

(** The permits in hand are determined by the program. *)
Lemma balanced_unique s {A} (p : prog A) h h' : balanced s p h -> balanced s p h' -> h = h'.
Proof.
  revert h h'. induction p as [A a|A e|A X o k IH|A body _ k IH]; intros h h'; cbn.
  - congruence.
  - congruence.
  - destruct o; cbn;
      try (intros H1 H2; first [exact (IH true _ _ (H1 true) (H2 true))
                               |exact (IH None _ _ (H1 None) (H2 None))
                               |exact (IH tt _ _ (H1 tt) (H2 tt))
                               |exact (IH 0%Z _ _ (H1 0%Z) (H2 0%Z))
                               |exact (IH "" _ _ (H1 "") (H2 ""))
                               |exact (IH (inr []) _ _ (H1 (inr [])) (H2 (inr [])))
                               |exact (IH (inr "") _ _ (H1 (inr "")) (H2 (inr ""))) ]).
    + done.
    + intros [_ H1] [_ H2]. specialize (IH tt _ _ H1 H2). lia.
    + intros [_ H1] [_ H2]. destruct h, h'; try done. by rewrite (IH None _ _ H1 H2).
  - done.
Qed.

Lemma thread_balanced_unique s t h h' :
  thread_balanced s t h -> thread_balanced s t h' -> h = h'.
Proof.
  destruct t as [p|cmd seconds k]; cbn.
  - apply balanced_unique.
  - intros H1 H2. exact (balanced_unique s _ _ _ (H1 None) (H2 None)).
Qed.

Lemma balanced_hs_unique s workers hs hs' :
  Forall2 (thread_balanced s) workers hs -> Forall2 (thread_balanced s) workers hs' ->
  hs = hs'.
Proof.
  intros H. revert hs'. induction H as [|t h workers hs Ht _ IH]; intros hs' H'.
  - by inversion H'.
  - inversion H' as [|t' h' workers' hs0 Ht' Hrest]; subst.
    f_equal; [by eapply thread_balanced_unique|by apply IH].
Qed.

(** A step of a guarded worker whose release, if that is the step, is not
    refused. *)
Lemma guarded_next_op E pool w p w' p' s h :
  balanced s p h -> guarded p h ->
  next_op E pool w p = Some (w', p') ->
  (forall s', next_release (Running p) = Some s' ->
     exists v b, sems w !! s' = Some (v, b) /\ (v < b)%Z) ->
  exists h', balanced s p' h' /\ guarded p' h'.
Proof.
  intros Hbal Hg Hnext Hrel.
  destruct p as [a|e|X o k|body k]; try discriminate Hnext.
  cbn in Hnext. destruct o; cbn in Hnext, Hbal, Hg; try discriminate Hnext.
  all: try (injection Hnext as <- <-; exists h; split; auto; fail).
  - done.
  - destruct Hg as [_ Hg].
    destruct (Fs.rmtree w _); injection Hnext as <- <-; exists h; split; auto.
  - done.
  - destruct Hbal as [-> Hbal]. destruct (sems w !! s) as [[v b]|]; [|done].
    destruct (0 <? v)%Z; [|done]. injection Hnext as <- <-.
    destruct Hg as [-> Hg]. by exists 1.
  - destruct Hbal as [-> Hbal]. destruct h as [|h]; [done|].
    destruct (Hrel s eq_refl) as (v & b & Hs & Hvb). rewrite Hs in Hnext.
    rewrite (proj2 (Z.leb_gt b v)) in Hnext by done.
    injection Hnext as <- <-. by exists h.
  - done.
  - done.
Qed.

Lemma spawns_next_op P E pool w p w' p' :
  spawns P p -> next_op E pool w p = Some (w', p') -> spawns P p'.
Proof.
  destruct p as [a|e|X o k|body k]; try done. cbn. intros Hsp.
  destruct (is_subprocess o); [done|].
  destruct (exec_op E (is_finished pool) o w) as [[w1 x]|]; [|done].
  intros [= <- <-]. apply Hsp.
Qed.

Lemma spawns_next_start P p t body p' :
  spawns P p -> next_start p t = Some (body, p') -> P body /\ spawns P p'.
Proof.
  destruct p as [a|e|X o k|body0 k]; try done. cbn. intros [Hbody Hsp] [= <- <-]. auto.
Qed.

Lemma guarded_next_subprocess s p t h :
  balanced s p h -> guarded p h -> next_subprocess p = Some t -> thread_guarded s t h.
Proof.
  intros Hbal Hg Hnext. split; [by eapply balanced_next_subprocess|].
  destruct p as [a|e|X o k|body k]; try done.
  destruct o; try done. cbn in Hnext. injection Hnext as <-. exact Hg.
Qed.

(** One step keeps the pool guarded.  What is known of the state before
    the step is the invariant of the batch, or that the batch has not made
    its semaphore yet. *)
Lemma pool_guarded_step sems0 b total st st' :
  pool_guarded (length sems0) st.2 ->
  batch_inv sems0 b total st \/ (exists w n k, st = (w, [Running (Op (NewBoundedSemaphore n) k)])) ->
  step st st' ->
  pool_guarded (length sems0) st'.2.
Proof.
  intros (main & workers & hs & Hpool & Hsp & Hws) Hknown Hstep.
  assert (Hmain : workers = [] /\ next_start main (S (length workers)) = None
                  /\ next_subprocess main = None
                  \/ batch_inv sems0 b total st /\
                     (starting (length sems0) total main workers \/ joining total main workers)).
  { destruct Hknown as [Hinv|(w & n & k & ->)].
    - inversion Hinv as [w1 e Hsems Hb Hst|w1 main1 workers1 v hs1 Hsems Hws1 Hv Hsum Hm Hst];
        subst st; cbn in Hpool.
      + injection Hpool as <- <-. by left.
      + injection Hpool as <- <-. by right.
    - cbn in Hpool. injection Hpool as <- <-. by left. }
  inversion Hstep as [E w1 pool i p w' p' Hi Hnext|w1 pool i p body p' Hi Hnext
                     |w1 pool i p t Hi Hnext|w1 pool i cmd seconds k m Hi
                     |w1 pool i cmd seconds k out Hi]; subst st st'; cbn in Hpool |- *;
    subst pool.
  - destruct i as [|j]; cbn in Hi.
    + injection Hi as <-. exists p', workers, hs. split; [done|].
      split; [by eapply spawns_next_op|done].
    + destruct (Forall2_lookup_l _ _ _ _ _ Hws Hi) as (h & Hh & Hbal & Hg).
      destruct Hmain as [(-> & _)|[Hinv _]]; [done|].
      destruct (batch_inv_permits _ _ _ _ _ Hinv) as (_ & _ & Hrel).
      destruct (guarded_next_op _ _ _ _ _ _ _ _ Hbal Hg Hnext) as (h' & Hbal' & Hg').
      { intros s' Hs'. destruct (Hrel (S j) (Running p) s' Hi Hs') as (v & Hv & Hlt). eauto. }
      exists main, (<[j := Running p']> workers), (<[j := h']> hs). split; [done|].
      split; [done|]. apply Forall2_insert; [done|]. by split.
  - destruct i as [|j]; cbn in Hi.
    + injection Hi as <-. cbn in Hnext.
      destruct (spawns_next_start _ _ _ _ _ Hsp Hnext) as [Hbody Hsp'].
      destruct Hmain as [(_ & Hno & _)|[_ Hm]]; [congruence|].
      destruct (main_next_start _ _ _ _ _ _ Hm Hnext) as [Hbal _].
      exists p', (workers ++ [Running body]), (hs ++ [0]). split; [done|].
      split; [done|]. apply Forall2_app; [done|]. constructor; [by split|constructor].
    + destruct (Forall2_lookup_l _ _ _ _ _ Hws Hi) as (h & Hh & Hbal & Hg).
      rewrite (balanced_next_start _ _ _ _ Hbal) in Hnext. discriminate Hnext.
  - destruct i as [|j]; cbn in Hi.
    + injection Hi as <-.
      destruct Hmain as [(_ & _ & Hno)|[_ Hm]]; [congruence|].
      rewrite (main_next_subprocess _ _ _ _ Hm) in Hnext. discriminate Hnext.
    + destruct (Forall2_lookup_l _ _ _ _ _ Hws Hi) as (h & Hh & Hbal & Hg).
      exists main, (<[j := t]> workers), (<[j := h]> hs). split; [done|].
      split; [done|]. apply Forall2_insert; [done|]. by eapply guarded_next_subprocess.
  - by exists main, workers, hs.
  - destruct i as [|j]; cbn in Hi; [discriminate Hi|].
    destruct (Forall2_lookup_l _ _ _ _ _ Hws Hi) as (h & Hh & Hbal & Hpos & Hg).
    exists main, (<[j := Running (k (check_outcome cmd seconds out))]> workers),
           (<[j := h]> hs).
    split; [done|]. split; [done|]. apply Forall2_insert; [done|].
    split; [apply Hbal|apply Hg].
Qed.


(** What is known of every state of a batch. *)
Lemma iterate_reach_guarded self main w0 w pool :
  (exists repos context operation,
     main = iterate_repos_to_archive self repos context operation) \/
  (exists gists operation, main = iterate_gists_to_archive self gists operation) ->
  steps (w0, [Running main]) (w, pool) ->
  exists total,
    ((w, pool) = (w0, [Running main])
     \/ batch_inv (sems w0) (threads self) total (w, pool)) /\
    pool_guarded (length (sems w0)) pool /\
    exists k, main = Op (NewBoundedSemaphore (threads self)) k.
Proof.
  intros Hmain Hsteps.
  assert (Hfacts : exists total,
            (forall st, steps (w0, [Running main]) st ->
               st = (w0, [Running main])
               \/ batch_inv (sems w0) (threads self) total st) /\
            spawns (fun body => guarded body 0) main /\
            exists k, main = Op (NewBoundedSemaphore (threads self)) k).
  { destruct Hmain as [(repos & context & operation & ->)|(gists & operation & ->)].
    - eexists. split; [intros st; apply iterate_repos_reach|].
      split; [apply spawns_iterate|]. by eexists.
    - eexists. split; [intros st; apply iterate_gists_reach|].
      split; [apply spawns_iterate|]. by eexists. }
  destruct Hfacts as (total & Hreach & Hsp & k & Hop).
  exists total. split; [by apply Hreach|]. split; [|by exists k].
  clear Hmain. remember (w0, [Running main]) as st0 eqn:Hst0.
  remember (w, pool) as st eqn:Hst. revert w pool Hst.
  induction Hsteps as [st|st0 st1 st2 Hsteps IH Hstep]; intros w pool Hst.
  - subst st. injection Hst as <- <-. exists main, [], []. by repeat split.
  - subst st0 st2. destruct st1 as [w1 pool1].
    specialize (IH eq_refl Hreach w1 pool1 eq_refl).
    change pool with (w, pool).2.
    apply (pool_guarded_step (sems w0) (threads self) total (w1, pool1)); [done| |done].
    destruct (Hreach _ Hsteps) as [->|Hinv]; [right|by left].
    exists w0, (threads self), k. by rewrite Hop.
Qed.



Example two_subprocesses_at_once :
  length (List.filter in_subprocess (Schedule.after 9).2) = 2%nat.
Proof. vm_compute. reflexivity. Qed.

(** ** Batches that cannot start *)

(** X9: a negative [threads] makes [BoundedSemaphore] raise its
    [ValueError]: [iterate_repos_to_archive] and [iterate_gists_to_archive]
    raise it at once, whatever the list, with no semaphore made and nothing
    logged or written; and under every interleaving no thread is ever
    started. *)
Theorem negative_threads_start_nothing E self w done :
  (threads self < 0)%Z ->
  (forall repos context operation,
     exec E (iterate_repos_to_archive self repos context operation) w done
     = (w, done, Raised (ValueError "semaphore initial value must be >= 0")) /\
     forall w' pool,
       steps (w, [Running (iterate_repos_to_archive self repos context operation)]) (w', pool) ->
       length pool = 1%nat /\ sems w' = sems w) /\
  (forall gists operation,
     exec E (iterate_gists_to_archive self gists operation) w done
     = (w, done, Raised (ValueError "semaphore initial value must be >= 0")) /\
     forall w' pool,
       steps (w, [Running (iterate_gists_to_archive self gists operation)]) (w', pool) ->
       length pool = 1%nat /\ sems w' = sems w).
Proof.
  intros Hneg.
  assert (Hb : (threads self <? 0)%Z = true) by by apply Z.ltb_lt.
  assert (Hinv : forall total w' pool,
            batch_inv (sems w) (threads self) total (w', pool) ->
            length pool = 1%nat /\ sems w' = sems w).
  { intros total w' pool Hinv.
    inversion Hinv as [w1 e Hsems _|w1 main workers v hs Hsems Hws Hv Hsum Hmain]; [done|].
    lia. }
  split; intros.
  - split.
    + unfold iterate_repos_to_archive, BoundedSemaphore, perform. cbn. by rewrite Hb.
    + intros w' pool Hsteps.
      destruct (iterate_repos_reach _ _ _ _ _ _ Hsteps) as [[= -> ->]|H]; [done|by eapply Hinv].
  - split.
    + unfold iterate_gists_to_archive, BoundedSemaphore, perform. cbn. by rewrite Hb.
    + intros w' pool Hsteps.
      destruct (iterate_gists_reach _ _ _ _ _ Hsteps) as [[= -> ->]|H]; [done|by eapply Hinv].
Qed.

Lemma negative_threads_start_nothing_witness :
  exec Sample.forge
       (iterate_repos_to_archive
          {| view := false; clone := true; pull := false;
             users := ["bob"]; orgs := []; gists := [];
             timeout := 30; threads := -1; token := None; location := "/archive";
             authenticated_user := None; authenticated_username := None |}
          [Fixture.bob_repo1] USER_CONTEXT CLONE_OPERATION)
       Fixture.fresh []
  = (Fixture.fresh, [], Raised (ValueError "semaphore initial value must be >= 0")).
Proof.
  exact (proj1 (proj1 (negative_threads_start_nothing Sample.forge
           {| view := false; clone := true; pull := false;
              users := ["bob"]; orgs := []; gists := [];
              timeout := 30; threads := -1; token := None; location := "/archive";
              authenticated_user := None; authenticated_username := None |}
           Fixture.fresh [] eq_refl) [Fixture.bob_repo1] USER_CONTEXT CLONE_OPERATION)).
Defined.

(** ** A whole run that only views *)

Lemma list_remove_first u before after :
  u ∉ before -> list_remove (Some u) (before ++ u :: after) = inr (before ++ after).
Proof.
  induction before as [|y before IH]; intros Hu; cbn.
  - by rewrite bool_decide_eq_true_2.
  - apply not_elem_of_cons in Hu as [Hne Hu].
    rewrite bool_decide_eq_false_2 by congruence. by rewrite IH.
Qed.

Lemma exec_ret_bind E {A B} (a : A) (f : A -> prog B) w done :
  exec E (Ret a ≫= f) w done = exec E (f a) w done.
Proof. reflexivity. Qed.

Lemma exec_log_bind E {B} lvl msg (f : unit -> prog B) w done :
  exec E (LOGGER lvl msg ≫= f) w done = exec E (f tt) (record w (EvLog lvl msg)) done.
Proof. reflexivity. Qed.

Lemma exec_datetime_now_bind E {B} (f : Z -> prog B) w done :
  exec E (perform DatetimeNow ≫= f) w done = exec E (f (datetime_now E)) w done.
Proof. reflexivity. Qed.

Lemma exec_str_elapsed_bind E {B} start (f : string -> prog B) w done :
  exec E (perform (StrElapsed start) ≫= f) w done = exec E (f (str_elapsed E start)) w done.
Proof. reflexivity. Qed.

Lemma exec_get_personal_repos E self w done repos :
  forge_personal_repos E (default "" (token self)) = inr repos ->
  exec E (get_personal_repos self) w done
  = (record (record w (EvForgePersonalRepos (default "" (token self))))
            (EvLog DEBUG "Personal repos retrieved!"),
     done, Returned repos).
Proof. intros Hforge. unfold get_personal_repos, perform. cbn. by rewrite Hforge. Qed.

Lemma record_as_record_all w ev : record w ev = record_all w [ev].
Proof. reflexivity. Qed.

Lemma record_all_app w evs1 evs2 :
  record_all (record_all w evs1) evs2 = record_all w (evs1 ++ evs2).
Proof. unfold record_all. cbn. by rewrite app_assoc. Qed.

Lemma exec_log E lvl msg w done :
  exec E (LOGGER lvl msg) w done = (record w (EvLog lvl msg), done, Returned tt).
Proof. reflexivity. Qed.

Lemma record_all_set_fs w m evs :
  record_all (set_fs w m) evs = set_fs (record_all w evs) m.
Proof. reflexivity. Qed.

(** X10: what the comment at line 73 asks for, when the authenticated login
    is among the users.  A run that only views, with a token whose login is
    in [users]: the personal repos are fetched through the self endpoint and
    viewed, the first occurrence of the login is taken out of [users], and
    the user pass asks the forge for the other names only, in order (and is
    left out altogether when no other name remains); the run returns, with
    these events and no others. *)
Theorem personal_pass_then_other_users E self w done before after u repos :
  view self = true -> clone self = false -> pull self = false ->
  orgs self = [] -> gists self = [] ->
  token_truthy (token self) = true ->
  authenticated_username self = Some u ->
  users self = before ++ u :: after -> u ∉ before ->
  Fs.path_exists w (location self) = true ->
  forge_personal_repos E (default "" (token self)) = inr repos ->
  (forall user, user ∈ before ++ after ->
     exists l, forge_user_repos E (token self) (Str.strip user) = inr l) ->
  exec E (run self) w done
  = (set_fs
       (record_all w
       ([EvSetupLogging (location self);
         EvLog INFO ("# GitHub Archive started..." +:+ nl);
         EvLog INFO ("# Making API call to GitHub for personal repos..." +:+ nl);
         EvForgePersonalRepos (default "" (token self));
         EvLog DEBUG "Personal repos retrieved!";
         EvLog INFO ("# Viewing user repos..." +:+ nl)]
        ++ viewed repos
        ++ (if list_truthy (before ++ after)
            then [EvLog INFO ("# Making API calls to GitHub for user repos..." +:+ nl)]
                 ++ fetched (EvForgeUserRepos (token self)) " repos retrieved!"
                            (before ++ after)
                 ++ [EvLog INFO ("# Viewing user repos..." +:+ nl)]
                 ++ viewed (answers (forge_user_repos E (token self)) (before ++ after))
            else [])
        ++ [finish_line E]))
       (setup_logging E (Fs.resolve (cwd w) (location self)) (fs w)),
     done, Returned tt).
Proof.
  intros Hview Hclone Hpull Horgs Hgists Htok Hname Husers Hu Hex Hforge Hok.
  assert (Hval : validation_error self = None).
  { unfold validation_error, any_target, any_operation. rewrite Husers, Hview.
    by destruct before. }
  assert (Htruthy : list_truthy (users self) = true) by (rewrite Husers; by destruct before).
  unfold run. rewrite exec_bind, exec_initialize_project, (bootstrap_present _ _ Hex), Hval.
  cbv beta iota.
  rewrite exec_setup_logging_bind, exec_log_bind, exec_datetime_now_bind.
  rewrite Htok, Htruthy. cbn [bound_method_truthy andb].
  rewrite exec_bind, exec_log_bind, exec_bind, (exec_get_personal_repos _ _ _ _ _ Hforge).
  cbv beta iota. rewrite Hview, Hclone, Hpull. cbn [when].
  rewrite exec_bind, exec_log_bind, exec_view_repos. cbv beta iota.
  rewrite !exec_ret_bind.
  rewrite Hname, Husers, (list_remove_first _ _ _ Hu). cbn [unwrap].
  rewrite exec_ret_bind. cbn [exec]. cbv beta iota.
  cbn [users view clone pull orgs gists token set_users].
  rewrite Hview, Hclone, Hpull, Horgs, Hgists. cbn [list_truthy when].
  destruct (before ++ after) as [|x rest] eqn:Hothers.
  - cbn [list_truthy andb when]. rewrite !exec_ret_bind, exec_str_elapsed_bind, exec_log.
    f_equal. f_equal. rewrite !record_as_record_all, !record_all_set_fs, !record_all_app.
    f_equal; try (f_equal; rewrite <- ?app_assoc; reflexivity).
  - cbn [list_truthy length Nat.ltb Nat.leb andb when].
    rewrite exec_bind, exec_log_bind, exec_bind. unfold get_all_user_repos.
    cbn [users token set_users].
    rewrite (exec_get_all E (ForgeUserRepos (token self)) (EvForgeUserRepos (token self))
               (forge_user_repos E (token self))); [|done|done].
    cbv beta iota. rewrite exec_bind, exec_log_bind, exec_view_repos. cbv beta iota.
    rewrite !exec_ret_bind. cbn [exec]. cbv beta iota.
    rewrite !exec_ret_bind, exec_str_elapsed_bind, exec_log.
    f_equal. f_equal. rewrite !record_as_record_all, !record_all_set_fs, !record_all_app.
    f_equal; try (f_equal; rewrite <- ?app_assoc; reflexivity).
Qed.

Lemma personal_pass_then_other_users_witness :
  exec Sample.forge (run (Fixture.config true false false ["bob"; "alice"; "alice"] (Some "t")))
       Fixture.fresh []
  = (set_fs
       (record_all Fixture.fresh
       [EvSetupLogging "/archive";
        EvLog INFO ("# GitHub Archive started..." +:+ nl);
        EvLog INFO ("# Making API call to GitHub for personal repos..." +:+ nl);
        EvForgePersonalRepos "t";
        EvLog DEBUG "Personal repos retrieved!";
        EvLog INFO ("# Viewing user repos..." +:+ nl);
        EvLog INFO "alice/r1";
        EvLog INFO "orgX/r2";
        EvLog INFO ("# Making API calls to GitHub for user repos..." +:+ nl);
        EvForgeUserRepos (Some "t") "bob";
        EvLog DEBUG "bob repos retrieved!";
        EvForgeUserRepos (Some "t") "alice";
        EvLog DEBUG "alice repos retrieved!";
        EvLog INFO ("# Viewing user repos..." +:+ nl);
        EvLog INFO "Bob/repo1";
        EvLog INFO "alice/r1";
        EvLog INFO ("GitHub Archive complete! Execution time: 0:00:01." +:+ nl)])
       (Fixture.log_file ["archive"] (fs Fixture.fresh)),
     [], Returned tt).
Proof.
  apply (personal_pass_then_other_users Sample.forge
           (Fixture.config true false false ["bob"; "alice"; "alice"] (Some "t"))
           Fixture.fresh [] ["bob"] ["alice"] "alice" [Fixture.alice_r1; Fixture.orgx_r2]);
    try reflexivity.
  - intros Hin%list_elem_of_singleton. discriminate Hin.
  - intros user [->|[->|[]%elem_of_nil]%elem_of_cons]%elem_of_cons; by eexists.
Defined.

(** ** The first and the last line of a run *)

Lemma exec_op_trace E fin {X} (o : op X) w w' x :
  exec_op E fin o w = Some (w', x) -> exists evs, trace w' = trace w ++ evs.
Proof.
  destruct o; cbn;
    try (intros [= <- <-]; first [by exists []; rewrite app_nil_r|by eexists [_]]).
  - destruct (Fs.makedirs w _); intros [= <- <-]; exists []; by rewrite app_nil_r.
  - destruct (Fs.rmtree w _); intros [= <- <-]; exists []; by rewrite app_nil_r.
  - destruct (sh E _ _ (fs w)). intros [= <- <-]. by eexists.
  - destruct (_ <? 0)%Z; intros [= <- <-]; exists []; by rewrite app_nil_r.
  - destruct (sems w !! _) as [[v b]|]; [|done].
    destruct (0 <? v)%Z; [|done]. intros [= <- <-]; exists []; by rewrite app_nil_r.
  - destruct (sems w !! _) as [[v b]|]; [|done].
    destruct (b <=? v)%Z; intros [= <- <-]; exists []; by rewrite app_nil_r.
  - destruct (fin _); [|done]. intros [= <- <-]; exists []; by rewrite app_nil_r.
Qed.

(** The trace only grows. *)
Lemma exec_trace_extends E {A} (p : prog A) w done :
  exists evs, trace (exec E p w done).1.1 = trace w ++ evs.
Proof.
  revert w done. induction p as [A a|A e|A X o k IH|A body IHbody k IH]; intros w done; cbn.
  - exists []. by rewrite app_nil_r.
  - exists []. by rewrite app_nil_r.
  - destruct (exec_op E _ o w) as [[w' x]|] eqn:Hop; cbn.
    + destruct (exec_op_trace _ _ _ _ _ _ Hop) as [evs1 H1].
      destruct (IH x w' done) as [evs2 H2]. exists (evs1 ++ evs2).
      by rewrite H2, H1, app_assoc.
    + exists []. by rewrite app_nil_r.
  - destruct (IHbody w (done ++ [false])) as [evs1 H1].
    destruct (exec E body w (done ++ [false])) as [[w1 done1] r1]. cbn in H1.
    match goal with |- context [exec E (k ?t) w1 ?d] =>
      destruct (IH t w1 d) as [evs2 H2] end.
    exists (evs1 ++ evs2). by rewrite H2, H1, app_assoc.
Qed.

Local Ltac run_block w' Htr :=
  rewrite exec_bind;
  match goal with
  | |- context [match exec ?E ?p ?w ?d with _ => _ end] =>
      let evs := fresh "evs" in
      let d' := fresh "done" in
      let a := fresh "a" in
      let e := fresh "e" in
      destruct (exec_trace_extends E p w d) as [evs Htr];
      destruct (exec E p w d) as [[w' d'] [a|e|]];
      [cbn [fst] in Htr; cbv beta iota|by intros [=]..]
  end.

(** X11: a run that returns has logged, after whatever was on the trace,
    the set-up of the log file and the line that it started, and last of all
    the line that it is complete, with the time elapsed since the clock was
    read right after the first line.  (A run that raises or waits for ever
    never returns: its configuration error, forge error or [ValueError] is
    what the caller gets.) *)
Theorem run_logs_start_and_finish E self w done :
  let '(w', _, r) := exec E (run self) w done in
  r = Returned tt ->
  exists evs,
    trace w' = trace w ++ [EvSetupLogging (location self);
                           EvLog INFO ("# GitHub Archive started..." +:+ nl)]
                       ++ evs ++ [finish_line E].
Proof.
  unfold run. rewrite exec_bind, exec_initialize_project.
  destruct (bootstrap w (location self)) as [w1 [e|]] eqn:Hb; [by intros [=]|].
  destruct (bootstrap_frame _ _ _ _ Hb) as (_ & _ & Ht).
  destruct (validation_error self) as [message|]; [by intros [=]|].
  cbv beta iota.
  rewrite exec_setup_logging_bind, exec_log_bind, exec_datetime_now_bind.
  run_block w2 Htr2. run_block w3 Htr3. run_block w4 Htr4. run_block w5 Htr5.
  rewrite exec_str_elapsed_bind, exec_log. intros _.
  exists (evs ++ evs0 ++ evs1 ++ evs2).
  cbn [trace record set_fs] in *. rewrite Htr5, Htr4, Htr3, Htr2, Ht.
  unfold finish_line. rewrite <- !app_assoc. reflexivity.
Qed.

Lemma run_logs_start_and_finish_witness :
  exists evs,
    trace (exec Sample.forge (run (Fixture.config true false false ["bob"] None))
                Fixture.fresh []).1.1
    = trace Fixture.fresh ++ [EvSetupLogging "/archive";
                              EvLog INFO ("# GitHub Archive started..." +:+ nl)]
                          ++ evs ++ [finish_line Sample.forge].
Proof.
  exact (run_logs_start_and_finish Sample.forge (Fixture.config true false false ["bob"] None)
           Fixture.fresh [] eq_refl).
Defined.

(** ** The method that is never called *)

(** X12: [authenticated_user_in_users], when called, answers whether the
    lowercased login of the token's user is an entry of [users], and that is
    exactly the condition under which the [remove] of line 75 succeeds; it
    touches nothing.  Without a token there is no user object and the call
    raises [AttributeError]. *)
Theorem membership_is_what_remove_needs E self w done :
  (forall a,
     authenticated_user self = Some a ->
     authenticated_username self = Some (Str.lower (login a)) ->
     exec E (authenticated_user_in_users self) w done
     = (w, done, Returned (bool_decide (Str.lower (login a) ∈ users self))) /\
     (Str.lower (login a) ∈ users self <->
      exists rest, list_remove (authenticated_username self) (users self) = inr rest)) /\
  (authenticated_user self = None ->
   exec E (authenticated_user_in_users self) w done
   = (w, done, Raised (AttributeError "'NoneType' object has no attribute 'login'"))).
Proof.
  split.
  - intros a Ha Hname. unfold authenticated_user_in_users. rewrite Ha, Hname.
    split; [done|]. split.
    + intros (l1 & l2 & _ & _ & Hrem)%list_remove_present. eauto.
    + intros [rest Hrem].
      destruct (decide (Str.lower (login a) ∈ users self)) as [|Hnot]; [done|].
      by rewrite (list_remove_missing _ _ Hnot) in Hrem.
  - intros Ha. unfold authenticated_user_in_users. by rewrite Ha.
Qed.

Lemma membership_is_what_remove_needs_witness :
  exec Sample.forge
       (authenticated_user_in_users (Fixture.config true false false ["bob"; "alice"] (Some "t")))
       Fixture.fresh []
  = (Fixture.fresh, [], Returned true).
Proof.
  exact (proj1 (proj1 (membership_is_what_remove_needs Sample.forge
                  (Fixture.config true false false ["bob"; "alice"] (Some "t"))
                  Fixture.fresh [])
                {| login := "Alice" |} eq_refl eq_refl)).
Defined.

(** ** Running [initialize_project] again *)

Lemma bootstrap_again w loc w1 :
  Str.nonempty loc = true ->
  bootstrap w loc = (w1, None) ->
  Fs.path_exists w1 loc = true.
Proof.
  intros Hloc Hb. destruct (Fs.path_exists w loc) eqn:Hex.
  - rewrite (bootstrap_present _ _ Hex) in Hb. by injection Hb as <-.
  - destruct (bootstrap_root _ _ _ Hex Hb) as (Hroot & _).
    destruct (bootstrap_frame _ _ _ _ Hb) as (Hcwd & _).
    unfold Fs.path_exists. rewrite Hloc, Hcwd. cbn.
    apply bool_decide_eq_true. by rewrite Hroot.
Qed.

(** X13: with a non-empty [location], [initialize_project] can be run
    again: once it has returned, a second call returns too and changes
    nothing.  With the empty string as [location] it cannot:
    [os.path.exists] is false for the empty path, so the second call runs
    [os.makedirs] on the [repos] directory the first call made, and raises
    [FileExistsError]. *)
Theorem initialize_project_again E self w done :
  let '(w1, done1, r1) := exec E (initialize_project self) w done in
  r1 = Returned tt ->
  (Str.nonempty (location self) = true ->
   exec E (initialize_project self) w1 done1 = (w1, done1, Returned tt)) /\
  (location self = "" ->
   exec E (initialize_project self) w1 done1 = (w1, done1, Raised (FileExistsError "repos"))).
Proof.
  rewrite exec_initialize_project.
  destruct (bootstrap w (location self)) as [w1 [e|]] eqn:Hb; [by intros [=]|].
  destruct (validation_error self) as [message|] eqn:Hval; [by intros [=]|].
  intros _. rewrite exec_initialize_project. split.
  - intros Hloc. by rewrite (bootstrap_present _ _ (bootstrap_again _ _ _ Hloc Hb)), Hval.
  - intros Hloc. rewrite Hloc in *.
    assert (Hex : Fs.path_exists w "" = false) by done.
    destruct (bootstrap_creates _ _ _ Hex Hb) as (Hrepos & _ & Hcwd & _).
    unfold bootstrap. cbn [Fs.path_exists Str.nonempty andb].
    unfold Fs.makedirs at 1. cbn [OsPath.join fold_left].
    change (OsPath.join2 "" "repos") with "repos" in *.
    cbn [Str.nonempty negb]. rewrite Hcwd.
    change (OsPath.join "" ["repos"]) with "repos" in Hrepos. by rewrite Hrepos.
Qed.

Lemma initialize_project_again_witness :
  let self := Fixture.config true false false ["bob"] None in
  let once := (exec Sample.forge (initialize_project self) Fixture.bare []).1.1 in
  let here := relocated self "" in
  let once_here := (exec Sample.forge (initialize_project here) Fixture.bare []).1.1 in
  exec Sample.forge (initialize_project self) once [] = (once, [], Returned tt) /\
  exec Sample.forge (initialize_project here) once_here []
  = (once_here, [], Raised (FileExistsError "repos")).
Proof.
  split.
  - exact (proj1 (initialize_project_again Sample.forge
                    (Fixture.config true false false ["bob"] None) Fixture.bare [] eq_refl)
                 eq_refl).
  - exact (proj2 (initialize_project_again Sample.forge
                    (relocated (Fixture.config true false false ["bob"] None) "")
                    Fixture.bare [] eq_refl)
                 eq_refl).
Defined.

(** ** A batch never comes to a halt *)

(** A worker that holds a permit, or finds one in the semaphore, can make
    its next step. *)
Lemma worker_enabled (E : env) pool w j p pre v b h :
  pool !! j = Some (Running p) ->
  balanced (length pre) p h -> guarded p h ->
  finished (Running p) = false ->
  sems w = pre ++ [(v, b)] ->
  (v + Z.of_nat h <= b)%Z ->
  (0 < h)%nat \/ (0 < v)%Z ->
  exists st', step (w, pool) st'.
Proof.
  intros Hj Hbal Hg Hfin Hsems Hle Hpos.
  destruct (next_subprocess p) as [t|] eqn:Hsub.
  { eexists. by eapply step_subprocess_begin. }
  destruct (next_op E pool w p) as [[w' p']|] eqn:Hnext.
  { eexists. by eapply step_op. }
  exfalso. destruct p as [a|e|X o k|body k]; try done.
  cbn in Hnext. destruct o; cbn in Hnext, Hbal, Hg, Hsub; try done.
  - by destruct (Fs.rmtree w _).
  - destruct Hbal as [-> _]. destruct Hg as [-> _].
    rewrite Hsems, lookup_app_r, Nat.sub_diag in Hnext by lia. cbn in Hnext.
    destruct (Z.ltb_spec 0 v); [done|]. lia.
  - destruct Hbal as [-> Hbal]. destruct h as [|h]; [done|].
    rewrite Hsems, lookup_app_r, Nat.sub_diag in Hnext by lia. cbn in Hnext.
    destruct (Z.leb_spec b v); [lia|done].
Qed.

Lemma thread_enabled (E : env) pool w j t pre v b h :
  pool !! j = Some t ->
  thread_guarded (length pre) t h ->
  finished t = false ->
  sems w = pre ++ [(v, b)] ->
  (v + Z.of_nat h <= b)%Z ->
  (0 < h)%nat \/ (0 < v)%Z ->
  exists st', step (w, pool) st'.
Proof.
  intros Hj [Hbal Hg] Hfin Hsems Hle Hpos. destruct t as [p|cmd seconds k].
  - by eapply (worker_enabled E).
  - eexists. by eapply (step_subprocess_end _ _ _ _ _ _ (Exited 0)).
Qed.

Lemma main_enabled (E : env) s total main workers w :
  starting s total main workers \/ joining total main workers ->
  (forall t, t ∈ workers -> finished t = true) ->
  finished (Running main) = true \/ exists st', step (w, Running main :: workers) st'.
Proof.
  intros Hmain Hfin.
  assert (Hcases : (exists body k, main = ThreadStart body k) \/ joining total main workers).
  { destruct Hmain as [(bodies & q & Hq & Hbal & Hlen & ->)|Hjoin]; [|by right].
    destruct bodies as [|body rest]; cbn in Hq.
    - right. apply starting_nil; [done|]. cbn in Hlen. lia.
    - left. destruct q as [| | |body' k]; try done. by eexists _, _. }
  destruct Hcases as [(body & k & ->)|(d & Hd & Hlen & -> & _)].
  - right. eexists. by eapply (step_start _ _ 0).
  - destruct (length workers - d) as [|m] eqn:Hm; [by left|]. right.
    destruct (lookup_lt_is_Some_2 workers d) as [t Ht]; [lia|].
    assert (Hjoined : is_finished (Running (for_each (seq (S d) (S m)) join) :: workers) (S d)
                      = true).
    { change (default false (finished <$> workers !! d) = true). rewrite Ht. cbn.
      apply Hfin. by eapply list_elem_of_lookup_2. }
    eexists. eapply (step_op E _ _ 0); [done|].
    set (pool := Running _ :: workers) in *.
    cbn [seq for_each]. unfold next_op, join, perform.
    cbn [mbind prog_bind bind is_subprocess exec_op]. by rewrite Hjoined.
Qed.

Lemma unfinished_or_all (workers : list thread) :
  (forall t, t ∈ workers -> finished t = true) \/
  exists j t, workers !! j = Some t /\ finished t = false.
Proof.
  induction workers as [|t workers IH]; [left; by intros t ?%elem_of_nil|].
  destruct (finished t) eqn:Ht; [|right; by exists 0, t].
  destruct IH as [Hall|(j & t' & Hj & Ht')]; [|right; by exists (S j), t'].
  left. intros t' [->|Hin]%elem_of_cons; auto.
Qed.

Lemma sum_list_pos (hs : list nat) :
  (0 < sum_list hs)%nat -> exists j h, hs !! j = Some h /\ (0 < h)%nat.
Proof.
  induction hs as [|h hs IH]; simpl; [lia|]. intros Hpos.
  destruct h as [|h]; [|exists 0, (S h); split; [done|lia]].
  destruct IH as (j & h' & Hj & Hh'); [lia|]. by exists (S j), h'.
Qed.

(** X14: with at least one permit, a batch never comes to a halt.  Under
    every interleaving of [iterate_repos_to_archive] or
    [iterate_gists_to_archive], as long as some thread has not ended some
    thread can make a step: the permits and the joins cannot lock up. *)
Theorem batch_never_halts (E : env) self main w0 w pool :
  (exists repos context operation,
     main = iterate_repos_to_archive self repos context operation) \/
  (exists gists operation, main = iterate_gists_to_archive self gists operation) ->
  (0 < threads self)%Z ->
  steps (w0, [Running main]) (w, pool) ->
  (forall t, t ∈ pool -> finished t = true) \/ exists st', step (w, pool) st'.
Proof.
  intros Hmain Hthreads Hsteps.
  destruct (iterate_reach_guarded _ _ _ _ _ Hmain Hsteps)
    as (total & Hreach & Hguard & k & Hop).
  destruct Hreach as [[= -> ->]|Hinv].
  - right. destruct (next_op E [Running main] w0 main) as [[w' p']|] eqn:Hnext.
    + eexists. by eapply (step_op E _ _ 0).
    + rewrite Hop in Hnext. cbn in Hnext. by destruct (threads self <? 0)%Z.
  - destruct Hguard as (main' & workers & hs & -> & _ & Hws).
    inversion Hinv as [w1 e Hsems Hb Hst|w1 main1 workers1 v hs1 Hsems Hws1 Hv Hsum Hm Hst].
    { left. by intros t ->%list_elem_of_singleton. }
    subst w1 main1 workers1.
    assert (hs = hs1) as ->.
    { eapply balanced_hs_unique; [|done]. eapply Forall2_impl; [exact Hws|]. by intros t h [? _]. }
    destruct (unfinished_or_all workers) as [Hall|(j & t & Hj & Ht)].
    + destruct (main_enabled E _ _ _ _ w Hm Hall) as [Hfin|Hstep]; [left|by right].
      intros t [->|Hin]%elem_of_cons; auto.
    + right. destruct (Forall2_lookup_l _ _ _ _ _ Hws Hj) as (h & Hh & Hg).
      pose proof (sum_list_lookup_le _ _ _ Hh) as Hle.
      destruct (Nat.eq_dec (sum_list hs1) 0) as [Hzero|Hpos].
      * eapply (thread_enabled E _ _ (S j) t); [done|exact Hg|done|exact Hsems|lia|].
        right. lia.
      * destruct (sum_list_pos hs1) as (j' & h' & Hh' & Hpos'); [lia|].
        destruct (Forall2_lookup_r _ _ _ _ _ Hws Hh') as (t' & Hj' & Hg').
        pose proof (sum_list_lookup_le _ _ _ Hh') as Hle'.
        eapply (thread_enabled E _ _ (S j') t'); [done|exact Hg'| |exact Hsems|lia|by left].
        destruct (finished t') eqn:Hft; [|done].
        destruct Hg' as [Hbal' _]. pose proof (balanced_finished _ _ _ Hbal' Hft). lia.
Qed.

Lemma batch_never_halts_witness :
  (forall t, t ∈ (Schedule.after 7).2 -> finished t = true)
  \/ exists st', step ((Schedule.after 7).1, (Schedule.after 7).2) st'.
Proof.
  apply (batch_never_halts Sample.forge Schedule.self Schedule.main Fixture.fresh
           (Schedule.after 7).1 (Schedule.after 7).2).
  - left. exists [Fixture.bob_repo1; Fixture.alice_r1], USER_CONTEXT, CLONE_OPERATION.
    reflexivity.
  - reflexivity.
  - apply (schedule_after 7). vm_compute. eexists. reflexivity.
Defined.

(** ** Cloning again *)

(** X15: a clone that worked is not made twice.  When the command of a
    clone exits with status zero and leaves something at the local path, a
    second [archive_repo] ([archive_gist]) for the same path returns at once
    and leaves the world of the first call as it is: no second child
    process, no log line. *)
Theorem clone_again_is_skipped E self thread_limiter path w done v b :
  sems w !! thread_limiter = Some (v, b) ->
  (0 < v <= b)%Z ->
  Fs.path_exists w path = false ->
  Str.nonempty path = true ->
  (forall repo cmd,
     repo_commands repo path !! CLONE_OPERATION = Some cmd ->
     (sh E cmd (timeout self) (fs w)).2 = Exited 0 ->
     is_Some ((sh E cmd (timeout self) (fs w)).1 !! Fs.resolve (cwd w) path) ->
     let '(w1, done1, r1) :=
       exec E (archive_repo self thread_limiter repo path CLONE_OPERATION) w done in
     r1 = Returned tt /\
     exec E (archive_repo self thread_limiter repo path CLONE_OPERATION) w1 done1
     = (w1, done1, Returned tt)) /\
  (forall gist cmd,
     gist_commands gist path !! CLONE_OPERATION = Some cmd ->
     (sh E cmd (timeout self) (fs w)).2 = Exited 0 ->
     is_Some ((sh E cmd (timeout self) (fs w)).1 !! Fs.resolve (cwd w) path) ->
     let '(w1, done1, r1) :=
       exec E (archive_gist self thread_limiter gist path CLONE_OPERATION) w done in
     r1 = Returned tt /\
     exec E (archive_gist self thread_limiter gist path CLONE_OPERATION) w1 done1
     = (w1, done1, Returned tt)).
Proof.
  intros Hsem Hv Hex Hpath.
  assert (Hskip : Fs.path_exists w path && String.eqb CLONE_OPERATION CLONE_OPERATION = false)
    by by rewrite Hex.
  split; intros target cmd Hcmd Hout Hthere; unfold archive_repo, archive_gist.
  - rewrite (archive_succeeds E _ _ _ _ _ _ _ _ w done cmd v b Hskip Hcmd Hsem Hv Hout).
    split; [done|]. apply archive_present_clone.
    unfold Fs.path_exists. cbn [fs cwd]. rewrite Hpath. cbn.
    by apply bool_decide_eq_true.
  - rewrite (archive_succeeds E _ _ _ _ _ _ _ _ w done cmd v b Hskip Hcmd Hsem Hv Hout).
    split; [done|]. apply archive_present_clone.
    unfold Fs.path_exists. cbn [fs cwd]. rewrite Hpath. cbn.
    by apply bool_decide_eq_true.
Qed.

Lemma clone_again_is_skipped_witness :
  let E := Fixture.leaving ["archive"; "repos"; "bob"; "repo1"] (Exited 0) in
  let self := Fixture.config false true false ["bob"] None in
  let call := archive_repo self 0 Fixture.bob_repo1 "/archive/repos/bob/repo1" CLONE_OPERATION in
  let '(w1, done1, r1) := exec E call Fixture.fresh [] in
  r1 = Returned tt /\ exec E call w1 done1 = (w1, done1, Returned tt).
Proof.
  exact (proj1 (clone_again_is_skipped
                  (Fixture.leaving ["archive"; "repos"; "bob"; "repo1"] (Exited 0))
                  (Fixture.config false true false ["bob"] None) 0
                  "/archive/repos/bob/repo1" Fixture.fresh [] 2 2
                  eq_refl (conj eq_refl (Z.le_refl 2)) ltac:(vm_compute; reflexivity) eq_refl)
               Fixture.bob_repo1 "git clone git@host:bob/repo1.git /archive/repos/bob/repo1"
               ltac:(vm_compute; reflexivity) eq_refl ltac:(vm_compute; eexists; reflexivity)).
Defined.

(** ** The constructor and the token *)

(** X16: [__init__] asks the forge for the login only when a token is
    given.  With [None] or the empty string it asks nothing, always returns,
    and leaves both the user object and the username at [None]; with a token
    the forge refuses, the exception of the forge leaves the constructor and
    no instance is made. *)
Theorem init_asks_login_only_with_token E view clone pull names orgs gists timeout threads
    location w done :
  (forall tok,
     token_truthy tok = false ->
     exec E (__init__ view clone pull names orgs gists timeout threads tok location) w done
     = (w, done,
        Returned {| view := view; clone := clone; pull := pull;
                    users := split_argument names;
                    orgs := split_argument orgs;
                    gists := split_argument gists;
                    timeout := timeout; threads := threads; token := tok;
                    location := location;
                    authenticated_user := None;
                    authenticated_username := None |})) /\
  (forall tok e,
     Str.nonempty tok = true ->
     forge_login E tok = inl e ->
     exec E (__init__ view clone pull names orgs gists timeout threads (Some tok) location)
          w done
     = (record w (EvForgeLogin tok), done, Raised e)).
Proof.
  split.
  - intros [tok|] Htok; unfold __init__; cbn in Htok |- *; by rewrite ?Htok.
  - intros tok e Htok He. unfold __init__, perform. rewrite Htok. cbn. by rewrite He.
Qed.

Lemma init_asks_login_only_with_token_witness :
  exec Sample.forge (__init__ true false false (Some "Bob") None None 30 2 None "/archive")
       Fixture.fresh []
  = (Fixture.fresh, [], Returned (Fixture.config true false false ["bob"] None)).
Proof.
  exact (proj1 (init_asks_login_only_with_token Sample.forge true false false (Some "Bob")
                  None None 30 2 "/archive" Fixture.fresh []) None eq_refl).
Defined.

(** ** A batch without permits *)

Lemma waits_archive there commands seconds s path operation success timed_out failed cmd :
  commands !! operation = Some cmd ->
  there path && String.eqb operation CLONE_OPERATION = false ->
  waits there (archive commands seconds s path operation success timed_out failed).
Proof. intros Hcmd Hskip. unfold archive. cbn. by rewrite Hskip, Hcmd. Qed.

Lemma spawns_nth_bind P n {A B} (p : prog A) (f : A -> prog B) :
  spawns_nth P n p -> (forall a m, spawns_nth P m (f a)) -> spawns_nth P n (p ≫= f).
Proof.
  unfold mbind, prog_bind. revert B f n.
  induction p as [A a|A e|A X o k IH|A body _ k IH]; intros B f n Hp Hf; cbn in *; auto.
  destruct n as [|n]; [done|]. intros t. by apply IH.
Qed.

Lemma spawns_nth_for_each_join P n l : spawns_nth P n (for_each l join).
Proof. induction l as [|t l IH]; cbn; [done|]. intros _. apply IH. Qed.

Lemma spawns_nth_start_repo_threads P self s context operation repos thread_list n repo :
  List.filter (archived self context) repos !! n = Some repo ->
  P (archive_repo self s repo (repo_path self repo) operation) ->
  spawns_nth P n (start_repo_threads self s context operation repos thread_list).
Proof.
  intros Hn HP. revert n thread_list Hn.
  induction repos as [|repo' rest IH]; intros n thread_list Hn; [done|].
  cbn [start_repo_threads List.filter] in *. unfold archived at 1 in Hn.
  destruct (token_truthy (token self)
            && negb (bool_decide (Some (Str.lower (login (owner repo')))
                                  = authenticated_username self))
            && String.eqb context PERSONAL_CONTEXT); cbn [negb] in Hn.
  - by apply IH.
  - cbn. destruct n as [|n]; cbn in Hn.
    + by injection Hn as ->.
    + intros t. by apply IH.
Qed.

Lemma spawns_nth_start_gist_threads P self s operation gists thread_list n gist :
  gists !! n = Some gist ->
  P (archive_gist self s gist (gist_path self gist) operation) ->
  spawns_nth P n (start_gist_threads self s operation gists thread_list).
Proof.
  intros Hn HP. revert n thread_list Hn.
  induction gists as [|gist' rest IH]; intros n thread_list Hn; [done|].
  cbn. destruct n as [|n]; cbn in Hn.
  - by injection Hn as ->.
  - intros t. by apply IH.
Qed.

(** A step of a worker without a permit writes nothing. *)
Lemma guarded_next_op_fs E pool w p w' p' :
  guarded p 0 -> next_op E pool w p = Some (w', p') -> fs w' = fs w /\ cwd w' = cwd w.
Proof.
  intros Hg Hnext. destruct p as [a|e|X o k|body k]; try discriminate Hnext.
  cbn in Hnext. destruct o; cbn in Hnext, Hg; try discriminate Hnext; try done.
  all: try (by injection Hnext as <- <-).
  - destruct Hg as [Hg _]. lia.
  - destruct (_ <? 0)%Z; by injection Hnext as <- <-.
  - destruct (sems w !! _) as [[v b]|]; [|done].
    destruct (0 <? v)%Z; [|done]. by injection Hnext as <- <-.
  - destruct (sems w !! _) as [[v b]|]; [|done].
    destruct (b <=? v)%Z; by injection Hnext as <- <-.
Qed.

(** A waiting worker goes on waiting while the semaphore is empty. *)
Lemma waits_next_op E pool w0 w p w' p' pre b h :
  waits (Fs.path_exists w0) p ->
  balanced (length pre) p h ->
  fs w = fs w0 -> cwd w = cwd w0 ->
  sems w = pre ++ [(0%Z, b)] ->
  next_op E pool w p = Some (w', p') ->
  waits (Fs.path_exists w0) p'.
Proof.
  intros Hw Hbal Hfs Hcwd Hsems Hnext.
  destruct p as [a|e|X o k|body k]; try done.
  cbn in Hnext. destruct o; cbn in Hnext, Hw, Hbal; try done.
  - injection Hnext as <- <-. by rewrite (path_exists_ext w w0).
  - destruct Hbal as [-> _].
    by rewrite Hsems, lookup_app_r, Nat.sub_diag in Hnext by lia.
Qed.

Lemma waits_not_finished there p : waits there p -> finished (Running p) = false.
Proof. by destruct p. Qed.

(** What is known of a batch whose semaphore has no permit. *)
Lemma zero_permits sems0 total w pool :
  batch_inv sems0 0 total (w, pool) ->
  pool_guarded (length sems0) pool ->
  exists main workers,
    pool = Running main :: workers /\
    (starting (length sems0) total main workers \/ joining total main workers) /\
    sems w = sems0 ++ [(0%Z, 0%Z)] /\
    forall j t, workers !! j = Some t ->
      exists p, t = Running p /\ balanced (length sems0) p 0 /\ guarded p 0.
Proof.
  intros Hinv (main' & workers' & hs & -> & _ & Hws).
  inversion Hinv as [w1 e Hsems Hb Hst|w1 main workers v hs1 Hsems Hws1 Hv Hsum Hm Hst];
    [lia|].
  subst. exists main', workers'. split; [done|]. split; [done|].
  assert (hs = hs1) as ->.
  { eapply balanced_hs_unique; [|done]. eapply Forall2_impl; [exact Hws|]. by intros t h [? _]. }
  assert (v = 0%Z) as -> by lia. split; [done|].
  intros j t Hj. destruct (Forall2_lookup_l _ _ _ _ _ Hws Hj) as (h & Hh & Hbal & Hg).
  pose proof (sum_list_lookup_le _ _ _ Hh) as Hle.
  assert (h = 0) as -> by lia.
  destruct t as [p|cmd seconds k]; [by exists p|]. destruct Hg as [Hg _]. lia.
Qed.

Lemma spawns_nth_next_op P n E pool w p w' p' :
  spawns_nth P n p -> next_op E pool w p = Some (w', p') -> spawns_nth P n p'.
Proof.
  destruct p as [a|e|X o k|body k]; try done. cbn. intros Hsp.
  destruct (is_subprocess o); [done|].
  destruct (exec_op E (is_finished pool) o w) as [[w1 x]|]; [|done].
  intros [= <- <-]. apply Hsp.
Qed.

Lemma pool_waits_step w0 total target st st' :
  pool_waits w0 target st ->
  (batch_inv (sems w0) 0 total st /\ pool_guarded (length (sems w0)) st.2)
  \/ (exists w k, st = (w, [Running (Op (NewBoundedSemaphore 0) k)])) ->
  step st st' ->
  pool_waits w0 target st'.
Proof.
  intros (Hfs & Hcwd & main & workers & Hpool & Htarget) Hknown Hstep.
  destruct st as [w pool]. cbn in Hfs, Hcwd, Hpool. subst pool.
  assert (Hfacts :
    (workers = [] /\ exists k, main = Op (NewBoundedSemaphore 0) k) \/
    ((starting (length (sems w0)) total main workers \/ joining total main workers) /\
     sems w = sems w0 ++ [(0%Z, 0%Z)] /\
     forall j t, workers !! j = Some t ->
       exists p, t = Running p /\ balanced (length (sems w0)) p 0 /\ guarded p 0)).
  { destruct Hknown as [[Hinv Hguard]|(w1 & k & Hst)].
    - right. destruct (zero_permits _ _ _ _ Hinv Hguard) as (m & ws & Hp & Hm & Hs & Hw).
      injection Hp as <- <-. done.
    - left. injection Hst as _ -> ->. split; [done|]. by exists k. }
  inversion Hstep as [E w1 pool i p w' p' Hi Hnext|w1 pool i p body p' Hi Hnext
                     |w1 pool i p t Hi Hnext|w1 pool i cmd seconds k m Hi
                     |w1 pool i cmd seconds k out Hi]; subst w1 pool st'.
  - destruct i as [|j]; cbn in Hi.
    + injection Hi as <-.
      assert (fs w' = fs w /\ cwd w' = cwd w) as [Hfs' Hcwd'].
      { destruct Hfacts as [(_ & k & ->)|(Hm & _)].
        - cbn in Hnext. by destruct (0 <? 0)%Z; injection Hnext as <- <-.
        - by destruct (main_next_op _ _ _ _ _ _ _ _ Hm Hnext) as [-> _]. }
      split; [cbn; congruence|]. split; [cbn; congruence|].
      exists p', workers. split; [done|].
      destruct (workers !! target); [done|]. by eapply spawns_nth_next_op.
    + destruct Hfacts as [(-> & _)|(Hm & Hsems & Hw)]; [done|].
      destruct (Hw j _ Hi) as (p0 & [= <-] & Hbal & Hg).
      destruct (guarded_next_op_fs _ _ _ _ _ _ Hg Hnext) as [Hfs' Hcwd'].
      split; [cbn; congruence|]. split; [cbn; congruence|].
      exists main, (<[j := Running p']> workers). split; [done|].
      rewrite length_insert. destruct (decide (j = target)) as [->|Hne].
      * rewrite list_lookup_insert_eq by by eapply lookup_lt_Some.
        assert (Hi' : workers !! target = Some (Running p)) by exact Hi.
        rewrite Hi' in Htarget. destruct Htarget as (p1 & [= <-] & Hwaits).
        exists p'. split; [done|]. by eapply waits_next_op.
      * by rewrite list_lookup_insert_ne.
  - destruct i as [|j]; cbn in Hi.
    + injection Hi as <-. cbn in Hnext.
      split; [done|]. split; [done|].
      exists p', (workers ++ [Running body]). split; [done|].
      destruct main as [a|e|X o k0|body0 k0]; try done. injection Hnext as <- <-.
      destruct (workers !! target) as [t|] eqn:Ht.
      * by rewrite (lookup_app_l_Some _ _ _ _ Ht).
      * apply lookup_ge_None in Ht. rewrite length_app. cbn [length].
        cbn in Htarget. destruct (target - length workers) as [|n] eqn:Hn.
        -- assert (target = length workers) as -> by lia.
           rewrite lookup_app_r, Nat.sub_diag by lia. cbn. by exists body0.
        -- rewrite lookup_ge_None_2 by (rewrite length_app; cbn; lia).
           replace (target - (length workers + 1)) with n by lia. apply Htarget.
    + destruct Hfacts as [(-> & _)|(Hm & Hsems & Hw)]; [done|].
      destruct (Hw j _ Hi) as (p0 & [= <-] & Hbal & Hg).
      rewrite (balanced_next_start _ _ _ _ Hbal) in Hnext. discriminate Hnext.
  - destruct i as [|j]; cbn in Hi.
    + injection Hi as <-. destruct Hfacts as [(_ & k & ->)|(Hm & _)]; [done|].
      rewrite (main_next_subprocess _ _ _ _ Hm) in Hnext. discriminate Hnext.
    + destruct Hfacts as [(-> & _)|(Hm & Hsems & Hw)]; [done|].
      destruct (Hw j _ Hi) as (p0 & [= <-] & Hbal & Hg).
      destruct p as [a|e|X o k0|body0 k0]; try done.
      destruct o; try done. destruct Hg as [Hg _]. lia.
  - destruct i as [|j]; cbn in Hi; [done|].
    destruct Hfacts as [(-> & _)|(Hm & Hsems & Hw)]; [done|].
    by destruct (Hw j _ Hi) as (p0 & [=] & _).
  - destruct i as [|j]; cbn in Hi; [done|].
    destruct Hfacts as [(-> & _)|(Hm & Hsems & Hw)]; [done|].
    by destruct (Hw j _ Hi) as (p0 & [=] & _).
Qed.

Lemma main_finished_returned s total main workers :
  starting s total main workers \/ joining total main workers ->
  finished (Running main) = true -> main = Ret tt.
Proof.
  intros [(bodies & q & Hq & Hbal & Hlen & ->)|(d & Hd & Hlen & -> & _)].
  - destruct bodies as [|body rest]; cbn in Hq.
    + subst q. cbn. by destruct (length workers).
    + by destruct q.
  - by destruct (length workers - d).
Qed.

(** X17: without a permit a batch with work to do never returns.  With
    [threads] at zero, if some target of the batch has to be archived (its
    operation is [clone] or [pull], and it is not a clone of a path that is
    there), then under every interleaving the call of
    [iterate_repos_to_archive] ([iterate_gists_to_archive]) is still
    running: the thread of that target waits for a permit that never comes,
    and the join waits for the thread. *)
Theorem zero_threads_never_return self main w0 w pool target :
  threads self = 0%Z ->
  (exists repos context operation repo,
     main = iterate_repos_to_archive self repos context operation /\
     List.filter (archived self context) repos !! target = Some repo /\
     (operation = CLONE_OPERATION \/ operation = PULL_OPERATION) /\
     Fs.path_exists w0 (repo_path self repo) && String.eqb operation CLONE_OPERATION = false)
  \/ (exists gists operation gist,
        main = iterate_gists_to_archive self gists operation /\
        gists !! target = Some gist /\
        (operation = CLONE_OPERATION \/ operation = PULL_OPERATION) /\
        Fs.path_exists w0 (gist_path self gist) && String.eqb operation CLONE_OPERATION = false) ->
  steps (w0, [Running main]) (w, pool) ->
  exists main', pool !! 0%nat = Some (Running main') /\ finished (Running main') = false.
Proof.
  intros Hzero Hmain Hsteps.
  assert (Hfacts : exists total,
    (target < total)%nat /\
    (forall st, steps (w0, [Running main]) st ->
       st = (w0, [Running main]) \/ batch_inv (sems w0) 0 total st) /\
    (forall w1 pool1, steps (w0, [Running main]) (w1, pool1) ->
       pool_guarded (length (sems w0)) pool1) /\
    spawns_nth (waits (Fs.path_exists w0)) target main /\
    exists k, main = Op (NewBoundedSemaphore 0) k).
  { destruct Hmain as [(repos & context & operation & repo & -> & Hn & Hop & Hskip)
                      |(gists & operation & gist & -> & Hn & Hop & Hskip)].
    - exists (length (List.filter (archived self context) repos)).
      split; [by eapply lookup_lt_Some|]. split.
      { intros st Hst. rewrite <- Hzero. by apply iterate_repos_reach. }
      split.
      { intros w1 pool1 Hst.
        destruct (iterate_reach_guarded self _ _ _ _ (or_introl (ex_intro _ repos
                    (ex_intro _ context (ex_intro _ operation eq_refl)))) Hst)
          as (_ & _ & Hg & _). exact Hg. }
      split; [|rewrite <- Hzero; by eexists].
      assert (Hcmd : is_Some (repo_commands repo (repo_path self repo) !! operation)).
      { by apply (proj1 (operation_of_commands repo Fixture.gist1 _ operation)). }
      destruct Hcmd as [cmd Hcmd].
      unfold iterate_repos_to_archive, BoundedSemaphore, perform.
      cbn [mbind prog_bind bind spawns_nth]. intros [e|s]; cbn [unwrap bind spawns_nth]; [done|].
      apply (spawns_nth_bind _ _ (start_repo_threads self s context operation repos [])).
      + eapply spawns_nth_start_repo_threads; [done|]. by eapply waits_archive.
      + intros l m. apply spawns_nth_for_each_join.
    - exists (length gists).
      split; [by eapply lookup_lt_Some|]. split.
      { intros st Hst. rewrite <- Hzero. by apply iterate_gists_reach. }
      split.
      { intros w1 pool1 Hst.
        destruct (iterate_reach_guarded self _ _ _ _ (or_intror (ex_intro _ gists
                    (ex_intro _ operation eq_refl))) Hst)
          as (_ & _ & Hg & _). exact Hg. }
      split; [|rewrite <- Hzero; by eexists].
      assert (Hcmd : is_Some (gist_commands gist (gist_path self gist) !! operation)).
      { by apply (proj2 (operation_of_commands Fixture.bob_repo1 gist _ operation)). }
      destruct Hcmd as [cmd Hcmd].
      unfold iterate_gists_to_archive, BoundedSemaphore, perform.
      cbn [mbind prog_bind bind spawns_nth]. intros [e|s]; cbn [unwrap bind spawns_nth]; [done|].
      apply (spawns_nth_bind _ _ (start_gist_threads self s operation gists [])).
      + eapply spawns_nth_start_gist_threads; [done|]. by eapply waits_archive.
      + intros l m. apply spawns_nth_for_each_join. }
  destruct Hfacts as (total & Htotal & Hreach & Hguard & Hsp & k & Hop). clear Hmain.
  assert (Hwaits : pool_waits w0 target (w, pool)).
  { remember (w0, [Running main]) as st0 eqn:Hst0.
    remember (w, pool) as st eqn:Hst. clear Hst. revert Hreach Hguard.
    induction Hsteps as [st|st0 st1 st2 Hsteps IH Hstep]; intros Hreach Hguard.
    - subst st. split; [done|]. split; [done|]. exists main, []. split; [done|].
      cbn. by rewrite Nat.sub_0_r.
    - subst st0. specialize (IH eq_refl Hreach Hguard).
      apply (pool_waits_step w0 total target st1); [done| |done].
      destruct (Hreach _ Hsteps) as [->|Hinv].
      + right. exists w0, k. by rewrite Hop.
      + left. split; [done|]. destruct st1 as [w1 pool1]. by eapply Hguard. }
  destruct Hwaits as (_ & _ & main' & workers & Hpool & Htarget). cbn in Hpool. subst pool.
  exists main'. split; [done|].
  destruct (finished (Running main')) eqn:Hfin; [exfalso|done].
  destruct (Hreach _ Hsteps) as [Hinit|Hinv].
  - injection Hinit as _ -> ->. by rewrite Hop in Hfin.
  - destruct (batch_inv_joined _ _ _ _ _ Hinv) as (m & Hm & Hall & Hlen).
    injection Hm as <-.
    assert (Hret : main' = Ret tt).
    { inversion Hinv as [w1 e Hsems Hb Hst|w1 main1 workers1 v hs1 Hsems Hws1 Hv Hsum Hmn Hst];
        [lia|].
      by eapply main_finished_returned. }
    specialize (Hlen Hret). cbn in Hlen.
    destruct (lookup_lt_is_Some_2 workers target) as [t Ht]; [lia|].
    rewrite Ht in Htarget. destruct Htarget as (p & -> & Hw).
    pose proof (waits_not_finished _ _ Hw) as Hnot.
    rewrite (Hall Hfin (Running p)) in Hnot; [done|].
    right. by eapply list_elem_of_lookup_2.
Qed.

Lemma zero_threads_never_return_witness :
  let self := with_threads (Fixture.config false true false ["bob"] None) 0 in
  let main := iterate_repos_to_archive self [Fixture.bob_repo1] USER_CONTEXT CLONE_OPERATION in
  let st := default (Fixture.fresh, [])
              (sched_run [DoOp Sample.forge 0; DoStart 0; DoOp Sample.forge 1]
                         (Fixture.fresh, [Running main])) in
  exists main', st.2 !! 0%nat = Some (Running main') /\ finished (Running main') = false.
Proof.
  cbv zeta.
  match goal with |- exists _, ?st.2 !! _ = _ /\ _ =>
    apply (zero_threads_never_return
             (with_threads (Fixture.config false true false ["bob"] None) 0)
             (iterate_repos_to_archive
                (with_threads (Fixture.config false true false ["bob"] None) 0)
                [Fixture.bob_repo1] USER_CONTEXT CLONE_OPERATION)
             Fixture.fresh st.1 st.2 0)
  end.
  - reflexivity.
  - left. exists [Fixture.bob_repo1], USER_CONTEXT, CLONE_OPERATION, Fixture.bob_repo1.
    split; [reflexivity|]. split; [reflexivity|]. split; [by left|].
    vm_compute. reflexivity.
  - apply (sched_run_sound [DoOp Sample.forge 0; DoStart 0; DoOp Sample.forge 1]).
    vm_compute. reflexivity.
Defined.

Example zero_threads_worker_waits :
  let self := with_threads (Fixture.config false true false ["bob"] None) 0 in
  let main := iterate_repos_to_archive self [Fixture.bob_repo1] USER_CONTEXT CLONE_OPERATION in
  option_map (fun st => (sems st.1, next_release <$> st.2, finished <$> st.2))
    (sched_run [DoOp Sample.forge 0; DoStart 0; DoOp Sample.forge 1]
               (Fixture.fresh, [Running main]))
  = Some ([(2, 2); (0, 0)]%Z, [None; None], [false; false]) /\
  sched_run [DoOp Sample.forge 0; DoStart 0; DoOp Sample.forge 1; DoOp Sample.forge 1]
            (Fixture.fresh, [Running main]) = None /\
  sched_run [DoOp Sample.forge 0; DoStart 0; DoOp Sample.forge 1; DoOp Sample.forge 0]
            (Fixture.fresh, [Running main]) = None.
Proof. vm_compute. repeat split. Qed.
